(** * CloudMetar: the METAR decoder of [hello.go]

    A shallow embedding of [Metar.Parse] together with the parts of the Go
    standard library it calls ([regexp], [strconv.Atoi], [time.Parse] and
    [time.Date]), followed by the properties of the decoder.

    Go strings are byte strings and every index the decoder handles is a byte
    offset, so report texts are [string]s of [ascii] bytes here and offsets
    are integers ([Z], because an unset submatch is reported as [-1]). *)

From Stdlib Require Import List String Ascii ZArith Lia Bool Arith.
Import ListNotations.

Local Open Scope string_scope.
Local Open Scope list_scope.
Local Open Scope Z_scope.

(** ** Package [regexp] *)

Module regexp.

(** The syntax tree of the patterns of [parserStrings].  Every repetition is
    greedy; the table uses no other kind. *)
Inductive Regexp : Type :=
| Empty
| Lit (c : ascii)
| Class (ranges : list (ascii * ascii))
| Begin
| Cat (a b : Regexp)
| Alt (a b : Regexp)
| Quest (a : Regexp)
| Star (a : Regexp)
| Plus (a : Regexp)
| Repeat (lo hi : nat) (a : Regexp)
| Capture (n : nat) (name : string) (a : Regexp).

(** *** Compilation of a pattern text

    A stack parser in the manner of [regexp/syntax]: one frame per open
    parenthesis, holding the finished alternatives and the pieces of the
    alternative being read.  Syntax the table does not use (flags, lazy
    operators, negated classes, [.], [$]) is refused. *)

Record frame : Type := mkFrame {
  f_cap  : option (nat * string);
  f_alts : list Regexp;
  f_cur  : list Regexp
}.

Definition cat_of (rev_pieces : list Regexp) : Regexp :=
  match rev_pieces with
  | [] => Empty
  | last :: before => fold_left (fun acc p => Cat p acc) before last
  end.

Definition alt_of (rev_alts : list Regexp) : Regexp :=
  match rev_alts with
  | [] => Empty
  | last :: before => fold_left (fun acc p => Alt p acc) before last
  end.

Definition close_frame (f : frame) : Regexp :=
  let body := alt_of (cat_of (f_cur f) :: f_alts f) in
  match f_cap f with
  | Some (n, name) => Capture n name body
  | None => body
  end.

Definition push_piece (r : Regexp) (f : frame) : frame :=
  mkFrame (f_cap f) (f_alts f) (r :: f_cur f).

Definition is_digit (c : ascii) : bool :=
  ((48 <=? nat_of_ascii c) && (nat_of_ascii c <=? 57))%nat.

Definition is_word (c : ascii) : bool :=
  let n := nat_of_ascii c in
  (is_digit c || ((65 <=? n) && (n <=? 90)) || ((97 <=? n) && (n <=? 122))
   || (n =? 95))%nat.

Definition digit_class : list (ascii * ascii) := [("0"%char, "9"%char)].

(** Perl's [\s] in RE2 syntax: tab, newline, form feed, carriage return and
    space. *)
Definition space_class : list (ascii * ascii) :=
  [ (ascii_of_nat 9, ascii_of_nat 10); (ascii_of_nat 12, ascii_of_nat 13);
    (" "%char, " "%char) ].

(** Reads a capture name up to [>]. *)
Fixpoint read_name (s : list ascii) (acc : string) : option (string * list ascii) :=
  match s with
  | [] => None
  | c :: rest =>
      if Ascii.eqb c ">"%char then
        match acc with EmptyString => None | _ => Some (acc, rest) end
      else if is_word c then read_name rest (acc ++ String c EmptyString)%string
      else None
  end.

(** Reads a decimal number; [None] when there is no digit. *)
Fixpoint read_nat (s : list ascii) (acc : option nat) : option nat * list ascii :=
  match s with
  | c :: rest =>
      if is_digit c then
        read_nat rest
          (Some (10 * match acc with Some a => a | None => 0 end
                 + (nat_of_ascii c - 48)))%nat
      else (acc, s)
  | [] => (acc, s)
  end.

(** Reads the counts of [{n}] or [{n,m}] after the brace. *)
Definition read_repeat (s : list ascii) : option (nat * nat * list ascii) :=
  match read_nat s None with
  | (Some lo, rest) =>
      match rest with
      | c :: rest1 =>
          if Ascii.eqb c "}"%char then Some (lo, lo, rest1)
          else if Ascii.eqb c ","%char then
            match read_nat rest1 None with
            | (Some hi, rest2) =>
                match rest2 with
                | c2 :: rest3 =>
                    if Ascii.eqb c2 "}"%char && (lo <=? hi)%nat
                    then Some (lo, hi, rest3) else None
                | [] => None
                end
            | (None, _) => None
            end
          else None
      | [] => None
      end
  | (None, _) => None
  end.

(** Reads the items of a bracket class after the bracket, up to []]. *)
Fixpoint read_class (s : list ascii) (acc : list (ascii * ascii))
  : option (list (ascii * ascii) * list ascii) :=
  match s with
  | [] => None
  | c :: rest =>
      if Ascii.eqb c "]"%char then
        match acc with [] => None | _ => Some (acc, rest) end
      else if Ascii.eqb c "\"%char then
        match rest with
        | e :: rest1 =>
            if Ascii.eqb e "d"%char then read_class rest1 (acc ++ digit_class)
            else if Ascii.eqb e "s"%char then read_class rest1 (acc ++ space_class)
            else if is_word e then None
            else read_class rest1 (acc ++ [(e, e)])
        | [] => None
        end
      else if Ascii.eqb c "^"%char then
        match acc with [] => None | _ => read_class rest (acc ++ [(c, c)]) end
      else
        match rest with
        | d :: hi :: rest2 =>
            if Ascii.eqb d "-"%char && negb (Ascii.eqb hi "]"%char) then
              if Ascii.eqb hi "\"%char then None
              else if (nat_of_ascii c <=? nat_of_ascii hi)%nat
                   then read_class rest2 (acc ++ [(c, hi)]) else None
            else read_class rest (acc ++ [(c, c)])
        | _ => read_class rest (acc ++ [(c, c)])
        end
  end.

Definition starts_with (p : string) (s : list ascii) : option (list ascii) :=
  let lp := list_ascii_of_string p in
  if list_eq_dec Ascii.ascii_dec (firstn (List.length lp) s) lp
  then Some (skipn (List.length lp) s) else None.

(** The parser proper.  [ncap] counts the capturing groups opened so far and
    [rep] tells whether the last piece read was a repetition operator. *)
Fixpoint parse (fuel : nat) (s : list ascii) (stack : list frame) (ncap : nat)
  (rep : bool) : option (Regexp * nat) :=
  match fuel with
  | O => None
  | S fuel' =>
      match s with
      | [] =>
          match stack with
          | [f] => Some (close_frame f, ncap)
          | _ => None
          end
      | c :: rest =>
          match stack with
          | [] => None
          | f :: under =>
              if Ascii.eqb c "("%char then
                match starts_with "?P<" rest with
                | Some rest1 =>
                    match read_name rest1 EmptyString with
                    | Some (name, rest2) =>
                        parse fuel' rest2
                          (mkFrame (Some (S ncap, name)) [] [] :: stack)
                          (S ncap) false
                    | None => None
                    end
                | None =>
                    match starts_with "?:" rest with
                    | Some rest1 =>
                        parse fuel' rest1 (mkFrame None [] [] :: stack) ncap false
                    | None =>
                        match starts_with "?" rest with
                        | Some _ => None
                        | None =>
                            parse fuel' rest
                              (mkFrame (Some (S ncap, EmptyString)) [] [] :: stack)
                              (S ncap) false
                        end
                    end
                end
              else if Ascii.eqb c ")"%char then
                match under with
                | parent :: under' =>
                    parse fuel' rest (push_piece (close_frame f) parent :: under')
                      ncap false
                | [] => None
                end
              else if Ascii.eqb c "|"%char then
                parse fuel' rest
                  (mkFrame (f_cap f) (cat_of (f_cur f) :: f_alts f) [] :: under)
                  ncap false
              else if Ascii.eqb c "?"%char || Ascii.eqb c "+"%char
                      || Ascii.eqb c "*"%char then
                match f_cur f, rep with
                | a :: before, false =>
                    let op := if Ascii.eqb c "?"%char then Quest a
                              else if Ascii.eqb c "+"%char then Plus a
                              else Star a in
                    parse fuel' rest
                      (mkFrame (f_cap f) (f_alts f) (op :: before) :: under)
                      ncap true
                | _, _ => None
                end
              else if Ascii.eqb c "{"%char then
                match f_cur f, rep, read_repeat rest with
                | a :: before, false, Some (lo, hi, rest1) =>
                    parse fuel' rest1
                      (mkFrame (f_cap f) (f_alts f) (Repeat lo hi a :: before)
                         :: under)
                      ncap true
                | _, _, _ => None
                end
              else if Ascii.eqb c "["%char then
                match read_class rest [] with
                | Some (ranges, rest1) =>
                    parse fuel' rest1 (push_piece (Class ranges) f :: under)
                      ncap false
                | None => None
                end
              else if Ascii.eqb c "\"%char then
                match rest with
                | e :: rest1 =>
                    if Ascii.eqb e "d"%char then
                      parse fuel' rest1 (push_piece (Class digit_class) f :: under)
                        ncap false
                    else if Ascii.eqb e "s"%char then
                      parse fuel' rest1 (push_piece (Class space_class) f :: under)
                        ncap false
                    else if is_word e then None
                    else parse fuel' rest1 (push_piece (Lit e) f :: under)
                           ncap false
                | [] => None
                end
              else if Ascii.eqb c "^"%char then
                parse fuel' rest (push_piece Begin f :: under) ncap false
              else if Ascii.eqb c "$"%char || Ascii.eqb c "."%char
                      || Ascii.eqb c "]"%char || Ascii.eqb c "}"%char then None
              else parse fuel' rest (push_piece (Lit c) f :: under) ncap false
          end
      end
  end.

(** A compiled pattern: its tree and the number of its capturing groups. *)
Record t : Type := mkRegexp {
  expr   : Regexp;
  numCap : nat
}.

Definition Compile (pattern : string) : option t :=
  let s := list_ascii_of_string pattern in
  match parse (S (List.length s)) s [mkFrame None [] []] 0%nat false with
  | Some (r, n) => Some (mkRegexp r n)
  | None => None
  end.

(** *** Matching

    Leftmost-first matching, as the package documents it: the match found is
    the one a backtracking search finds first.  The matcher is that
    backtracking search, in continuation-passing style; a position is the
    byte offset together with the text that remains there. *)

Definition captures : Type := list (nat * (nat * nat)).

Fixpoint lookup_cap (n : nat) (c : captures) : option (nat * nat) :=
  match c with
  | [] => None
  | (k, v) :: c' => if Nat.eqb k n then Some v else lookup_cap n c'
  end.

Definition in_class (ranges : list (ascii * ascii)) (c : ascii) : bool :=
  existsb (fun r => (nat_of_ascii (fst r) <=? nat_of_ascii c)%nat
                    && (nat_of_ascii c <=? nat_of_ascii (snd r))%nat) ranges.

Definition cont : Type := nat -> list ascii -> captures -> option captures.

Definition orelse (a : option captures) (b : unit -> option captures)
  : option captures :=
  match a with Some x => Some x | None => b tt end.

(** Greedy iteration of a piece [step]: one more round when the piece matches
    and moves on, the rest of the pattern otherwise.  No pattern of the table
    repeats a piece that can match the empty text. *)
Fixpoint star_loop (step : nat -> list ascii -> captures -> cont -> option captures)
  (k : cont) (fuel : nat) (pos : nat) (s : list ascii) (c : captures)
  : option captures :=
  match fuel with
  | O => k pos s c
  | S fuel' =>
      orelse
        (step pos s c
           (fun pos' s' c' =>
              if (pos <? pos')%nat then star_loop step k fuel' pos' s' c'
              else None))
        (fun _ => k pos s c)
  end.

(** At most [m] further rounds of a counted repetition. *)
Fixpoint may_loop (step : nat -> list ascii -> captures -> cont -> option captures)
  (k : cont) (m : nat) (pos : nat) (s : list ascii) (c : captures)
  : option captures :=
  match m with
  | O => k pos s c
  | S m' =>
      orelse (step pos s c (fun pos' s' c' => may_loop step k m' pos' s' c'))
             (fun _ => k pos s c)
  end.

(** The [n] rounds a counted repetition must make. *)
Fixpoint must_loop (step : nat -> list ascii -> captures -> cont -> option captures)
  (k : cont) (n : nat) (pos : nat) (s : list ascii) (c : captures)
  : option captures :=
  match n with
  | O => k pos s c
  | S n' => step pos s c (fun pos' s' c' => must_loop step k n' pos' s' c')
  end.

Fixpoint exec (r : Regexp) (pos : nat) (s : list ascii) (c : captures)
  (k : cont) {struct r} : option captures :=
  match r with
  | Empty => k pos s c
  | Lit a =>
      match s with
      | x :: s' => if Ascii.eqb x a then k (S pos) s' c else None
      | [] => None
      end
  | Class ranges =>
      match s with
      | x :: s' => if in_class ranges x then k (S pos) s' c else None
      | [] => None
      end
  | Begin => if Nat.eqb pos 0 then k pos s c else None
  | Cat a b => exec a pos s c (fun pos' s' c' => exec b pos' s' c' k)
  | Alt a b => orelse (exec a pos s c k) (fun _ => exec b pos s c k)
  | Quest a => orelse (exec a pos s c k) (fun _ => k pos s c)
  | Star a => star_loop (exec a) k (List.length s) pos s c
  | Plus a =>
      exec a pos s c
        (fun pos' s' c' => star_loop (exec a) k (List.length s') pos' s' c')
  | Repeat lo hi a =>
      must_loop (exec a) (may_loop (exec a) k (hi - lo)) lo pos s c
  | Capture n _ a =>
      exec a pos s c (fun pos' s' c' => k pos' s' ((n, (pos, pos')) :: c'))
  end.

(** Whether a pattern can match the empty text, and whether every piece it
    repeats consumes at least one byte. *)
Fixpoint nullable (r : Regexp) : bool :=
  match r with
  | Empty | Begin => true
  | Lit _ | Class _ => false
  | Cat a b => nullable a && nullable b
  | Alt a b => nullable a || nullable b
  | Quest _ | Star _ => true
  | Plus a => nullable a
  | Repeat lo _ a => Nat.eqb lo 0 || nullable a
  | Capture _ _ a => nullable a
  end.

Fixpoint loops_consume (r : Regexp) : bool :=
  match r with
  | Empty | Begin | Lit _ | Class _ => true
  | Cat a b | Alt a b => loops_consume a && loops_consume b
  | Quest a | Capture _ _ a => loops_consume a
  | Star a | Plus a | Repeat _ _ a => negb (nullable a) && loops_consume a
  end.

(** The offsets of group [g] after a match, [-1] and [-1] when the group
    took no part in it. *)
Definition span (c : captures) (g : nat) : Z * Z :=
  match lookup_cap g c with
  | Some (b, e) => (Z.of_nat b, Z.of_nat e)
  | None => (-1, -1)
  end.

(** The index vector of a match: the offsets of the whole match (group 0) and
    of every capturing group, two entries a group. *)
Definition indices (numCap : nat) (c : captures) : list Z :=
  flat_map (fun g => [fst (span c g); snd (span c g)]) (seq 0 (S numCap)).

(** One match attempt at offset [pos]. *)
Definition match_at (re : t) (pos : nat) (s : list ascii) : option captures :=
  exec (expr re) pos s [] (fun pos' _ c => Some ((0%nat, (pos, pos')) :: c)).

(** The leftmost match that starts at [pos] or later: the start offsets are
    tried from left to right. *)
Fixpoint search (re : t) (pos : nat) (s : list ascii) : option captures :=
  match match_at re pos s with
  | Some c => Some c
  | None =>
      match s with
      | [] => None
      | _ :: s' => search re (S pos) s'
      end
  end.

Definition FindStringSubmatchIndex (re : t) (s : string) : option (list Z) :=
  match search re 0 (list_ascii_of_string s) with
  | Some c => Some (indices (numCap re) c)
  | None => None
  end.

(** [allMatches]: successive matches, each search starting where the last
    match ended; an empty match moves the search one byte on, and is dropped
    when it touches the end of the match before it. *)
Fixpoint allMatches (fuel : nat) (re : t) (whole : list ascii) (pos : nat)
  (prevMatchEnd : option nat) : list (list Z) :=
  match fuel with
  | O => []
  | S fuel' =>
      if (List.length whole <? pos)%nat then [] else
      match search re pos (skipn pos whole) with
      | None => []
      | Some c =>
          match lookup_cap 0 c with
          | None => []
          | Some (b, e) =>
              if Nat.eqb e pos then
                let accept :=
                  match prevMatchEnd with
                  | Some p => negb (Nat.eqb b p)
                  | None => true
                  end in
                (if accept then [indices (numCap re) c] else [])
                  ++ allMatches fuel' re whole (S pos) (Some e)
              else
                indices (numCap re) c :: allMatches fuel' re whole e (Some e)
          end
      end
  end.

(** [FindAllStringSubmatchIndex s (-1)]; [None] is Go's [nil]. *)
Definition FindAllStringSubmatchIndex (re : t) (s : string)
  : option (list (list Z)) :=
  let whole := list_ascii_of_string s in
  match allMatches (S (S (List.length whole))) re whole 0 None with
  | [] => None
  | ms => Some ms
  end.

End regexp.

(** ** Package [strconv] *)

Module strconv.

(** The value of a run of decimal digits, [None] on any other byte or on
    the empty text. *)
Fixpoint digits (s : string) (acc : Z) : option Z :=
  match s with
  | EmptyString => Some acc
  | String c s' =>
      if regexp.is_digit c
      then digits s' (10 * acc + (Z.of_nat (nat_of_ascii c) - 48))
      else None
  end.

Definition unsigned (s : string) : option Z :=
  match s with
  | EmptyString => None
  | _ => digits s 0
  end.

(** [int] is 64 bits wide. *)
Definition intSize : Z := 64.
Definition maxInt : Z := 2 ^ (intSize - 1) - 1.
Definition minInt : Z := - 2 ^ (intSize - 1).

(** [Atoi]: an optional sign and decimal digits; [None] stands for a
    non-nil error (bad syntax or a value outside [int]). *)
Definition Atoi (s : string) : option Z :=
  let signed :=
    match s with
    | String "-" s' => option_map Z.opp (unsigned s')
    | String "+" s' => unsigned s'
    | _ => unsigned s
    end in
  match signed with
  | Some n => if (minInt <=? n) && (n <=? maxInt) then Some n else None
  | None => None
  end.

End strconv.

(** ** Package [time] *)

Module time.

(** A UTC instant, held as the seconds elapsed since 1970-01-01T00:00:00Z.
    Every [Time] the decoder builds has whole seconds and location UTC. *)
Record Time : Type := mkTime { unix : Z }.

(** The zero [Time] is January 1 of year 1, 00:00:00 UTC. *)
Definition zero : Time := mkTime (-62135596800).

Definition isLeap (year : Z) : bool :=
  (year mod 4 =? 0) && (negb (year mod 100 =? 0) || (year mod 400 =? 0)).

Definition daysBefore : list Z :=
  [0; 31; 59; 90; 120; 151; 181; 212; 243; 273; 304; 334; 365].

Definition daysIn (month year : Z) : Z :=
  if (month =? 2) && isLeap year then 29
  else nth (Z.to_nat month) daysBefore 0 - nth (Z.to_nat (month - 1)) daysBefore 0.

(** Days from 1970-01-01 to January 1 of [year]. *)
Definition daysSinceEpoch (year : Z) : Z :=
  let y := year - 1 in
  365 * (year - 1970) + (y / 4 - y / 100 + y / 400) - 477.

(** [Date year month day hour min sec 0 UTC].  The month is normalised into
    the year; day, hour, minute and second may lie outside their usual
    ranges and carry over, which the linear sum below does. *)
Definition Date (year month day hour min sec : Z) : Time :=
  let m := month - 1 in
  let year := year + m / 12 in
  let month := m mod 12 + 1 in
  let d := daysSinceEpoch year + nth (Z.to_nat (month - 1)) daysBefore 0
           + (if isLeap year && (3 <=? month) then 1 else 0)
           + (day - 1) in
  mkTime (d * 86400 + hour * 3600 + min * 60 + sec).

(** The civil date of a day count. *)
Definition civil (days : Z) : Z * Z * Z :=
  let z := days + 719468 in
  let era := z / 146097 in
  let doe := z - era * 146097 in
  let yoe := (doe - doe / 1460 + doe / 36524 - doe / 146096) / 365 in
  let doy := doe - (365 * yoe + yoe / 4 - yoe / 100) in
  let mp := (5 * doy + 2) / 153 in
  let d := doy - (153 * mp + 2) / 5 + 1 in
  let m := if mp <? 10 then mp + 3 else mp - 9 in
  let y := yoe + era * 400 + (if m <=? 2 then 1 else 0) in
  (y, m, d).

Definition Year (t : Time) : Z := fst (fst (civil (unix t / 86400))).
Definition Month (t : Time) : Z := snd (fst (civil (unix t / 86400))).
Definition Day (t : Time) : Z := snd (civil (unix t / 86400)).
Definition Hour (t : Time) : Z := (unix t mod 86400) / 3600.
Definition Minute (t : Time) : Z := (unix t mod 3600) / 60.
Definition Second (t : Time) : Z := unix t mod 60.

(** *** [Parse] for the layout ["2006/01/02 15:04"] *)

Definition isDigit (s : string) (i : nat) : bool :=
  match String.get i s with
  | Some c => regexp.is_digit c
  | None => false
  end.

Definition digitVal (s : string) (i : nat) : Z :=
  match String.get i s with
  | Some c => Z.of_nat (nat_of_ascii c) - 48
  | None => 0
  end.

Definition drop (n : nat) (s : string) : string :=
  substring n (String.length s - n) s.

(** [getnum]: one or two digits, two when [fixed]. *)
Definition getnum (s : string) (fixed : bool) : option (Z * string) :=
  if negb (isDigit s 0) then None
  else if negb (isDigit s 1) then
    if fixed then None else Some (digitVal s 0, drop 1 s)
  else Some (digitVal s 0 * 10 + digitVal s 1, drop 2 s).

Fixpoint cutspace (s : string) : string :=
  match s with
  | String " " s' => cutspace s'
  | _ => s
  end.

(** [skip]: the literal text between two layout elements; a space of the
    layout stands for any run of spaces of the value. *)
Fixpoint skip (value prefix : string) : option string :=
  match prefix with
  | EmptyString => Some value
  | String " " prefix' =>
      match value with
      | String c _ =>
          if Ascii.eqb c " " then skip (cutspace value) (cutspace prefix')
          else None
      | EmptyString => skip value (cutspace prefix')
      end
  | String p prefix' =>
      match value with
      | String c value' => if Ascii.eqb c p then skip value' prefix' else None
      | EmptyString => None
      end
  end.

(** The year element [2006]: four bytes, the first a digit, all read as a
    number. *)
Definition getyear (value : string) : option (Z * string) :=
  if (String.length value <? 4)%nat || negb (isDigit value 0) then None
  else match strconv.digits (substring 0 4 value) 0 with
       | Some y => Some (y, drop 4 value)
       | None => None
       end.

(** The value read against the layout ["2006/01/02 15:04"]: the elements of
    the layout in turn (year, zero-padded month and day, hour of one or two
    digits, zero-padded minute), each checked against its range, no text
    left over, and the day checked against the month.  [None] stands for a
    non-nil error. *)
Definition parseYMDHM (value : string) : option Time :=
  match getyear value with
  | None => None
  | Some (year, value) =>
  match skip value "/" with
  | None => None
  | Some value =>
  match getnum value true with
  | None => None
  | Some (month, value) =>
  if (month <=? 0) || (12 <? month) then None else
  match skip value "/" with
  | None => None
  | Some value =>
  match getnum value true with
  | None => None
  | Some (day, value) =>
  match skip value " " with
  | None => None
  | Some value =>
  match getnum value false with
  | None => None
  | Some (hour, value) =>
  if (hour <? 0) || (24 <=? hour) then None else
  match skip value ":" with
  | None => None
  | Some value =>
  match getnum value true with
  | None => None
  | Some (min, value) =>
  if (min <? 0) || (60 <=? min) then None else
  match value with
  | String _ _ => None
  | EmptyString =>
      if (day <? 1) || (daysIn month year <? day) then None
      else Some (Date year month day hour min 0)
  end end end end end end end end end end.

(** [Parse layout value], for the one layout the decoder uses. *)
Definition Parse (layout value : string) : option Time :=
  if String.eqb layout "2006/01/02 15:04" then parseYMDHM value else None.

End time.

(** ** Package [hello] *)

Definition dateFormat : string := "2006/01/02 15:04".

Definition parserStrings : list (string * string) :=
  [ ("type", "^(?P<type>METAR|SPECI)?\s+");
    ("station", "^(?P<station>[A-Z][A-Z0-9]{3})\s+");
    ("time", "^(?P<day>\d\d)(?P<hour>\d\d)(?P<min>\d\d)Z?\s+");
    ("modifier", "^(?P<mod>AUTO|FINO|NIL|TEST|CORR?|RTD|CC[A-G])\s+");
    ("wind", "^(?P<dir>\d{3}|0|///|MMM|VRB)(?P<speed>P?[\dO]{2,3}|[/M]{2,3})(?P<gust>G(\d{1,3}|[/M]{1,3}))?(?P<units>KT|KMH|MPS)?(\s+(?P<varfrom>\d\d\d)V(?P<varto>\d\d\d))?\s+");
    ("visibility", "(?P<vis>(?P<dist>(M|P)?\d\d\d\d)(?P<dir>[NSEW][EW]?|NDV)?|(?P<distu>(M|P)?(\d+))(?P<units>SM|KM|M|U)?|CAVOK)\s+");
    ("runway", "^(RVRNO | R(?P<name>\d\d(RR?|LL?|C)?)/(?P<low>(M|P)?\d\d\d\d)(V(?P<high>(M|P)?\d\d\d\d))?(?P<unit>FT)?[/NDU]*)\s+");
    ("weather", "(?P<int>(-|\+|VC)+)?(?P<desc>(MI|PR|BC|DR|BL|SH|TS|FZ)+)?(:?(?P<prec>(DZ|RA|SN|SG|IC|PL|GR|GS|UP)+)(?P<obsc>BR|FG|FU|VA|DU|SA|HZ|PY)?(?P<other>PO|SQ|FC|SS|DS)?|(?P<obsc>BR|FG|FU|VA|DU|SA|HZ|PY)(?P<other>PO|SQ|FC|SS|DS)?|(?P<other>PO|SQ|FC|SS|DS))+\s+");
    ("sky", "(?P<cover>VV|CLR|SKC|SCK|NSC|NCD|BKN|SCT|FEW|OVC)(?P<height>\d{2,4})?(?P<cloud>([A-Z][A-Z]+))?\s+");
    ("temp", "^(?P<temp>(M|-)?\d+|//|XX|MM)/(?P<dewpt>(M|-)?\d+|//|XX|MM)?\s+");
    ("press", "^(?P<unit>A|Q|QNH|SLP)?(?P<press>\d{3,4}|////)(?P<unit2>INS)?\s*") ].

Record Wind : Type := mkWind {
  Vrb     : bool;
  Dir     : Z;
  Spd     : Z;
  Gust    : Z;
  VarFrom : Z;
  VarTo   : Z
}.

Record Weather : Type := mkWeather {
  Intens : string;
  Descr  : string;
  Precip : string;
  Other  : string
}.

Record Sky : Type := mkSky {
  Cover  : string;
  Height : Z;
  Cloud  : string
}.

(** The fields [Wind], [Weather] and [Sky] of the Go struct bear the names of
    their types; here they are [Metar_Wind], [Metar_Weather], [Metar_Sky]. *)
Record Metar : Type := mkMetar {
  Station       : string;
  Time          : time.Time;
  Mod           : string;
  Metar_Wind    : Wind;
  Visibility    : Z;
  Metar_Weather : list Weather;
  Metar_Sky     : list Sky;
  Temp          : Z;
  DewPt         : Z;
  Pressure      : Z
}.

(** The zero values [Wind{}], [Weather{}], [Sky{}] and [Metar{}]. *)
Definition Wind0 : Wind := mkWind false 0 0 0 0 0.
Definition Weather0 : Weather := mkWeather "" "" "" "".
Definition Sky0 : Sky := mkSky "" 0 "".
Definition Metar0 : Metar := mkMetar "" time.zero "" Wind0 0 [] [] 0 0 0.

(** *** Results and the receiver

    A Go call either returns or panics, and [Parse] returns an [error].
    [Val] is a normal value, [Fail msg] the return of [fmt.Errorf msg] out of
    [Parse], [Panic] a run-time panic.  What [Parse] computes on its local
    variables is a [result]; what it does to the record is an [M]: [Parse] is
    a method on [*Metar] and writes into the record its caller holds, so a
    computation takes that record and gives it back as the call left it,
    whatever the result. *)

Inductive result (A : Type) : Type :=
| Val (a : A)
| Fail (msg : string)
| Panic.
Arguments Val {A} a.
Arguments Fail {A} msg.
Arguments Panic {A}.

Definition bindR {A B} (r : result A) (f : A -> result B) : result B :=
  match r with
  | Val a => f a
  | Fail msg => Fail msg
  | Panic => Panic
  end.

Definition M (A : Type) : Type := Metar -> Metar * result A.

Definition lift {A} (r : result A) : M A := fun m => (m, r).

Definition ret {A} (a : A) : M A := lift (Val a).

Definition bind {A B} (c : M A) (f : A -> M B) : M B :=
  fun m =>
    match c m with
    | (m', Val a) => f a m'
    | (m', Fail msg) => (m', Fail msg)
    | (m', Panic) => (m', Panic)
    end.

Definition Errorf {A} (msg : string) : M A := lift (Fail msg).
Definition modify (f : Metar -> Metar) : M unit := fun m => (f m, Val tt).

Declare Scope result_scope.
Delimit Scope result_scope with R.
Declare Scope M_scope.
Delimit Scope M_scope with M.

Notation "x <- c ;; k" := (bindR c (fun x => k))
  (at level 61, c at next level, right associativity) : result_scope.
Notation "x <- c ;; k" := (bind c (fun x => k))
  (at level 61, c at next level, right associativity) : M_scope.
Notation "c ;; k" := (bind c (fun _ => k))
  (at level 61, right associativity) : M_scope.
(** A computation on local variables inside a step. *)
Notation "x <~ r ;; k" := (bind (lift r) (fun x => k))
  (at level 61, r at next level, right associativity) : M_scope.

(** The record [m] with one field replaced. *)
Definition with_Station (v : string) (m : Metar) : Metar :=
  mkMetar v (Time m) (Mod m) (Metar_Wind m) (Visibility m)
    (Metar_Weather m) (Metar_Sky m) (Temp m) (DewPt m) (Pressure m).
Definition with_Time (v : time.Time) (m : Metar) : Metar :=
  mkMetar (Station m) v (Mod m) (Metar_Wind m) (Visibility m)
    (Metar_Weather m) (Metar_Sky m) (Temp m) (DewPt m) (Pressure m).
Definition with_Mod (v : string) (m : Metar) : Metar :=
  mkMetar (Station m) (Time m) v (Metar_Wind m) (Visibility m)
    (Metar_Weather m) (Metar_Sky m) (Temp m) (DewPt m) (Pressure m).
Definition with_Wind (v : Wind) (m : Metar) : Metar :=
  mkMetar (Station m) (Time m) (Mod m) v (Visibility m)
    (Metar_Weather m) (Metar_Sky m) (Temp m) (DewPt m) (Pressure m).
Definition with_Visibility (v : Z) (m : Metar) : Metar :=
  mkMetar (Station m) (Time m) (Mod m) (Metar_Wind m) v
    (Metar_Weather m) (Metar_Sky m) (Temp m) (DewPt m) (Pressure m).
Definition with_Weather (v : list Weather) (m : Metar) : Metar :=
  mkMetar (Station m) (Time m) (Mod m) (Metar_Wind m) (Visibility m)
    v (Metar_Sky m) (Temp m) (DewPt m) (Pressure m).
Definition with_Sky (v : list Sky) (m : Metar) : Metar :=
  mkMetar (Station m) (Time m) (Mod m) (Metar_Wind m) (Visibility m)
    (Metar_Weather m) v (Temp m) (DewPt m) (Pressure m).
Definition with_Temp (v : Z) (m : Metar) : Metar :=
  mkMetar (Station m) (Time m) (Mod m) (Metar_Wind m) (Visibility m)
    (Metar_Weather m) (Metar_Sky m) v (DewPt m) (Pressure m).
Definition with_DewPt (v : Z) (m : Metar) : Metar :=
  mkMetar (Station m) (Time m) (Mod m) (Metar_Wind m) (Visibility m)
    (Metar_Weather m) (Metar_Sky m) (Temp m) v (Pressure m).
Definition with_Pressure (v : Z) (m : Metar) : Metar :=
  mkMetar (Station m) (Time m) (Mod m) (Metar_Wind m) (Visibility m)
    (Metar_Weather m) (Metar_Sky m) (Temp m) (DewPt m) v.

(** Assignments to the fields of [m]. *)
Definition set_Station (v : string) : M unit := modify (with_Station v).
Definition set_Time (v : time.Time) : M unit := modify (with_Time v).
Definition set_Mod (v : string) : M unit := modify (with_Mod v).
Definition set_Wind (v : Wind) : M unit := modify (with_Wind v).
Definition set_Visibility (v : Z) : M unit := modify (with_Visibility v).
Definition set_Temp (v : Z) : M unit := modify (with_Temp v).
Definition set_DewPt (v : Z) : M unit := modify (with_DewPt v).
Definition set_Pressure (v : Z) : M unit := modify (with_Pressure v).

(** [m.Weather = append(m.Weather, w)] and [m.Sky = append(m.Sky, sky)]. *)
Definition append_Weather (w : Weather) : M unit :=
  modify (fun m => with_Weather (Metar_Weather m ++ [w]) m).
Definition append_Sky (sky : Sky) : M unit :=
  modify (fun m => with_Sky (Metar_Sky m ++ [sky]) m).

(** *** Indexing and slicing

    Both panic out of range: [idx[i]] needs [i < len(idx)], and [s[lo:hi]]
    needs [0 <= lo <= hi <= len(s)]. *)

Definition len (s : string) : Z := Z.of_nat (String.length s).

Definition at_ (idx : list Z) (i : nat) : result Z :=
  match nth_error idx i with
  | Some v => Val v
  | None => Panic
  end.

Definition slice (s : string) (lo hi : Z) : result string :=
  if (0 <=? lo) && (lo <=? hi) && (hi <=? len s)
  then Val (substring (Z.to_nat lo) (Z.to_nat (hi - lo)) s)
  else Panic.

(** [s[idx[i]:idx[j]]] *)
Definition sub (s : string) (idx : list Z) (i j : nat) : result string :=
  (lo <- at_ idx i ;; hi <- at_ idx j ;; slice s lo hi)%R.

(** [s[idx[i]:]] *)
Definition from (s : string) (idx : list Z) (i : nat) : result string :=
  (lo <- at_ idx i ;; slice s lo (len s))%R.

(** [idx[i] != -1 && idx[j] != -1] *)
Definition isset (idx : list Z) (i j : nat) : result bool :=
  (a <- at_ idx i ;;
   if a =? -1 then Val false
   else b <- at_ idx j ;; Val (negb (b =? -1)))%R.

(** [regexp.MustCompile] over the whole table: a pattern that does not
    compile panics. *)
Fixpoint compileAll (table : list (string * string))
  : option (list (string * regexp.t)) :=
  match table with
  | [] => Some []
  | (key, value) :: table' =>
      match regexp.Compile value, compileAll table' with
      | Some re, Some rest => Some ((key, re) :: rest)
      | _, _ => None
      end
  end.

Definition parsersT : Type := list (string * regexp.t).

(** [parsers[key]]: a missing key gives the nil pointer, whose use panics. *)
Fixpoint lookup (parsers : parsersT) (key : string) : option regexp.t :=
  match parsers with
  | [] => None
  | (k, re) :: parsers' => if String.eqb k key then Some re else lookup parsers' key
  end.

Definition FindStringSubmatchIndex (parsers : parsersT) (key s : string)
  : result (option (list Z)) :=
  match lookup parsers key with
  | Some re => Val (regexp.FindStringSubmatchIndex re s)
  | None => Panic
  end.

Definition FindAllStringSubmatchIndex (parsers : parsersT) (key s : string)
  : result (option (list (list Z))) :=
  match lookup parsers key with
  | Some re => Val (regexp.FindAllStringSubmatchIndex re s)
  | None => Panic
  end.

(** [strconv.Atoi] with the error of the enclosing [if] as [msg]. *)
Definition Atoi (s msg : string) : result Z :=
  match strconv.Atoi s with
  | Some v => Val v
  | None => Fail msg
  end.

(** *** [Parse], step by step

    Each step takes the text [rawMetar] that is left and returns the text left
    after it.  The variable [idx] is shared by the steps; the two loops assign
    it, so the steps around them pass it on. *)

Section Steps.

Variable parsers : parsersT.

Local Open Scope M_scope.

(** Lines 70-73: the optional report type. *)
Definition parseType (rawMetar : string) : M string :=
  idx <~ FindStringSubmatchIndex parsers "type" rawMetar ;;
  match idx with
  | Some idx => lift (from rawMetar idx 1)
  | None => ret rawMetar
  end.

(** Lines 75-81: the station. *)
Definition parseStation (rawMetar : string) : M string :=
  idx <~ FindStringSubmatchIndex parsers "station" rawMetar ;;
  match idx with
  | None => Errorf "Error parsing station identifier"
  | Some idx =>
      station <~ sub rawMetar idx 2 3 ;;
      set_Station station ;;
      lift (from rawMetar idx 1)
  end.

(** Lines 88-103: the observation time, from the reference date [rawDate]
    and the time group. *)
Definition timeOf (rawDate rawMetar : string) (idx : list Z) : result time.Time :=
  match time.Parse dateFormat rawDate with
  | None => Fail "Error parsing message time"
  | Some t =>
      (s <- sub rawMetar idx 2 3 ;;
       day <- Atoi s "Error converting day in metar" ;;
       s <- sub rawMetar idx 4 5 ;;
       hour <- Atoi s "Error converting hour in metar" ;;
       s <- sub rawMetar idx 6 7 ;;
       min <- Atoi s "Error converting minute in metar" ;;
       Val (time.Date (time.Year t) (time.Month t) day hour min 0))%R
  end.

(** Lines 83-104: the time group. *)
Definition parseTime (rawDate rawMetar : string) : M string :=
  idx <~ FindStringSubmatchIndex parsers "time" rawMetar ;;
  match idx with
  | None => Errorf "Error parsing metar time"
  | Some idx =>
      t <~ timeOf rawDate rawMetar idx ;;
      set_Time t ;;
      lift (from rawMetar idx 1)
  end.

(** Lines 106-110: the optional modifier. *)
Definition parseModifier (rawMetar : string) : M string :=
  idx <~ FindStringSubmatchIndex parsers "modifier" rawMetar ;;
  match idx with
  | Some idx =>
      mod_ <~ sub rawMetar idx 2 3 ;;
      set_Mod mod_ ;;
      lift (from rawMetar idx 1)
  | None => ret rawMetar
  end.

(** Lines 117-159: the local [wind]. *)
Definition windOf (rawMetar : string) (idx : list Z) : result Wind :=
  (let wind := Wind0 in
   b <- isset idx 2 3 ;;
   wind <- (if b : bool then
              s <- sub rawMetar idx 2 3 ;;
              if String.eqb s "VRB" then
                Val (mkWind true (Dir wind) (Spd wind) (Gust wind)
                       (VarFrom wind) (VarTo wind))
              else
                wdir <- Atoi s "Error converting wind direction in metar" ;;
                Val (mkWind (Vrb wind) wdir (Spd wind) (Gust wind)
                       (VarFrom wind) (VarTo wind))
            else Val wind) ;;
   b <- isset idx 4 5 ;;
   wind <- (if b : bool then
              s <- sub rawMetar idx 4 5 ;;
              wspd <- Atoi s "Error converting wind speed in metar" ;;
              Val (mkWind (Vrb wind) (Dir wind) wspd (Gust wind)
                     (VarFrom wind) (VarTo wind))
            else Val wind) ;;
   b <- isset idx 8 9 ;;
   wind <- (if b : bool then
              s <- sub rawMetar idx 8 9 ;;
              gust <- Atoi s "Error converting gust speed in metar" ;;
              Val (mkWind (Vrb wind) (Dir wind) (Spd wind) gust
                     (VarFrom wind) (VarTo wind))
            else Val wind) ;;
   b <- isset idx 14 15 ;;
   wind <- (if b : bool then
              s <- sub rawMetar idx 14 15 ;;
              vfrom <- Atoi s "Error converting variable from wind direction in metar" ;;
              Val (mkWind (Vrb wind) (Dir wind) (Spd wind) (Gust wind)
                     vfrom (VarTo wind))
            else Val wind) ;;
   b <- isset idx 16 17 ;;
   wind <- (if b : bool then
              s <- sub rawMetar idx 16 17 ;;
              vto <- Atoi s "Error converting variable to wind direction in metar" ;;
              Val (mkWind (Vrb wind) (Dir wind) (Spd wind) (Gust wind)
                     (VarFrom wind) vto)
            else Val wind) ;;
   Val wind)%R.

(** Lines 112-161: the wind. *)
Definition parseWind (rawMetar : string) : M string :=
  idx <~ FindStringSubmatchIndex parsers "wind" rawMetar ;;
  match idx with
  | None => Errorf "Error parsing metar wind"
  | Some idx =>
      wind <~ windOf rawMetar idx ;;
      set_Wind wind ;;
      lift (from rawMetar idx 1)
  end.

(** Lines 164-172: the value of a visibility match. *)
Definition visibilityOf (rawMetar : string) (idx : list Z) : result Z :=
  (lo <- at_ idx 4 ;;
   if lo =? -1 then Fail "Error parsing metar visibility" else
   hi <- at_ idx 5 ;;
   if hi =? -1 then Fail "Error parsing metar visibility" else
   s <- sub rawMetar idx 4 5 ;;
   Atoi s "Error converting visibility value in metar")%R.

(** Lines 163-173: the visibility, searched anywhere in the text left. *)
Definition parseVisibility (rawMetar : string) : M (list Z * string) :=
  idx <~ FindStringSubmatchIndex parsers "visibility" rawMetar ;;
  match idx with
  | None => Errorf "Error parsing metar visibility"
  | Some idx =>
      vis <~ visibilityOf rawMetar idx ;;
      set_Visibility vis ;;
      rest <~ from rawMetar idx 1 ;;
      ret (idx, rest)
  end.

(** Lines 178-190: the local [w] of the weather loop. *)
Definition weatherOf (rawMetar : string) (idx : list Z) : result Weather :=
  (let w := Weather0 in
   b <- isset idx 2 3 ;;
   w <- (if b : bool then
           s <- sub rawMetar idx 2 3 ;;
           Val (mkWeather s (Descr w) (Precip w) (Other w))
         else Val w) ;;
   b <- isset idx 6 7 ;;
   w <- (if b : bool then
           s <- sub rawMetar idx 6 7 ;;
           Val (mkWeather (Intens w) s (Precip w) (Other w))
         else Val w) ;;
   b <- isset idx 10 11 ;;
   w <- (if b : bool then
           s <- sub rawMetar idx 10 11 ;;
           Val (mkWeather (Intens w) (Descr w) s (Other w))
         else Val w) ;;
   b <- isset idx 16 17 ;;
   w <- (if b : bool then
           s <- sub rawMetar idx 16 17 ;;
           Val (mkWeather (Intens w) (Descr w) (Precip w) s)
         else Val w) ;;
   Val w)%R.

(** [for _, idx = range idxs]: the loop variable is the outer [idx], which
    keeps the last match when the loop ends. *)
Fixpoint rangeWeather (rawMetar : string) (idxs : list (list Z)) (idx : list Z)
  : M (list Z) :=
  match idxs with
  | [] => ret idx
  | idx :: idxs' =>
      w <~ weatherOf rawMetar idx ;;
      append_Weather w ;;
      rangeWeather rawMetar idxs' idx
  end.

(** Lines 175-194: the weather groups, searched anywhere in the text left. *)
Definition parseWeather (cur : list Z * string) : M (list Z * string) :=
  let (idx, rawMetar) := cur in
  idxs <~ FindAllStringSubmatchIndex parsers "weather" rawMetar ;;
  match idxs with
  | Some idxs =>
      idx <- rangeWeather rawMetar idxs idx ;;
      rest <~ from rawMetar idx 1 ;;
      ret (idx, rest)
  | None => ret (idx, rawMetar)
  end.

(** Lines 201-215: the local [sky] of the sky loop. *)
Definition skyOf (rawMetar : string) (idx : list Z) : result Sky :=
  (let sky := Sky0 in
   b <- isset idx 2 3 ;;
   sky <- (if b : bool then
             s <- sub rawMetar idx 2 3 ;;
             Val (mkSky s (Height sky) (Cloud sky))
           else Val sky) ;;
   b <- isset idx 4 5 ;;
   sky <- (if b : bool then
             s <- sub rawMetar idx 4 5 ;;
             height <- Atoi s "Error converting cloud height value in metar" ;;
             Val (mkSky (Cover sky) height (Cloud sky))
           else Val sky) ;;
   b <- isset idx 6 7 ;;
   sky <- (if b : bool then
             s <- sub rawMetar idx 6 7 ;;
             Val (mkSky (Cover sky) (Height sky) s)
           else Val sky) ;;
   Val sky)%R.

Fixpoint rangeSky (rawMetar : string) (idxs : list (list Z)) (idx : list Z)
  : M (list Z) :=
  match idxs with
  | [] => ret idx
  | idx :: idxs' =>
      sky <~ skyOf rawMetar idx ;;
      append_Sky sky ;;
      rangeSky rawMetar idxs' idx
  end.

(** Lines 196-218: the sky layers, searched anywhere in the text left. *)
Definition parseSky (cur : list Z * string) : M string :=
  let (idx, rawMetar) := cur in
  idxs <~ FindAllStringSubmatchIndex parsers "sky" rawMetar ;;
  match idxs with
  | None => Errorf "Error parsing metar sky"
  | Some idxs =>
      idx <- rangeSky rawMetar idxs idx ;;
      lift (from rawMetar idx 1)
  end.

(** Lines 225-229 and 235-239: the number of a value whose text is
    [rawMetar[idx[v]:idx[v+1]]] and whose sign group starts at [idx[sg]]; the
    sign letter [M] is replaced by a minus sign before the conversion. *)
Definition signedOf (rawMetar : string) (idx : list Z) (v sg : nat)
  (msg : string) : result Z :=
  (str <- sub rawMetar idx v (S v) ;;
   b <- isset idx sg (S sg) ;;
   isM <- (if b : bool then
             s <- sub rawMetar idx sg (S sg) ;; Val (String.eqb s "M")
           else Val false) ;;
   str <- (if isM : bool then
             tail <- slice str 1 (len str) ;; Val ("-" ++ tail)%string
           else Val str) ;;
   Atoi str msg)%R.

(** Lines 220-244: temperature and dew point. *)
Definition parseTemp (rawMetar : string) : M string :=
  idx <~ FindStringSubmatchIndex parsers "temp" rawMetar ;;
  match idx with
  | None => Errorf "Error parsing metar temperature"
  | Some idx =>
      temp <~ signedOf rawMetar idx 2 4
                "Error converting temperature value in metar" ;;
      set_Temp temp ;;
      dewPt <~ signedOf rawMetar idx 6 8
                 "Error converting dew point value in metar" ;;
      set_DewPt dewPt ;;
      lift (from rawMetar idx 1)
  end.

(** Lines 250-258: the value of a pressure match. *)
Definition pressureOf (rawMetar : string) (idx : list Z) : result Z :=
  (b <- isset idx 2 3 ;;
   isQ <- (if b : bool then
             s <- sub rawMetar idx 2 3 ;; Val (String.eqb s "Q")
           else Val false) ;;
   if isQ : bool then
     s <- sub rawMetar idx 4 5 ;;
     Atoi s "Error converting pressure value in metar"
   else Fail "Error interpreting metar pressure value")%R.

(** Lines 246-260: the pressure. *)
Definition parsePress (rawMetar : string) : M unit :=
  idx <~ FindStringSubmatchIndex parsers "press" rawMetar ;;
  match idx with
  | None => Errorf "Error parsing metar pressure"
  | Some idx =>
      value <~ pressureOf rawMetar idx ;;
      set_Pressure value
  end.

(** The steps up to the wind, which bring the cursor to the visibility
    group; the steps that search the text left; the two last steps. *)
Definition parseHead (rawMetar rawDate : string) : M string :=
  rawMetar <- parseType rawMetar ;;
  rawMetar <- parseStation rawMetar ;;
  rawMetar <- parseTime rawDate rawMetar ;;
  rawMetar <- parseModifier rawMetar ;;
  parseWind rawMetar.

Definition parseBody (rawMetar : string) : M string :=
  cur <- parseVisibility rawMetar ;;
  cur <- parseWeather cur ;;
  parseSky cur.

Definition parseTail (rawMetar : string) : M unit :=
  rawMetar <- parseTemp rawMetar ;;
  parsePress rawMetar.

End Steps.

(** [func (m *Metar) Parse(rawMetar, rawDate string) error]: the record [m]
    goes in and comes out; the result is [Val tt] for a nil error. *)
Definition Parse (rawMetar rawDate : string) : M unit :=
  match compileAll parserStrings with
  | None => lift Panic
  | Some parsers =>
      (rawMetar <- parseHead parsers rawMetar rawDate ;;
       rawMetar <- parseBody parsers rawMetar ;;
       parseTail parsers rawMetar)%M
  end.

(** ** Notions the statements use *)

(** The compiled table, as the first lines of [Parse] build it. *)
Definition parsers0 : parsersT :=
  Eval vm_compute in
    match compileAll parserStrings with Some p => p | None => [] end.

(** The compiled pattern of a key of the table. *)
Definition re (key : string) : regexp.t :=
  match lookup parsers0 key with
  | Some r => r
  | None => regexp.mkRegexp regexp.Empty 0
  end.

(** The text of group [g] of a match [idx] in [s]; [None] when the group is
    unset. *)
Definition group (s : string) (idx : list Z) (g : nat) : option string :=
  match nth_error idx (2 * g), nth_error idx (2 * g + 1) with
  | Some a, Some b =>
      if (a =? -1) || (b =? -1) then None
      else Some (substring (Z.to_nat a) (Z.to_nat (b - a)) s)
  | _, _ => None
  end.

(** The text of an optional group, empty when the group is unset: what a
    string field holds after [if idx[i] != -1 && idx[j] != -1 { f = ... }]. *)
Definition text (o : option string) : string :=
  match o with Some t => t | None => "" end.

(** All the matches of a pattern in a text, none for Go's [nil]. *)
Definition matches (r : regexp.t) (s : string) : list (list Z) :=
  match regexp.FindAllStringSubmatchIndex r s with
  | Some ms => ms
  | None => []
  end.

(** An index vector whose groups are unset or lie inside a text of [n]
    bytes. *)
Definition valid_idx (n : Z) (idx : list Z) : Prop :=
  forall g a b,
    nth_error idx (2 * g) = Some a -> nth_error idx (2 * g + 1) = Some b ->
    (a = -1 /\ b = -1) \/ (0 <= a <= b /\ b <= n).

(** The index vector of a match of a pattern with [n] groups in [s]: two
    entries for the whole match and for each group, the whole match set,
    every group unset or inside [s]. *)
Definition match_of (n : nat) (s : string) (idx : list Z) : Prop :=
  valid_idx (len s) idx /\
  (forall i, (i < 2 * S n)%nat -> nth_error idx i <> None) /\
  exists b e, nth_error idx 0 = Some b /\ nth_error idx 1 = Some e /\
              0 <= b <= e /\ e <= len s.

(** Matches that follow one another from offset [lo] on, left to right and
    without overlap. *)
Fixpoint ordered_from (lo : Z) (ms : list (list Z)) : Prop :=
  match ms with
  | [] => True
  | idx :: ms' =>
      exists b e, nth_error idx 0 = Some b /\ nth_error idx 1 = Some e /\
                  lo <= b <= e /\ ordered_from e ms'
  end.

(** Invariants of the matcher on a text of [total] bytes: captured offsets
    in order and inside the text, a position that agrees with the text left,
    and what a continuation guarantees from an offset on. *)
Definition wf_caps (total : nat) (c : regexp.captures) : Prop :=
  Forall (fun e => (fst (snd e) <= snd (snd e) <= total)%nat) c.

Definition at_pos (total : nat) (pos : nat) (s : list ascii) : Prop :=
  (pos + List.length s = total)%nat.

Definition kpost (total : nat) (P : regexp.captures -> Prop) (lo : nat)
  (k : regexp.cont) : Prop :=
  forall pos s c, (lo <= pos)%nat -> at_pos total pos s -> wf_caps total c ->
    forall res, k pos s c = Some res -> P res.

Definition step_ok (total : nat)
  (step : nat -> list ascii -> regexp.captures -> regexp.cont
          -> option regexp.captures) : Prop :=
  forall P pos s c k res,
    at_pos total pos s -> wf_caps total c -> kpost total P pos k ->
    step pos s c k = Some res -> P res.

(** The fields of [Metar], in the order in which the steps write them. *)
Inductive field : Type :=
| FStation | FTime | FMod | FWind | FVisibility
| FWeather | FSky | FTemp | FDewPt | FPressure.

Definition all_fields : list field :=
  [FStation; FTime; FMod; FWind; FVisibility; FWeather; FSky; FTemp; FDewPt;
   FPressure].

Definition same (f : field) (m m' : Metar) : Prop :=
  match f with
  | FStation => Station m' = Station m
  | FTime => Time m' = Time m
  | FMod => Mod m' = Mod m
  | FWind => Metar_Wind m' = Metar_Wind m
  | FVisibility => Visibility m' = Visibility m
  | FWeather => Metar_Weather m' = Metar_Weather m
  | FSky => Metar_Sky m' = Metar_Sky m
  | FTemp => Temp m' = Temp m
  | FDewPt => DewPt m' = DewPt m
  | FPressure => Pressure m' = Pressure m
  end.

(** [m'] is [m] but for the fields of [w]. *)
Definition frame (w : list field) (m m' : Metar) : Prop :=
  forall f, ~ In f w -> same f m m'.

(** How many fields, in the order of [all_fields], the steps before the one
    that returns the error [msg] may have written. *)
Definition stepsDone (msg : string) : nat :=
  if String.eqb msg "Error parsing station identifier" then 0
  else if existsb (String.eqb msg)
            [ "Error parsing metar time"; "Error parsing message time";
              "Error converting day in metar"; "Error converting hour in metar";
              "Error converting minute in metar" ] then 1
  else if existsb (String.eqb msg)
            [ "Error parsing metar wind";
              "Error converting wind direction in metar";
              "Error converting wind speed in metar";
              "Error converting gust speed in metar";
              "Error converting variable from wind direction in metar";
              "Error converting variable to wind direction in metar" ] then 3
  else if existsb (String.eqb msg)
            [ "Error parsing metar visibility";
              "Error converting visibility value in metar" ] then 4
  else if String.eqb msg "Error parsing metar sky" then 6
  else if existsb (String.eqb msg)
            [ "Error converting cloud height value in metar";
              "Error parsing metar temperature";
              "Error converting temperature value in metar" ] then 7
  else if String.eqb msg "Error converting dew point value in metar" then 8
  else if existsb (String.eqb msg)
            [ "Error parsing metar pressure";
              "Error converting pressure value in metar";
              "Error interpreting metar pressure value" ] then 9
  else 10.

Definition writtenBefore (msg : string) : list field :=
  firstn (stepsDone msg) all_fields.

(** What a call does to the record, whatever the record: the scalar fields
    it assigns and the entries it appends. *)
Record delta : Type := mkDelta {
  d_Station    : option string;
  d_Time       : option time.Time;
  d_Mod        : option string;
  d_Wind       : option Wind;
  d_Visibility : option Z;
  d_Weather    : list Weather;
  d_Sky        : list Sky;
  d_Temp       : option Z;
  d_DewPt      : option Z;
  d_Pressure   : option Z
}.

Definition assigned {A} (o : option A) (old : A) : A :=
  match o with Some v => v | None => old end.

Definition apply_delta (d : delta) (m : Metar) : Metar :=
  mkMetar (assigned (d_Station d) (Station m)) (assigned (d_Time d) (Time m))
    (assigned (d_Mod d) (Mod m)) (assigned (d_Wind d) (Metar_Wind m))
    (assigned (d_Visibility d) (Visibility m))
    (Metar_Weather m ++ d_Weather d) (Metar_Sky m ++ d_Sky d)
    (assigned (d_Temp d) (Temp m)) (assigned (d_DewPt d) (DewPt m))
    (assigned (d_Pressure d) (Pressure m)).

Definition later {A} (first second : option A) : option A :=
  match second with Some v => Some v | None => first end.

(** [d1] and then [d2]. *)
Definition compose (d1 d2 : delta) : delta :=
  mkDelta (later (d_Station d1) (d_Station d2)) (later (d_Time d1) (d_Time d2))
    (later (d_Mod d1) (d_Mod d2)) (later (d_Wind d1) (d_Wind d2))
    (later (d_Visibility d1) (d_Visibility d2))
    (d_Weather d1 ++ d_Weather d2) (d_Sky d1 ++ d_Sky d2)
    (later (d_Temp d1) (d_Temp d2)) (later (d_DewPt d1) (d_DewPt d2))
    (later (d_Pressure d1) (d_Pressure d2)).

Definition delta0 : delta :=
  mkDelta None None None None None [] [] None None None.

(** A computation whose result does not depend on the record and whose
    effect on it is a [delta]. *)
Definition summarized {A} (c : M A) : Prop :=
  exists d res, forall m, c m = (apply_delta d m, res).

(** The errors a computation on local variables can return. *)
Definition fails_in {A} (msgs : list string) (r : result A) : Prop :=
  forall msg, r = Fail msg -> In msg msgs.

(** The fields before the [k]-th, in the order of the steps. *)
Definition upto (k : nat) : list field := firstn k all_fields.

(** A computation that writes only the fields of [w], whatever its
    result. *)
Definition writes_only {A} (w : list field) (c : M A) : Prop :=
  forall m m' res, c m = (m', res) -> frame w m m'.

(** A computation that runs after [lo] fields are done and leaves [hi]
    fields done when it returns a value; when it returns an error, the
    fields written are among those the error stands for, which never include
    the last one. *)
Definition step_spec {A} (lo hi : nat) (c : M A) : Prop :=
  forall m m' res, c m = (m', res) ->
    match res with
    | Val _ => frame (upto hi) m m'
    | Fail msg =>
        frame (upto (stepsDone msg)) m m' /\ (lo <= stepsDone msg <= 9)%nat
    | Panic => True
    end.

(** A decode that returns nil, step by step: the text left and the record
    after each step. *)
Inductive decoded (rawMetar rawDate : string) (m m' : Metar) : Prop :=
| mkDecoded
    (r_station r_time r_modifier r_wind r_visibility r_temp r_press : string)
    (c_weather c_sky : list Z * string)
    (m_type m_station m_time m_modifier m_wind m_visibility m_weather m_sky
       m_temp : Metar)
    (ran_type : parseType parsers0 rawMetar m = (m_type, Val r_station))
    (ran_station :
       parseStation parsers0 r_station m_type = (m_station, Val r_time))
    (ran_time :
       parseTime parsers0 rawDate r_time m_station = (m_time, Val r_modifier))
    (ran_modifier :
       parseModifier parsers0 r_modifier m_time = (m_modifier, Val r_wind))
    (ran_wind :
       parseWind parsers0 r_wind m_modifier = (m_wind, Val r_visibility))
    (ran_visibility :
       parseVisibility parsers0 r_visibility m_wind
       = (m_visibility, Val c_weather))
    (ran_weather :
       parseWeather parsers0 c_weather m_visibility = (m_weather, Val c_sky))
    (ran_sky : parseSky parsers0 c_sky m_weather = (m_sky, Val r_temp))
    (ran_temp : parseTemp parsers0 r_temp m_sky = (m_temp, Val r_press))
    (ran_press : parsePress parsers0 r_press m_temp = (m', Val tt)).

(** ** The language of a pattern and the groups of a match *)

(** [n] pieces, each in [P], one after the other. *)
Fixpoint rep (P : list ascii -> Prop) (n : nat) (t : list ascii) : Prop :=
  match n with
  | O => t = []
  | S n' => exists u v, t = u ++ v /\ P u /\ rep P n' v
  end.

(** The texts a pattern matches, captures and anchoring left aside. *)
Fixpoint lang (r : regexp.Regexp) (t : list ascii) : Prop :=
  match r with
  | regexp.Empty | regexp.Begin => t = []
  | regexp.Lit a => t = [a]
  | regexp.Class ranges => exists x, t = [x] /\ regexp.in_class ranges x = true
  | regexp.Cat a b => exists u v, t = u ++ v /\ lang a u /\ lang b v
  | regexp.Alt a b => lang a t \/ lang b t
  | regexp.Quest a => t = [] \/ lang a t
  | regexp.Star a => exists n, rep (lang a) n t
  | regexp.Plus a => exists n, rep (lang a) (S n) t
  | regexp.Repeat lo hi a =>
      exists n, (lo <= n <= lo + (hi - lo))%nat /\ rep (lang a) n t
  | regexp.Capture _ _ a => lang a t
  end.

(** The capturing groups of a pattern, each with its body. *)
Fixpoint caps_of (r : regexp.Regexp) : list (nat * regexp.Regexp) :=
  match r with
  | regexp.Empty | regexp.Begin | regexp.Lit _ | regexp.Class _ => []
  | regexp.Cat a b | regexp.Alt a b => caps_of a ++ caps_of b
  | regexp.Quest a | regexp.Star a | regexp.Plus a | regexp.Repeat _ _ a =>
      caps_of a
  | regexp.Capture n _ a => (n, a) :: caps_of a
  end.

(** Groups that take part in every match of a pattern. *)
Fixpoint always (r : regexp.Regexp) : list nat :=
  match r with
  | regexp.Empty | regexp.Begin | regexp.Lit _ | regexp.Class _ => []
  | regexp.Cat a b => always a ++ always b
  | regexp.Alt a b =>
      filter (fun n => existsb (Nat.eqb n) (always b)) (always a)
  | regexp.Quest _ | regexp.Star _ => []
  | regexp.Plus a => always a
  | regexp.Repeat lo _ a => if Nat.eqb lo 0 then [] else always a
  | regexp.Capture n _ a => n :: always a
  end.

(** The bytes of [whole] from offset [b] to offset [e]. *)
Definition seg (whole : list ascii) (b e : nat) : list ascii :=
  firstn (e - b) (skipn b whole).

(** Every captured span lies in the text and holds a text of the body of
    its group. *)
Definition caps_inv (top : regexp.Regexp) (whole : list ascii)
  (c : regexp.captures) : Prop :=
  forall n b e, In (n, (b, e)) c ->
    (b <= e <= List.length whole)%nat /\
    exists a, In (n, a) (caps_of top) /\ lang a (seg whole b e).

(** [c'] has every group set that [c] has, and the groups of [G]. *)
Definition sets (c : regexp.captures) (G : list nat) (c' : regexp.captures)
  : Prop :=
  forall n, regexp.lookup_cap n c <> None \/ In n G ->
            regexp.lookup_cap n c' <> None.

Definition at_text (whole : list ascii) (pos : nat) (s : list ascii) : Prop :=
  skipn pos whole = s /\ (pos <= List.length whole)%nat.

(** What a continuation guarantees when the piece [r], entered at [pos]
    with the captures [c], has matched. *)
Definition kpost_lang (top : regexp.Regexp) (whole : list ascii)
  (r : regexp.Regexp) (P : regexp.captures -> Prop) (pos : nat)
  (c : regexp.captures) (k : regexp.cont) : Prop :=
  forall pos' s' c',
    (pos <= pos')%nat -> at_text whole pos' s' ->
    lang r (seg whole pos pos') -> caps_inv top whole c' ->
    sets c (always r) c' ->
    forall res, k pos' s' c' = Some res -> P res.

Definition step_lang (top : regexp.Regexp) (whole : list ascii)
  (r : regexp.Regexp)
  (step : nat -> list ascii -> regexp.captures -> regexp.cont
          -> option regexp.captures) : Prop :=
  forall P pos s c k res,
    at_text whole pos s -> caps_inv top whole c ->
    incl (caps_of r) (caps_of top) ->
    kpost_lang top whole r P pos c k ->
    step pos s c k = Some res -> P res.

(** The bodies of the groups numbered [g] in a pattern. *)
Definition bodies (top : regexp.Regexp) (g : nat) : list regexp.Regexp :=
  map snd (filter (fun p => Nat.eqb (fst p) g) (caps_of top)).

(** What a match [idx] of [r] in [x] tells about its groups: the groups of
    [always] are set, and the text of a set group is in the language of a
    body of that group. *)
Definition groups_sound (r : regexp.t) (x : string) (idx : list Z) : Prop :=
  (forall g, In g (always (regexp.expr r)) -> (g <= regexp.numCap r)%nat ->
             group x idx g <> None) /\
  (forall g t, (1 <= g)%nat -> group x idx g = Some t ->
               exists a, In a (bodies (regexp.expr r) g) /\
                         lang a (list_ascii_of_string t)).

(** All the bytes. *)
Definition all_ascii : list ascii := map ascii_of_nat (seq 0 256).

(** Whether every byte of every text of a pattern satisfies [p]. *)
Fixpoint chars_in (p : ascii -> bool) (r : regexp.Regexp) : bool :=
  match r with
  | regexp.Empty | regexp.Begin => true
  | regexp.Lit a => p a
  | regexp.Class ranges =>
      forallb (fun x => implb (regexp.in_class ranges x) (p x)) all_ascii
  | regexp.Cat a b | regexp.Alt a b => chars_in p a && chars_in p b
  | regexp.Quest a | regexp.Star a | regexp.Plus a | regexp.Repeat _ _ a
  | regexp.Capture _ _ a => chars_in p a
  end.

(** A lower and an upper bound of the length of the texts of a pattern. *)
Fixpoint min_len (r : regexp.Regexp) : nat :=
  match r with
  | regexp.Empty | regexp.Begin => 0
  | regexp.Lit _ | regexp.Class _ => 1
  | regexp.Cat a b => min_len a + min_len b
  | regexp.Alt a b => Nat.min (min_len a) (min_len b)
  | regexp.Quest _ | regexp.Star _ => 0
  | regexp.Plus a => min_len a
  | regexp.Repeat lo _ a => lo * min_len a
  | regexp.Capture _ _ a => min_len a
  end.

Fixpoint max_len (r : regexp.Regexp) : option nat :=
  match r with
  | regexp.Empty | regexp.Begin => Some 0%nat
  | regexp.Lit _ | regexp.Class _ => Some 1%nat
  | regexp.Cat a b =>
      match max_len a, max_len b with
      | Some x, Some y => Some (x + y)%nat
      | _, _ => None
      end
  | regexp.Alt a b =>
      match max_len a, max_len b with
      | Some x, Some y => Some (Nat.max x y)
      | _, _ => None
      end
  | regexp.Quest a | regexp.Capture _ _ a => max_len a
  | regexp.Star _ | regexp.Plus _ => None
  | regexp.Repeat lo hi a =>
      match max_len a with
      | Some x => Some ((lo + (hi - lo)) * x)%nat
      | None => None
      end
  end.

(** The texts of a pattern without repetition, listed. *)
Fixpoint words (r : regexp.Regexp) : option (list (list ascii)) :=
  match r with
  | regexp.Empty | regexp.Begin => Some [[]]
  | regexp.Lit a => Some [[a]]
  | regexp.Class ranges =>
      Some (map (fun x => [x]) (filter (regexp.in_class ranges) all_ascii))
  | regexp.Cat a b =>
      match words a, words b with
      | Some la, Some lb =>
          Some (flat_map (fun u => map (fun v => u ++ v) lb) la)
      | _, _ => None
      end
  | regexp.Alt a b =>
      match words a, words b with
      | Some la, Some lb => Some (la ++ lb)
      | _, _ => None
      end
  | regexp.Quest a =>
      match words a with Some la => Some ([] :: la) | None => None end
  | regexp.Capture _ _ a => words a
  | regexp.Star _ | regexp.Plus _ | regexp.Repeat _ _ _ => None
  end.

Definition is_upper (c : ascii) : bool :=
  ((65 <=? nat_of_ascii c) && (nat_of_ascii c <=? 90))%nat.

Definition is_upper_or_digit (c : ascii) : bool :=
  is_upper c || regexp.is_digit c.

(** The errors [Parse] can return. *)
Definition live_errors : list string :=
  [ "Error parsing station identifier";
    "Error parsing metar time";
    "Error parsing message time";
    "Error parsing metar wind";
    "Error converting wind direction in metar";
    "Error converting wind speed in metar";
    "Error converting gust speed in metar";
    "Error parsing metar visibility";
    "Error converting visibility value in metar";
    "Error parsing metar sky";
    "Error parsing metar temperature";
    "Error converting temperature value in metar";
    "Error converting dew point value in metar";
    "Error parsing metar pressure";
    "Error converting pressure value in metar";
    "Error interpreting metar pressure value" ].

(** A computation that returns no other error than those of [msgs], and a
    computation that does not panic. *)
Definition errors_in {A} (msgs : list string) (c : M A) : Prop :=
  forall m m' msg, c m = (m', Fail msg) -> In msg msgs.

Definition no_panic {A} (c : M A) : Prop :=
  forall m m', c m <> (m', Panic).

(** * Properties *)

(** ** The matcher keeps its offsets inside the text *)

Section ExecInvariant.

Import regexp.

Variable total : nat.

Lemma kpost_later P lo lo' k :
  (lo <= lo')%nat -> kpost total P lo k -> kpost total P lo' k.
Proof.
  intros Hle Hk pos s c Hpos. apply Hk. lia.
Qed.

Lemma orelse_Some a b res :
  orelse a b = Some res -> a = Some res \/ b tt = Some res.
Proof.
  destruct a; simpl; intros H; [left | right]; assumption.
Qed.

(** Uses a step lemma [L] on the run [H], leaving the continuation. *)
Ltac by_step L H :=
  eapply L; [ | | | exact H]; [eassumption | eassumption | ].

Ltac by_cont Hk H :=
  eapply Hk; [ | | | exact H];
  [ try lia | try eassumption; unfold at_pos in *; simpl in *; try lia
  | try eassumption ].

Lemma star_loop_ok step :
  step_ok total step ->
  forall fuel, step_ok total (fun pos s c k => star_loop step k fuel pos s c).
Proof.
  intros Hstep fuel. induction fuel as [|fuel IH];
    intros P pos s c k res Hpos Hc Hk H; simpl in H.
  - by_cont Hk H.
  - apply orelse_Some in H. destruct H as [H | H].
    + by_step Hstep H.
      intros pos' s' c' Hle Hpos' Hc' res' H'.
      destruct (pos <? pos')%nat; [|discriminate].
      by_step IH H'. eapply kpost_later; eauto.
    + by_cont Hk H.
Qed.

Lemma may_loop_ok step :
  step_ok total step ->
  forall m, step_ok total (fun pos s c k => may_loop step k m pos s c).
Proof.
  intros Hstep m. induction m as [|m IH];
    intros P pos s c k res Hpos Hc Hk H; simpl in H.
  - by_cont Hk H.
  - apply orelse_Some in H. destruct H as [H | H].
    + by_step Hstep H.
      intros pos' s' c' Hle Hpos' Hc' res' H'.
      by_step IH H'. eapply kpost_later; eauto.
    + by_cont Hk H.
Qed.

Lemma must_loop_ok step :
  step_ok total step ->
  forall n, step_ok total (fun pos s c k => must_loop step k n pos s c).
Proof.
  intros Hstep n. induction n as [|n IH];
    intros P pos s c k res Hpos Hc Hk H; simpl in H.
  - by_cont Hk H.
  - by_step Hstep H.
    intros pos' s' c' Hle Hpos' Hc' res' H'.
    by_step IH H'. eapply kpost_later; eauto.
Qed.

Lemma exec_ok r : step_ok total (exec r).
Proof.
  induction r as [ | a | ranges | | a IHa b IHb | a IHa b IHb | a IHa
                 | a IHa | a IHa | lo hi a IHa | n name a IHa ];
    intros P pos s c k res Hpos Hc Hk H; simpl in H.
  - by_cont Hk H.
  - destruct s as [|x s']; [discriminate|].
    destruct (Ascii.eqb x a); [|discriminate].
    by_cont Hk H.
  - destruct s as [|x s']; [discriminate|].
    destruct (in_class ranges x); [|discriminate].
    by_cont Hk H.
  - destruct (Nat.eqb pos 0); [|discriminate]. by_cont Hk H.
  - by_step IHa H.
    intros pos' s' c' Hle Hpos' Hc' res' H'.
    by_step IHb H'. eapply kpost_later; eauto.
  - apply orelse_Some in H. destruct H as [H | H].
    + by_step IHa H. assumption.
    + by_step IHb H. assumption.
  - apply orelse_Some in H. destruct H as [H | H].
    + by_step IHa H. assumption.
    + by_cont Hk H.
  - by_step (star_loop_ok (exec a) IHa (List.length s)) H. assumption.
  - by_step IHa H.
    intros pos' s' c' Hle Hpos' Hc' res' H'.
    by_step (star_loop_ok (exec a) IHa (List.length s')) H'.
    eapply kpost_later; eauto.
  - by_step (must_loop_ok (exec a) IHa lo) H.
    intros pos' s' c' Hle Hpos' Hc' res' H'.
    by_step (may_loop_ok (exec a) IHa (hi - lo)%nat) H'.
    eapply kpost_later; eauto.
  - by_step IHa H.
    intros pos' s' c' Hle Hpos' Hc' res' H'.
    eapply Hk; [ | | | exact H']; [assumption | assumption | ].
    constructor; [|assumption]. simpl.
    unfold at_pos in Hpos'. lia.
Qed.

(** A match attempt at [pos] reports a whole match that starts at [pos]. *)
Lemma match_at_ok re pos s c :
  at_pos total pos s -> match_at re pos s = Some c ->
  wf_caps total c /\ exists e, lookup_cap 0 c = Some (pos, e).
Proof.
  intros Hpos H. unfold match_at in H.
  eapply (exec_ok (expr re)
            (fun c => wf_caps total c /\ exists e, lookup_cap 0 c = Some (pos, e)));
    [exact Hpos | constructor | | exact H].
  intros pos' s' c' Hle Hpos' Hc' res' H'. inversion H'; subst. split.
    + constructor; [|assumption]. simpl. unfold at_pos in Hpos'. lia.
    + exists pos'. reflexivity.
Qed.

Lemma search_ok re : forall s pos c,
  at_pos total pos s -> search re pos s = Some c ->
  wf_caps total c /\ exists b e, lookup_cap 0 c = Some (b, e) /\ (pos <= b)%nat.
Proof.
  induction s as [|x s IH]; intros pos c Hpos H; simpl in H.
  - destruct (match_at re pos []) eqn:E; [|discriminate].
    inversion H; subst. apply match_at_ok in E; [|assumption].
    destruct E as [Hc [e He]]. split; [assumption|]. exists pos, e. auto.
  - destruct (match_at re pos (x :: s)) eqn:E.
    + inversion H; subst. apply match_at_ok in E; [|assumption].
      destruct E as [Hc [e He]]. split; [assumption|]. exists pos, e. auto.
    + apply IH in H.
      * destruct H as [Hc [b [e [He Hle]]]]. split; [assumption|].
        exists b, e. split; [assumption | lia].
      * unfold at_pos in *. simpl in Hpos. lia.
Qed.

Lemma wf_caps_lookup c g b e :
  wf_caps total c -> lookup_cap g c = Some (b, e) -> (b <= e <= total)%nat.
Proof.
  induction 1 as [|[k [b' e']] c' Hx Hc IH]; simpl; [discriminate|].
  destruct (Nat.eqb k g).
  - intros H. inversion H; subst. exact Hx.
  - exact IH.
Qed.

End ExecInvariant.

(** ** Index vectors *)

Lemma length_list_ascii_of_string s :
  List.length (list_ascii_of_string s) = String.length s.
Proof.
  induction s as [|c s IH]; simpl; [reflexivity | now rewrite IH].
Qed.

Lemma nth_error_seq_lt : forall n a g,
  nth_error (seq a n) g = if (g <? n)%nat then Some (a + g)%nat else None.
Proof.
  induction n as [|n IH]; intros a g; simpl.
  - destruct g; reflexivity.
  - destruct g as [|g]; simpl.
    + f_equal. lia.
    + rewrite IH. change (S g <? S n)%nat with (g <? n)%nat.
      destruct (g <? n)%nat; [f_equal; lia | reflexivity].
Qed.

Lemma flat_pairs_nth (f h : nat -> Z) : forall l g,
  nth_error (flat_map (fun x => [f x; h x]) l) (2 * g)
    = option_map f (nth_error l g) /\
  nth_error (flat_map (fun x => [f x; h x]) l) (2 * g + 1)
    = option_map h (nth_error l g).
Proof.
  induction l as [|x l IH]; intros g.
  - simpl. destruct g; simpl; split; try reflexivity;
      destruct (g + (S (g + 0)))%nat; try reflexivity;
      destruct (g + S (g + 0) + 1)%nat; reflexivity.
  - destruct g as [|g].
    + simpl. split; reflexivity.
    + replace (2 * S g)%nat with (S (S (2 * g))) by lia.
      replace (S (S (2 * g)) + 1)%nat with (S (S (2 * g + 1))) by lia.
      simpl flat_map. simpl app. simpl nth_error. apply IH.
Qed.

Lemma indices_nth n c g :
  nth_error (regexp.indices n c) (2 * g)
    = (if (g <=? n)%nat then Some (fst (regexp.span c g)) else None) /\
  nth_error (regexp.indices n c) (2 * g + 1)
    = (if (g <=? n)%nat then Some (snd (regexp.span c g)) else None).
Proof.
  unfold regexp.indices.
  destruct (flat_pairs_nth (fun g => fst (regexp.span c g))
              (fun g => snd (regexp.span c g)) (seq 0 (S n)) g) as [H1 H2].
  rewrite H1, H2, nth_error_seq_lt.
  change (g <? S n)%nat with (g <=? n)%nat.
  destruct (g <=? n)%nat; simpl; auto.
Qed.

Lemma indices_valid total n c :
  wf_caps total c -> valid_idx (Z.of_nat total) (regexp.indices n c).
Proof.
  intros Hc g a b Ha Hb.
  destruct (indices_nth n c g) as [H1 H2]. rewrite H1 in Ha. rewrite H2 in Hb.
  destruct (g <=? n)%nat; [|discriminate].
  inversion Ha; inversion Hb; subst. unfold regexp.span.
  destruct (regexp.lookup_cap g c) as [[b e]|] eqn:E; simpl.
  - right. apply (wf_caps_lookup total) in E; [lia | assumption].
  - left. split; reflexivity.
Qed.

Lemma indices_group0 n c b e :
  regexp.lookup_cap 0 c = Some (b, e) ->
  nth_error (regexp.indices n c) 0 = Some (Z.of_nat b) /\
  nth_error (regexp.indices n c) 1 = Some (Z.of_nat e).
Proof.
  intros H. unfold regexp.indices. simpl. unfold regexp.span.
  rewrite H. split; reflexivity.
Qed.

Lemma len_list s : Z.of_nat (List.length (list_ascii_of_string s)) = len s.
Proof. unfold len. now rewrite length_list_ascii_of_string. Qed.

(** A match of [FindStringSubmatchIndex] lies inside the text: the whole
    match is set, every group is unset or inside. *)
Lemma Find_valid re s idx :
  regexp.FindStringSubmatchIndex re s = Some idx ->
  valid_idx (len s) idx /\
  exists b e, nth_error idx 0 = Some b /\ nth_error idx 1 = Some e /\
              0 <= b <= e /\ e <= len s.
Proof.
  unfold regexp.FindStringSubmatchIndex. intros H.
  destruct (regexp.search re 0 (list_ascii_of_string s)) as [c|] eqn:E;
    [|discriminate].
  inversion H; subst; clear H.
  apply (search_ok (List.length (list_ascii_of_string s))) in E;
    [|reflexivity].
  destruct E as [Hc [b [e [H0 _]]]].
  rewrite <- len_list. split.
  - apply indices_valid. assumption.
  - exists (Z.of_nat b), (Z.of_nat e).
    destruct (indices_group0 (regexp.numCap re) c b e H0) as [H1 H2].
    apply (wf_caps_lookup _ _ _ _ _ Hc) in H0. repeat split; auto; lia.
Qed.

Lemma ordered_from_earlier ms : forall lo lo',
  lo' <= lo -> ordered_from lo ms -> ordered_from lo' ms.
Proof.
  destruct ms as [|idx ms]; simpl; intros lo lo' Hle H; [exact I|].
  destruct H as [b [e [H0 [H1 [Hb Hr]]]]].
  exists b, e. repeat split; auto; lia.
Qed.

Lemma allMatches_ok re whole : forall fuel pos prev,
  Forall (valid_idx (Z.of_nat (List.length whole)))
    (regexp.allMatches fuel re whole pos prev) /\
  ordered_from (Z.of_nat pos) (regexp.allMatches fuel re whole pos prev).
Proof.
  induction fuel as [|fuel IH]; intros pos prev; simpl.
  - split; [constructor | exact I].
  - destruct (List.length whole <? pos)%nat eqn:Hlt;
      [split; [constructor | exact I]|].
    apply Nat.ltb_ge in Hlt.
    destruct (regexp.search re pos (skipn pos whole)) as [c|] eqn:E;
      [|split; [constructor | exact I]].
    apply (search_ok (List.length whole)) in E;
      [|unfold at_pos; rewrite length_skipn; lia].
    destruct E as [Hc [b [e [H0 Hle]]]]. rewrite H0.
    pose proof (wf_caps_lookup _ _ _ _ _ Hc H0) as Hbe.
    destruct (indices_group0 (regexp.numCap re) c b e H0) as [H1 H2].
    pose proof (indices_valid _ (regexp.numCap re) c Hc) as Hv.
    destruct (Nat.eqb e pos) eqn:Heq.
    + apply Nat.eqb_eq in Heq. subst e.
      destruct (IH (S pos) (Some pos)) as [IHv IHo].
      assert (Ho : ordered_from (Z.of_nat pos)
                     (regexp.allMatches fuel re whole (S pos) (Some pos))).
      { eapply ordered_from_earlier; [|exact IHo]. lia. }
      destruct (match prev with
                | Some p => negb (Nat.eqb b p)
                | None => true
                end); simpl.
      * split; [constructor; assumption|].
        exists (Z.of_nat b), (Z.of_nat pos). repeat split; auto; lia.
      * split; assumption.
    + destruct (IH e (Some e)) as [IHv IHo]. split; [constructor; assumption|].
      simpl. exists (Z.of_nat b), (Z.of_nat e). repeat split; auto; lia.
Qed.

(** The matches of [FindAllStringSubmatchIndex]: at least one, each inside
    the text, in the order of the text and without overlap. *)
Lemma FindAll_ok re s ms :
  regexp.FindAllStringSubmatchIndex re s = Some ms ->
  ms <> [] /\ Forall (valid_idx (len s)) ms /\ ordered_from 0 ms.
Proof.
  unfold regexp.FindAllStringSubmatchIndex. intros H.
  destruct (allMatches_ok re (list_ascii_of_string s)
              (S (S (List.length (list_ascii_of_string s)))) 0%nat None)
    as [Hv Ho].
  rewrite len_list in Hv.
  destruct (regexp.allMatches _ re (list_ascii_of_string s) 0 None)
    as [|m ms'] eqn:E; [discriminate|].
  inversion H; subst. split; [discriminate|]. split; assumption.
Qed.

(** ** The compiled table *)

Lemma compileAll_parserStrings : compileAll parserStrings = Some parsers0.
Proof. vm_compute. reflexivity. Qed.

(** No pattern of the table repeats a piece that can match the empty text,
    and the two patterns matched repeatedly cannot match it themselves. *)
Lemma table_loops_consume :
  forallb (fun p => regexp.loops_consume (regexp.expr (snd p))) parsers0 = true /\
  regexp.nullable (regexp.expr (re "weather")) = false /\
  regexp.nullable (regexp.expr (re "sky")) = false.
Proof. repeat split; reflexivity. Qed.

Lemma Parse_steps rawMetar rawDate :
  Parse rawMetar rawDate
  = (rawMetar <- parseHead parsers0 rawMetar rawDate ;;
     rawMetar <- parseBody parsers0 rawMetar ;;
     parseTail parsers0 rawMetar)%M.
Proof. unfold Parse. rewrite compileAll_parserStrings. reflexivity. Qed.

Lemma Find_re key s :
  lookup parsers0 key <> None ->
  FindStringSubmatchIndex parsers0 key s
  = Val (regexp.FindStringSubmatchIndex (re key) s).
Proof.
  unfold FindStringSubmatchIndex, re. destruct (lookup parsers0 key);
    [reflexivity | intros H; contradiction H; reflexivity].
Qed.

Lemma FindAll_re key s :
  lookup parsers0 key <> None ->
  FindAllStringSubmatchIndex parsers0 key s
  = Val (regexp.FindAllStringSubmatchIndex (re key) s).
Proof.
  unfold FindAllStringSubmatchIndex, re. destruct (lookup parsers0 key);
    [reflexivity | intros H; contradiction H; reflexivity].
Qed.

Lemma keys_compiled :
  Forall (fun key => lookup parsers0 key <> None)
    ["type"; "station"; "time"; "modifier"; "wind"; "visibility"; "weather";
     "sky"; "temp"; "press"].
Proof. repeat constructor; discriminate. Qed.

(** The numbers of capturing groups of the patterns. *)
Lemma numCaps :
  map (fun key => regexp.numCap (re key))
    ["type"; "station"; "time"; "modifier"; "wind"; "visibility"; "weather";
     "sky"; "temp"; "press"]
  = [1; 1; 3; 1; 8; 8; 12; 4; 4; 3]%nat.
Proof. reflexivity. Qed.

(** ** Matches and their groups *)

Lemma indices_defined n c i :
  (i < 2 * S n)%nat -> nth_error (regexp.indices n c) i <> None.
Proof.
  intros Hi. destruct (indices_nth n c (i / 2)) as [H1 H2].
  assert (Hg : (i / 2 <=? n)%nat = true).
  { apply Nat.leb_le. pose proof (Nat.div_mod_eq i 2) as Hdm'.
    pose proof (Nat.mod_upper_bound i 2). lia. }
  rewrite Hg in H1, H2.
  pose proof (Nat.div_mod_eq i 2) as Hdm.
  assert (Hm : (i mod 2 < 2)%nat) by (apply Nat.mod_upper_bound; lia).
  destruct (i mod 2)%nat as [|[|k]] eqn:E; [| |lia].
  - replace i with (2 * (i / 2))%nat at 1 by lia. rewrite H1. discriminate.
  - replace i with (2 * (i / 2) + 1)%nat at 1 by lia. rewrite H2. discriminate.
Qed.

Lemma Find_match_of r s idx :
  regexp.FindStringSubmatchIndex r s = Some idx ->
  match_of (regexp.numCap r) s idx.
Proof.
  intros H. destruct (Find_valid r s idx H) as [Hv H0].
  split; [assumption|]. split; [|assumption].
  unfold regexp.FindStringSubmatchIndex in H.
  destruct (regexp.search r 0 (list_ascii_of_string s)); [|discriminate].
  inversion H; subst. intros i. apply indices_defined.
Qed.

Lemma indices_match_of total s r c b e :
  Z.of_nat total = len s -> wf_caps total c ->
  regexp.lookup_cap 0 c = Some (b, e) ->
  match_of (regexp.numCap r) s (regexp.indices (regexp.numCap r) c).
Proof.
  intros Hlen Hc H0. split; [|split].
  - rewrite <- Hlen. apply indices_valid. assumption.
  - intros i. apply indices_defined.
  - destruct (indices_group0 (regexp.numCap r) c b e H0) as [H1 H2].
    apply (wf_caps_lookup _ _ _ _ _ Hc) in H0.
    exists (Z.of_nat b), (Z.of_nat e). repeat split; auto; lia.
Qed.

Lemma allMatches_match_of r s : forall fuel pos prev,
  Forall (match_of (regexp.numCap r) s)
    (regexp.allMatches fuel r (list_ascii_of_string s) pos prev).
Proof.
  induction fuel as [|fuel IH]; intros pos prev; simpl; [constructor|].
  destruct (_ <? pos)%nat eqn:Hlt; [constructor|].
  apply Nat.ltb_ge in Hlt.
  destruct (regexp.search r pos _) as [c|] eqn:E; [|constructor].
  apply (search_ok (List.length (list_ascii_of_string s))) in E;
    [|unfold at_pos; rewrite length_skipn; lia].
  destruct E as [Hc [b [e [H0 Hle]]]]. rewrite H0.
  pose proof (indices_match_of _ s r c b e (len_list s) Hc H0) as Hm.
  destruct (Nat.eqb e pos).
  - destruct (match prev with Some p => negb (Nat.eqb b p) | None => true end);
      simpl; [constructor; [assumption|]|]; apply IH.
  - constructor; [assumption | apply IH].
Qed.

Lemma FindAll_match_of r s ms :
  regexp.FindAllStringSubmatchIndex r s = Some ms ->
  ms <> [] /\ Forall (match_of (regexp.numCap r) s) ms /\ ordered_from 0 ms.
Proof.
  intros H. destruct (FindAll_ok r s ms H) as [Hne [_ Ho]].
  split; [assumption|]. split; [|assumption].
  unfold regexp.FindAllStringSubmatchIndex in H.
  pose proof (allMatches_match_of r s
                (S (S (List.length (list_ascii_of_string s)))) 0%nat None)
    as Hm.
  destruct (regexp.allMatches _ r _ 0 None); [discriminate|].
  inversion H; subst. exact Hm.
Qed.

Lemma matches_match_of r s :
  Forall (match_of (regexp.numCap r) s) (matches r s) /\
  ordered_from 0 (matches r s).
Proof.
  unfold matches.
  destruct (regexp.FindAllStringSubmatchIndex r s) as [ms|] eqn:E.
  - apply FindAll_match_of in E. tauto.
  - split; [constructor | exact I].
Qed.

(** The two entries of a group of a match. *)
Lemma match_of_group n s idx g :
  match_of n s idx -> (g <= n)%nat ->
  exists a b, nth_error idx (2 * g) = Some a /\
              nth_error idx (2 * g + 1) = Some b /\
              ((a = -1 /\ b = -1 /\ group s idx g = None) \/
               (0 <= a <= b /\ b <= len s /\
                group s idx g
                = Some (substring (Z.to_nat a) (Z.to_nat (b - a)) s))).
Proof.
  intros [Hv [Hd _]] Hg.
  destruct (nth_error idx (2 * g)) as [a|] eqn:Ea;
    [|exfalso; apply (Hd (2 * g)%nat); [lia | assumption]].
  destruct (nth_error idx (2 * g + 1)) as [b|] eqn:Eb;
    [|exfalso; apply (Hd (2 * g + 1)%nat); [lia | assumption]].
  exists a, b. split; [reflexivity|]. split; [reflexivity|].
  unfold group. rewrite Ea, Eb.
  destruct (Hv g a b Ea Eb) as [[-> ->] | [Hab Hb]].
  - left. auto.
  - right. repeat split; try lia.
    destruct (a =? -1) eqn:E1; [apply Z.eqb_eq in E1; lia|].
    destruct (b =? -1) eqn:E2; [apply Z.eqb_eq in E2; lia|]. reflexivity.
Qed.

(** On a match, [idx[2g] != -1 && idx[2g+1] != -1] tells whether group [g]
    took part, and the slice between the two is the text of the group; the
    slice of an unset group panics. *)
Lemma isset_group n s idx g i j :
  match_of n s idx -> (g <= n)%nat -> i = (2 * g)%nat -> j = (2 * g + 1)%nat ->
  isset idx i j
  = Val (match group s idx g with Some _ => true | None => false end).
Proof.
  intros Hm Hg -> ->.
  destruct (match_of_group n s idx g Hm Hg) as [a [b [Ea [Eb H]]]].
  unfold isset, at_, bindR. rewrite Ea.
  destruct H as [[-> [-> Hgr]] | [Hab [Hb Hgr]]]; rewrite Hgr.
  - reflexivity.
  - destruct (a =? -1) eqn:E1; [apply Z.eqb_eq in E1; lia|].
    rewrite Eb.
    destruct (b =? -1) eqn:E2; [apply Z.eqb_eq in E2; lia|]. reflexivity.
Qed.

Lemma sub_group n s idx g i j :
  match_of n s idx -> (g <= n)%nat -> i = (2 * g)%nat -> j = (2 * g + 1)%nat ->
  sub s idx i j = match group s idx g with Some t => Val t | None => Panic end.
Proof.
  intros Hm Hg -> ->.
  destruct (match_of_group n s idx g Hm Hg) as [a [b [Ea [Eb H]]]].
  unfold sub, at_, bindR. rewrite Ea, Eb. unfold slice.
  destruct H as [[-> [-> Hgr]] | [Hab [Hb Hgr]]]; rewrite Hgr.
  - reflexivity.
  - replace ((0 <=? a) && (a <=? b) && (b <=? len s)) with true; [reflexivity|].
    symmetry. rewrite !andb_true_iff. repeat split; apply Z.leb_le; lia.
Qed.

(** The text left after a match never panics. *)
Lemma from_match n s idx :
  match_of n s idx -> exists rest, from s idx 1 = Val rest.
Proof.
  intros [_ [_ [b [e [H0 [H1 [Hb He]]]]]]].
  unfold from, at_, bindR. rewrite H1. unfold slice.
  replace ((0 <=? e) && (e <=? len s) && (len s <=? len s)) with true;
    [eauto|].
  symmetry. rewrite !andb_true_iff. repeat split; apply Z.leb_le; lia.
Qed.

(** ** The steps, read off their definitions *)

Lemma bind_lift {A B} (r : result A) (f : A -> M B) m :
  bind (lift r) f m
  = match r with
    | Val a => f a m
    | Fail msg => (m, Fail msg)
    | Panic => (m, Panic)
    end.
Proof. unfold bind, lift. destruct r; reflexivity. Qed.

Lemma bind_Val {A B} (c : M A) (f : A -> M B) m m' b :
  bind c f m = (m', Val b) ->
  exists a m1, c m = (m1, Val a) /\ f a m1 = (m', Val b).
Proof.
  unfold bind. destruct (c m) as [m1 [a | msg |]]; intros H;
    [eauto | discriminate | discriminate].
Qed.

Lemma bind_Fail {A B} (c : M A) (f : A -> M B) m m' msg :
  bind c f m = (m', Fail msg) ->
  c m = (m', Fail msg) \/
  exists a m1, c m = (m1, Val a) /\ f a m1 = (m', Fail msg).
Proof.
  unfold bind. destruct (c m) as [m1 [a | msg1 |]]; intros H;
    [right; eauto | left; inversion H; reflexivity | discriminate].
Qed.

Ltac key_ok := vm_compute; discriminate.

Lemma parseType_eq x m :
  parseType parsers0 x m
  = match regexp.FindStringSubmatchIndex (re "type") x with
    | Some idx => (m, from x idx 1)
    | None => (m, Val x)
    end.
Proof.
  unfold parseType. rewrite bind_lift. rewrite Find_re by key_ok.
  destruct (regexp.FindStringSubmatchIndex (re "type") x); reflexivity.
Qed.

Lemma parseStation_eq x m :
  parseStation parsers0 x m
  = match regexp.FindStringSubmatchIndex (re "station") x with
    | None => (m, Fail "Error parsing station identifier")
    | Some idx =>
        match sub x idx 2 3 with
        | Val station => (with_Station station m, from x idx 1)
        | Fail msg => (m, Fail msg)
        | Panic => (m, Panic)
        end
    end.
Proof.
  unfold parseStation. rewrite bind_lift. rewrite Find_re by key_ok.
  destruct (regexp.FindStringSubmatchIndex (re "station") x); [|reflexivity].
  rewrite bind_lift. destruct (sub x l 2 3); reflexivity.
Qed.

Lemma parseTime_eq d x m :
  parseTime parsers0 d x m
  = match regexp.FindStringSubmatchIndex (re "time") x with
    | None => (m, Fail "Error parsing metar time")
    | Some idx =>
        match timeOf d x idx with
        | Val t => (with_Time t m, from x idx 1)
        | Fail msg => (m, Fail msg)
        | Panic => (m, Panic)
        end
    end.
Proof.
  unfold parseTime. rewrite bind_lift. rewrite Find_re by key_ok.
  destruct (regexp.FindStringSubmatchIndex (re "time") x); [|reflexivity].
  rewrite bind_lift. destruct (timeOf d x l); reflexivity.
Qed.

Lemma parseModifier_eq x m :
  parseModifier parsers0 x m
  = match regexp.FindStringSubmatchIndex (re "modifier") x with
    | None => (m, Val x)
    | Some idx =>
        match sub x idx 2 3 with
        | Val mod_ => (with_Mod mod_ m, from x idx 1)
        | Fail msg => (m, Fail msg)
        | Panic => (m, Panic)
        end
    end.
Proof.
  unfold parseModifier. rewrite bind_lift. rewrite Find_re by key_ok.
  destruct (regexp.FindStringSubmatchIndex (re "modifier") x); [|reflexivity].
  rewrite bind_lift. destruct (sub x l 2 3); reflexivity.
Qed.

Lemma parseWind_eq x m :
  parseWind parsers0 x m
  = match regexp.FindStringSubmatchIndex (re "wind") x with
    | None => (m, Fail "Error parsing metar wind")
    | Some idx =>
        match windOf x idx with
        | Val wind => (with_Wind wind m, from x idx 1)
        | Fail msg => (m, Fail msg)
        | Panic => (m, Panic)
        end
    end.
Proof.
  unfold parseWind. rewrite bind_lift. rewrite Find_re by key_ok.
  destruct (regexp.FindStringSubmatchIndex (re "wind") x); [|reflexivity].
  rewrite bind_lift. destruct (windOf x l); reflexivity.
Qed.

Lemma parseVisibility_eq x m :
  parseVisibility parsers0 x m
  = match regexp.FindStringSubmatchIndex (re "visibility") x with
    | None => (m, Fail "Error parsing metar visibility")
    | Some idx =>
        match visibilityOf x idx with
        | Val vis =>
            (with_Visibility vis m, bindR (from x idx 1) (fun r => Val (idx, r)))
        | Fail msg => (m, Fail msg)
        | Panic => (m, Panic)
        end
    end.
Proof.
  unfold parseVisibility. rewrite bind_lift. rewrite Find_re by key_ok.
  destruct (regexp.FindStringSubmatchIndex (re "visibility") x); [|reflexivity].
  rewrite bind_lift. destruct (visibilityOf x l); try reflexivity.
  unfold bind, set_Visibility, modify, lift, ret.
  destruct (from x l 1); reflexivity.
Qed.

Lemma parseTemp_eq x m :
  parseTemp parsers0 x m
  = match regexp.FindStringSubmatchIndex (re "temp") x with
    | None => (m, Fail "Error parsing metar temperature")
    | Some idx =>
        match signedOf x idx 2 4 "Error converting temperature value in metar" with
        | Val temp =>
            match signedOf x idx 6 8 "Error converting dew point value in metar" with
            | Val dewPt => (with_DewPt dewPt (with_Temp temp m), from x idx 1)
            | Fail msg => (with_Temp temp m, Fail msg)
            | Panic => (with_Temp temp m, Panic)
            end
        | Fail msg => (m, Fail msg)
        | Panic => (m, Panic)
        end
    end.
Proof.
  unfold parseTemp. rewrite bind_lift. rewrite Find_re by key_ok.
  destruct (regexp.FindStringSubmatchIndex (re "temp") x); [|reflexivity].
  rewrite bind_lift. destruct (signedOf x l 2 4 _); reflexivity.
Qed.

Lemma parsePress_eq x m :
  parsePress parsers0 x m
  = match regexp.FindStringSubmatchIndex (re "press") x with
    | None => (m, Fail "Error parsing metar pressure")
    | Some idx =>
        match pressureOf x idx with
        | Val value => (with_Pressure value m, Val tt)
        | Fail msg => (m, Fail msg)
        | Panic => (m, Panic)
        end
    end.
Proof.
  unfold parsePress. rewrite bind_lift. rewrite Find_re by key_ok.
  destruct (regexp.FindStringSubmatchIndex (re "press") x); [|reflexivity].
  rewrite bind_lift. destruct (pressureOf x l); reflexivity.
Qed.

(** The loops: the entries appended are those of the matches, in order, up
    to the first match whose entry cannot be built. *)
Lemma with_Weather_nil m : with_Weather (Metar_Weather m ++ []) m = m.
Proof. destruct m. unfold with_Weather. simpl. now rewrite app_nil_r. Qed.

Lemma with_Sky_nil m : with_Sky (Metar_Sky m ++ []) m = m.
Proof. destruct m. unfold with_Sky. simpl. now rewrite app_nil_r. Qed.

Lemma last_cons {A} (a : A) l d : last (a :: l) d = last l a.
Proof.
  revert a d. induction l as [|b l IH]; intros a d; [reflexivity|].
  change (last (a :: b :: l) d) with (last (b :: l) d).
  rewrite (IH b d), (IH b a). reflexivity.
Qed.

Lemma rangeWeather_eq x : forall idxs idx m,
  exists ws res,
    rangeWeather x idxs idx m = (with_Weather (Metar_Weather m ++ ws) m, res) /\
    (List.length ws <= List.length idxs)%nat /\
    Forall2 (fun i w => weatherOf x i = Val w) (firstn (List.length ws) idxs) ws /\
    match res with
    | Val idx' => List.length ws = List.length idxs /\ idx' = last idxs idx
    | Fail msg => exists i, In i idxs /\ weatherOf x i = Fail msg
    | Panic => exists i, In i idxs /\ weatherOf x i = Panic
    end.
Proof.
  induction idxs as [|i idxs IH]; intros idx m.
  - exists [], (Val idx). rewrite with_Weather_nil. simpl.
    repeat split; [lia | constructor].
  - simpl rangeWeather. rewrite bind_lift.
    destruct (weatherOf x i) as [w | msg |] eqn:Ew.
    + unfold bind at 1. unfold append_Weather, modify.
      destruct (IH i (with_Weather (Metar_Weather m ++ [w]) m))
        as [ws [res [Heq [Hlen [Hall Hres]]]]].
      exists (w :: ws), res. rewrite Heq. simpl. rewrite <- app_assoc. simpl.
      split; [reflexivity|]. split; [lia|]. split; [constructor; assumption|].
      destruct res as [idx' | msg |].
      * destruct Hres as [Hl ->]. split; [lia|]. symmetry. apply last_cons.
      * destruct Hres as [j [Hj Hf]]. eauto.
      * destruct Hres as [j [Hj Hf]]. eauto.
    + exists [], (Fail msg). rewrite with_Weather_nil. simpl.
      repeat split; [lia | constructor | eauto].
    + exists [], Panic. rewrite with_Weather_nil. simpl.
      repeat split; [lia | constructor | eauto].
Qed.

Lemma rangeSky_eq x : forall idxs idx m,
  exists ss res,
    rangeSky x idxs idx m = (with_Sky (Metar_Sky m ++ ss) m, res) /\
    (List.length ss <= List.length idxs)%nat /\
    Forall2 (fun i sky => skyOf x i = Val sky) (firstn (List.length ss) idxs) ss /\
    match res with
    | Val idx' => List.length ss = List.length idxs /\ idx' = last idxs idx
    | Fail msg => exists i, In i idxs /\ skyOf x i = Fail msg
    | Panic => exists i, In i idxs /\ skyOf x i = Panic
    end.
Proof.
  induction idxs as [|i idxs IH]; intros idx m.
  - exists [], (Val idx). rewrite with_Sky_nil. simpl.
    repeat split; [lia | constructor].
  - simpl rangeSky. rewrite bind_lift.
    destruct (skyOf x i) as [w | msg |] eqn:Ew.
    + unfold bind at 1. unfold append_Sky, modify.
      destruct (IH i (with_Sky (Metar_Sky m ++ [w]) m))
        as [ws [res [Heq [Hlen [Hall Hres]]]]].
      exists (w :: ws), res. rewrite Heq. simpl. rewrite <- app_assoc. simpl.
      split; [reflexivity|]. split; [lia|]. split; [constructor; assumption|].
      destruct res as [idx' | msg |].
      * destruct Hres as [Hl ->]. split; [lia|]. symmetry. apply last_cons.
      * destruct Hres as [j [Hj Hf]]. eauto.
      * destruct Hres as [j [Hj Hf]]. eauto.
    + exists [], (Fail msg). rewrite with_Sky_nil. simpl.
      repeat split; [lia | constructor | eauto].
    + exists [], Panic. rewrite with_Sky_nil. simpl.
      repeat split; [lia | constructor | eauto].
Qed.

(** ** The errors of the computations on local variables *)

Lemma fails_Val {A} msgs (a : A) : fails_in msgs (Val a).
Proof. intros msg H. discriminate. Qed.

Lemma fails_Panic {A} msgs : fails_in msgs (@Panic A).
Proof. intros msg H. discriminate. Qed.

Lemma fails_Fail {A} msgs msg : In msg msgs -> fails_in msgs (@Fail A msg).
Proof. intros Hin msg' H. inversion H; subst. assumption. Qed.

Lemma fails_bindR {A B} msgs (r : result A) (f : A -> result B) :
  fails_in msgs r -> (forall a, fails_in msgs (f a)) -> fails_in msgs (bindR r f).
Proof.
  intros Hr Hf msg H. destruct r as [a | msg' |]; simpl in H.
  - eapply Hf; eauto.
  - inversion H; subst. apply Hr. reflexivity.
  - discriminate.
Qed.

Lemma fails_at msgs idx i : fails_in msgs (at_ idx i).
Proof. unfold at_. destruct (nth_error idx i); [apply fails_Val | apply fails_Panic]. Qed.

Lemma fails_slice msgs s lo hi : fails_in msgs (slice s lo hi).
Proof. unfold slice. destruct (_ && _); [apply fails_Val | apply fails_Panic]. Qed.

Lemma fails_sub msgs s idx i j : fails_in msgs (sub s idx i j).
Proof.
  unfold sub. apply fails_bindR; [apply fails_at | intros lo].
  apply fails_bindR; [apply fails_at | intros hi]. apply fails_slice.
Qed.

Lemma fails_from msgs s idx i : fails_in msgs (from s idx i).
Proof.
  unfold from. apply fails_bindR; [apply fails_at | intros lo]. apply fails_slice.
Qed.

Lemma fails_isset msgs idx i j : fails_in msgs (isset idx i j).
Proof.
  unfold isset. apply fails_bindR; [apply fails_at | intros a].
  destruct (a =? -1); [apply fails_Val|].
  apply fails_bindR; [apply fails_at | intros b]. apply fails_Val.
Qed.

Lemma fails_Atoi msgs s msg : In msg msgs -> fails_in msgs (Atoi s msg).
Proof.
  intros Hin. unfold Atoi. destruct (strconv.Atoi s);
    [apply fails_Val | apply fails_Fail; assumption].
Qed.

(** Goes through a computation, one operation at a time. *)
Ltac fails :=
  repeat first
    [ apply fails_Val | apply fails_Panic
    | apply fails_sub | apply fails_from | apply fails_isset
    | apply fails_at | apply fails_slice
    | apply fails_Atoi; simpl; tauto
    | apply fails_Fail; simpl; tauto
    | apply fails_bindR; [|intros ?]
    | match goal with
      | |- fails_in _ (if ?b then _ else _) => destruct b
      | |- fails_in _ (match ?o with Some _ => _ | None => _ end) => destruct o
      end ].

Lemma timeOf_fails d x idx :
  fails_in [ "Error parsing message time"; "Error converting day in metar";
             "Error converting hour in metar";
             "Error converting minute in metar" ] (timeOf d x idx).
Proof. unfold timeOf. fails. Qed.

Lemma windOf_fails x idx :
  fails_in [ "Error converting wind direction in metar";
             "Error converting wind speed in metar";
             "Error converting gust speed in metar";
             "Error converting variable from wind direction in metar";
             "Error converting variable to wind direction in metar" ]
    (windOf x idx).
Proof. unfold windOf. fails. Qed.

Lemma visibilityOf_fails x idx :
  fails_in [ "Error parsing metar visibility";
             "Error converting visibility value in metar" ] (visibilityOf x idx).
Proof. unfold visibilityOf. fails. Qed.

Lemma weatherOf_fails x idx : fails_in [] (weatherOf x idx).
Proof. unfold weatherOf. fails. Qed.

Lemma skyOf_fails x idx :
  fails_in ["Error converting cloud height value in metar"] (skyOf x idx).
Proof. unfold skyOf. fails. Qed.

Lemma signedOf_fails x idx v sg msg : fails_in [msg] (signedOf x idx v sg msg).
Proof. unfold signedOf. fails. Qed.

Lemma pressureOf_fails x idx :
  fails_in [ "Error converting pressure value in metar";
             "Error interpreting metar pressure value" ] (pressureOf x idx).
Proof. unfold pressureOf. fails. Qed.

(** ** The weather and sky steps *)

Lemma parseWeather_eq idx x m :
  exists ws res,
    parseWeather parsers0 (idx, x) m = (with_Weather (Metar_Weather m ++ ws) m, res) /\
    (forall msg, res <> Fail msg) /\
    (forall cur, res = Val cur ->
       Forall2 (fun i w => weatherOf x i = Val w) (matches (re "weather") x) ws /\
       match regexp.FindAllStringSubmatchIndex (re "weather") x with
       | Some idxs => fst cur = last idxs idx /\ from x (fst cur) 1 = Val (snd cur)
       | None => cur = (idx, x)
       end).
Proof.
  unfold parseWeather, matches. rewrite bind_lift.
  rewrite FindAll_re by key_ok.
  destruct (regexp.FindAllStringSubmatchIndex (re "weather") x) as [idxs|].
  - destruct (rangeWeather_eq x idxs idx m) as [ws [res [Heq [Hlen [Hall Hres]]]]].
    exists ws. unfold bind at 1. rewrite Heq.
    destruct res as [idx' | msg |].
    + destruct Hres as [Hl ->]. rewrite bind_lift.
      rewrite Hl, firstn_all in Hall.
      destruct (from x (last idxs idx) 1) as [rest | msg |] eqn:Ef.
      * eexists. split; [reflexivity|]. split; [discriminate|].
        intros cur Hc. inversion Hc; subst. simpl. auto.
      * exfalso. apply (fails_from [] _ _ _ _ Ef).
      * eexists. split; [reflexivity|]. split; discriminate.
    + destruct Hres as [i [_ Hf]]. exfalso. apply (weatherOf_fails _ _ _ Hf).
    + eexists. split; [reflexivity|]. split; discriminate.
  - exists [], (Val (idx, x)). rewrite with_Weather_nil.
    split; [reflexivity|]. split; [discriminate|].
    intros cur Hc. inversion Hc; subst. split; [constructor | reflexivity].
Qed.

Lemma parseSky_eq idx x m :
  exists ss res,
    parseSky parsers0 (idx, x) m = (with_Sky (Metar_Sky m ++ ss) m, res) /\
    match res with
    | Val rest =>
        exists idxs,
          regexp.FindAllStringSubmatchIndex (re "sky") x = Some idxs /\
          Forall2 (fun i sky => skyOf x i = Val sky) idxs ss /\
          from x (last idxs idx) 1 = Val rest
    | Fail msg =>
        (msg = "Error parsing metar sky" /\ ss = []) \/
        msg = "Error converting cloud height value in metar"
    | Panic => True
    end.
Proof.
  unfold parseSky. rewrite bind_lift.
  rewrite FindAll_re by key_ok.
  destruct (regexp.FindAllStringSubmatchIndex (re "sky") x) as [idxs|].
  - destruct (rangeSky_eq x idxs idx m) as [ss [res [Heq [Hlen [Hall Hres]]]]].
    exists ss. unfold bind at 1. rewrite Heq.
    destruct res as [idx' | msg |].
    + destruct Hres as [Hl ->]. unfold lift.
      rewrite Hl, firstn_all in Hall.
      destruct (from x (last idxs idx) 1) as [rest | msg |] eqn:Ef.
      * eexists. split; [reflexivity|]. exists idxs. auto.
      * exfalso. apply (fails_from [] _ _ _ _ Ef).
      * eexists. split; [reflexivity | exact I].
    + destruct Hres as [i [_ Hf]]. eexists. split; [reflexivity|].
      right. destruct (skyOf_fails _ _ _ Hf) as [<- | []]. reflexivity.
    + eexists. split; [reflexivity | exact I].
  - exists [], (Fail "Error parsing metar sky"). rewrite with_Sky_nil.
    split; [reflexivity|]. left. auto.
Qed.

(** ** A decode that returns nil runs every step *)

Lemma Parse_decoded rawMetar rawDate m m' :
  Parse rawMetar rawDate m = (m', Val tt) <-> decoded rawMetar rawDate m m'.
Proof.
  rewrite Parse_steps. unfold parseHead, parseBody, parseTail. split.
  - intros H.
    apply bind_Val in H. destruct H as [r4 [m4 [Hhead H]]].
    apply bind_Val in H. destruct H as [r7 [m7 [Hbody Htail]]].
    apply bind_Val in Hhead. destruct Hhead as [r0 [m0 [H0 Hhead]]].
    apply bind_Val in Hhead. destruct Hhead as [r1 [m1 [H1 Hhead]]].
    apply bind_Val in Hhead. destruct Hhead as [r2 [m2 [H2 Hhead]]].
    apply bind_Val in Hhead. destruct Hhead as [r3 [m3 [H3 Hhead]]].
    apply bind_Val in Hbody. destruct Hbody as [c5 [m5 [H5 Hbody]]].
    apply bind_Val in Hbody. destruct Hbody as [c6 [m6 [H6 Hbody]]].
    apply bind_Val in Htail. destruct Htail as [r8 [m8 [H8 Htail]]].
    econstructor; eassumption.
  - intros [].
    unfold bind.
    rewrite ran_type, ran_station, ran_time, ran_modifier, ran_wind,
      ran_visibility, ran_weather, ran_sky, ran_temp. exact ran_press.
Qed.

(** ** Which fields a step writes *)

Lemma frame_refl w m : frame w m m.
Proof. intros f _. destruct f; reflexivity. Qed.

Lemma frame_trans w m m1 m2 : frame w m m1 -> frame w m1 m2 -> frame w m m2.
Proof.
  intros H1 H2 f Hf. specialize (H1 f Hf). specialize (H2 f Hf).
  destruct f; simpl in *; congruence.
Qed.

Lemma frame_weaken w w' m m' : incl w w' -> frame w m m' -> frame w' m m'.
Proof. intros Hi H f Hf. apply H. intros Hin. apply Hf, Hi, Hin. Qed.

Lemma upto_incl k k' : (k <= k')%nat -> incl (upto k) (upto k').
Proof.
  unfold upto. intros Hle f Hin.
  replace k' with (k + (k' - k))%nat by lia.
  rewrite <- (firstn_skipn k all_fields) at 1.
  rewrite firstn_app. apply in_or_app. left.
  rewrite firstn_firstn. replace (Nat.min (k + (k' - k)) k) with k by lia.
  exact Hin.
Qed.

Lemma frame_upto k k' m m' :
  (k <= k')%nat -> frame (upto k) m m' -> frame (upto k') m m'.
Proof. intros Hle. apply frame_weaken, upto_incl, Hle. Qed.

(** Solves [frame w m m'] for a list [w] and a record [m'] built from [m]. *)
Ltac frame_tac :=
  let f := fresh "f" in
  let Hf := fresh "Hf" in
  intros f Hf; destruct f; try reflexivity;
  exfalso; apply Hf; vm_compute; tauto.

(** Splits a run [H] of a step into the cases of its equation. *)
Ltac step_cases H :=
  repeat match type of H with
         | context [match ?x with _ => _ end] => destruct x eqn:?
         end;
  inversion H; subst; clear H.

Lemma writes_only_bind {A B} w (c : M A) (f : A -> M B) :
  writes_only w c -> (forall a, writes_only w (f a)) ->
  writes_only w (bind c f).
Proof.
  intros Hc Hf m m' res H. unfold bind in H.
  destruct (c m) as [m1 [a | msg |]] eqn:E.
  - eapply frame_trans; [eapply Hc; eauto | eapply Hf; eauto].
  - inversion H; subst. eapply Hc; eauto.
  - inversion H; subst. eapply Hc; eauto.
Qed.

Lemma writes_only_weaken {A} w w' (c : M A) :
  incl w w' -> writes_only w c -> writes_only w' c.
Proof. intros Hi Hc m m' res H. eapply frame_weaken; eauto. Qed.

Lemma parseType_writes x : writes_only [] (parseType parsers0 x).
Proof. intros m m' res H. rewrite parseType_eq in H. step_cases H; apply frame_refl. Qed.

Lemma parseStation_writes x : writes_only [FStation] (parseStation parsers0 x).
Proof. intros m m' res H. rewrite parseStation_eq in H. step_cases H; frame_tac. Qed.

Lemma parseTime_writes d x : writes_only [FTime] (parseTime parsers0 d x).
Proof. intros m m' res H. rewrite parseTime_eq in H. step_cases H; frame_tac. Qed.

Lemma parseModifier_writes x : writes_only [FMod] (parseModifier parsers0 x).
Proof. intros m m' res H. rewrite parseModifier_eq in H. step_cases H; frame_tac. Qed.

Lemma parseWind_writes x : writes_only [FWind] (parseWind parsers0 x).
Proof. intros m m' res H. rewrite parseWind_eq in H. step_cases H; frame_tac. Qed.

Lemma parseVisibility_writes x :
  writes_only [FVisibility] (parseVisibility parsers0 x).
Proof.
  intros m m' res H. rewrite parseVisibility_eq in H. step_cases H; frame_tac.
Qed.

Lemma parseWeather_writes cur : writes_only [FWeather] (parseWeather parsers0 cur).
Proof.
  destruct cur as [idx x]. intros m m' res H.
  destruct (parseWeather_eq idx x m) as [ws [res' [Heq _]]].
  rewrite Heq in H. inversion H; subst. frame_tac.
Qed.

Lemma parseSky_writes cur : writes_only [FSky] (parseSky parsers0 cur).
Proof.
  destruct cur as [idx x]. intros m m' res H.
  destruct (parseSky_eq idx x m) as [ws [res' [Heq _]]].
  rewrite Heq in H. inversion H; subst. frame_tac.
Qed.

Lemma parseTemp_writes x : writes_only [FTemp; FDewPt] (parseTemp parsers0 x).
Proof. intros m m' res H. rewrite parseTemp_eq in H. step_cases H; frame_tac. Qed.

Lemma parsePress_writes x : writes_only [FPressure] (parsePress parsers0 x).
Proof. intros m m' res H. rewrite parsePress_eq in H. step_cases H; frame_tac. Qed.

Ltac incl_tac := let f := fresh in let H := fresh in intros f H; simpl in *; tauto.

Lemma parseTail_writes x :
  writes_only [FTemp; FDewPt; FPressure] (parseTail parsers0 x).
Proof.
  unfold parseTail. apply writes_only_bind.
  - eapply writes_only_weaken; [|apply parseTemp_writes]. incl_tac.
  - intros a. eapply writes_only_weaken; [|apply parsePress_writes]. incl_tac.
Qed.

Lemma parseBody_writes x :
  writes_only [FVisibility; FWeather; FSky] (parseBody parsers0 x).
Proof.
  unfold parseBody. apply writes_only_bind.
  - eapply writes_only_weaken; [|apply parseVisibility_writes]. incl_tac.
  - intros a. apply writes_only_bind.
    + eapply writes_only_weaken; [|apply parseWeather_writes]. incl_tac.
    + intros b. eapply writes_only_weaken; [|apply parseSky_writes]. incl_tac.
Qed.

(** ** Which fields are written when a step returns an error *)

Lemma step_spec_bind {A B} lo mid hi (c : M A) (f : A -> M B) :
  (lo <= mid)%nat -> (mid <= hi)%nat ->
  step_spec lo mid c -> (forall a, step_spec mid hi (f a)) ->
  step_spec lo hi (bind c f).
Proof.
  intros Hlm Hmh Hc Hf m m' res H. unfold bind in H.
  destruct (c m) as [m1 [a | msg |]] eqn:E.
  - pose proof (Hc _ _ _ E) as H1. pose proof (Hf a _ _ _ H) as H2.
    simpl in H1. destruct res as [b | msg |]; [| |exact I].
    + eapply frame_trans; [eapply frame_upto; [|exact H1]; lia | exact H2].
    + destruct H2 as [H2 Hle]. split; [|lia].
      eapply frame_trans; [eapply frame_upto; [|exact H1]; lia | exact H2].
  - inversion H; subst. apply (Hc _ _ _ E).
  - inversion H; subst. exact I.
Qed.

(** Closes the cases of a step: the error is one of a known list, and the
    record is [m] with known fields replaced. *)
Ltac spec_tac :=
  cbv beta iota;
  first [ exact I | split; [frame_tac | vm_compute; lia] | frame_tac ].

Ltac known_msg Hf L :=
  let Hin := fresh "Hin" in
  pose proof Hf as Hin; apply L in Hin; simpl in Hin;
  repeat (destruct Hin as [Hin | Hin]; [subst|]); try contradiction.

Lemma parseType_spec x : step_spec 0 0 (parseType parsers0 x).
Proof.
  intros m m' res H. rewrite parseType_eq in H.
  destruct (regexp.FindStringSubmatchIndex (re "type") x) as [idx|];
    inversion H; subst; [|apply frame_refl].
  destruct (from x idx 1) as [r | msg |] eqn:Ef; [apply frame_refl | | exact I].
  exfalso. apply (fails_from [] _ _ _ _ Ef).
Qed.

Lemma parseStation_spec x : step_spec 0 1 (parseStation parsers0 x).
Proof.
  intros m m' res H. rewrite parseStation_eq in H.
  destruct (regexp.FindStringSubmatchIndex (re "station") x) as [idx|];
    [|inversion H; subst; spec_tac].
  destruct (sub x idx 2 3) as [st | msg |] eqn:Es.
  - inversion H; subst.
    destruct (from x idx 1) as [r | msg |] eqn:Ef; [frame_tac | | exact I].
    exfalso. apply (fails_from [] _ _ _ _ Ef).
  - exfalso. apply (fails_sub [] _ _ _ _ _ Es).
  - inversion H; subst. exact I.
Qed.

Lemma parseTime_spec d x : step_spec 1 2 (parseTime parsers0 d x).
Proof.
  intros m m' res H. rewrite parseTime_eq in H.
  destruct (regexp.FindStringSubmatchIndex (re "time") x) as [idx|];
    [|inversion H; subst; spec_tac].
  destruct (timeOf d x idx) as [t | msg |] eqn:Es.
  - inversion H; subst.
    destruct (from x idx 1) as [r | msg |] eqn:Ef; [frame_tac | | exact I].
    exfalso. apply (fails_from [] _ _ _ _ Ef).
  - inversion H; subst. known_msg Es timeOf_fails; spec_tac.
  - inversion H; subst. exact I.
Qed.

Lemma parseModifier_spec x : step_spec 2 3 (parseModifier parsers0 x).
Proof.
  intros m m' res H. rewrite parseModifier_eq in H.
  destruct (regexp.FindStringSubmatchIndex (re "modifier") x) as [idx|];
    [|inversion H; subst; spec_tac].
  destruct (sub x idx 2 3) as [st | msg |] eqn:Es.
  - inversion H; subst.
    destruct (from x idx 1) as [r | msg |] eqn:Ef; [frame_tac | | exact I].
    exfalso. apply (fails_from [] _ _ _ _ Ef).
  - exfalso. apply (fails_sub [] _ _ _ _ _ Es).
  - inversion H; subst. exact I.
Qed.

Lemma parseWind_spec x : step_spec 3 4 (parseWind parsers0 x).
Proof.
  intros m m' res H. rewrite parseWind_eq in H.
  destruct (regexp.FindStringSubmatchIndex (re "wind") x) as [idx|];
    [|inversion H; subst; spec_tac].
  destruct (windOf x idx) as [t | msg |] eqn:Es.
  - inversion H; subst.
    destruct (from x idx 1) as [r | msg |] eqn:Ef; [frame_tac | | exact I].
    exfalso. apply (fails_from [] _ _ _ _ Ef).
  - inversion H; subst. known_msg Es windOf_fails; spec_tac.
  - inversion H; subst. exact I.
Qed.

Lemma parseVisibility_spec x : step_spec 4 5 (parseVisibility parsers0 x).
Proof.
  intros m m' res H. rewrite parseVisibility_eq in H.
  destruct (regexp.FindStringSubmatchIndex (re "visibility") x) as [idx|];
    [|inversion H; subst; spec_tac].
  destruct (visibilityOf x idx) as [t | msg |] eqn:Es.
  - inversion H; subst.
    destruct (from x idx 1) as [r | msg |] eqn:Ef; simpl; [frame_tac | | exact I].
    exfalso. apply (fails_from [] _ _ _ _ Ef).
  - inversion H; subst. known_msg Es visibilityOf_fails; spec_tac.
  - inversion H; subst. exact I.
Qed.

Lemma parseWeather_spec cur : step_spec 5 6 (parseWeather parsers0 cur).
Proof.
  destruct cur as [idx x]. intros m m' res H.
  destruct (parseWeather_eq idx x m) as [ws [res' [Heq [Hnf _]]]].
  rewrite Heq in H. inversion H; subst.
  destruct res as [c | msg |]; [frame_tac | | exact I].
  exfalso. apply (Hnf msg). reflexivity.
Qed.

Lemma parseSky_spec cur : step_spec 6 7 (parseSky parsers0 cur).
Proof.
  destruct cur as [idx x]. intros m m' res H.
  destruct (parseSky_eq idx x m) as [ss [res' [Heq Hres]]].
  rewrite Heq in H. inversion H; subst.
  destruct res as [c | msg |]; [frame_tac | | exact I].
  destruct Hres as [[-> ->] | ->].
  - rewrite with_Sky_nil. split; [apply frame_refl | vm_compute; lia].
  - split; [frame_tac | vm_compute; lia].
Qed.

Lemma parseTemp_spec x : step_spec 7 9 (parseTemp parsers0 x).
Proof.
  intros m m' res H. rewrite parseTemp_eq in H.
  destruct (regexp.FindStringSubmatchIndex (re "temp") x) as [idx|];
    [|inversion H; subst; spec_tac].
  destruct (signedOf x idx 2 4 _) as [t | msg |] eqn:Es.
  - destruct (signedOf x idx 6 8 _) as [dp | msg |] eqn:Ed.
    + inversion H; subst.
      destruct (from x idx 1) as [r | msg |] eqn:Ef; [frame_tac | | exact I].
      exfalso. apply (fails_from [] _ _ _ _ Ef).
    + inversion H; subst. known_msg Ed signedOf_fails; spec_tac.
    + inversion H; subst. exact I.
  - inversion H; subst. known_msg Es signedOf_fails; spec_tac.
  - inversion H; subst. exact I.
Qed.

Lemma parsePress_spec x : step_spec 9 10 (parsePress parsers0 x).
Proof.
  intros m m' res H. rewrite parsePress_eq in H.
  destruct (regexp.FindStringSubmatchIndex (re "press") x) as [idx|];
    [|inversion H; subst; spec_tac].
  destruct (pressureOf x idx) as [t | msg |] eqn:Es.
  - inversion H; subst. frame_tac.
  - inversion H; subst. known_msg Es pressureOf_fails; spec_tac.
  - inversion H; subst. exact I.
Qed.

Lemma Parse_spec rawMetar rawDate : step_spec 0 10 (Parse rawMetar rawDate).
Proof.
  rewrite Parse_steps. unfold parseHead, parseBody, parseTail.
  apply (step_spec_bind 0 4 10); [lia | lia | | intros r4].
  - apply (step_spec_bind 0 0 4); [lia | lia | apply parseType_spec | intros r0].
    apply (step_spec_bind 0 1 4); [lia | lia | apply parseStation_spec | intros r1].
    apply (step_spec_bind 1 2 4); [lia | lia | apply parseTime_spec | intros r2].
    apply (step_spec_bind 2 3 4); [lia | lia | apply parseModifier_spec | intros r3].
    apply parseWind_spec.
  - apply (step_spec_bind 4 7 10); [lia | lia | | intros r7].
    + apply (step_spec_bind 4 5 7); [lia | lia | apply parseVisibility_spec | intros c5].
      apply (step_spec_bind 5 6 7); [lia | lia | apply parseWeather_spec | intros c6].
      apply parseSky_spec.
    + apply (step_spec_bind 7 9 10); [lia | lia | apply parseTemp_spec | intros r8].
      apply parsePress_spec.
Qed.

(** ** What a decode does to the record does not depend on the record *)

Lemma apply_delta0 m : apply_delta delta0 m = m.
Proof. destruct m. unfold apply_delta. simpl. now rewrite !app_nil_r. Qed.

Lemma apply_compose d1 d2 m :
  apply_delta d2 (apply_delta d1 m) = apply_delta (compose d1 d2) m.
Proof.
  unfold apply_delta, compose, later, assigned. simpl.
  rewrite <- !app_assoc.
  destruct (d_Station d2), (d_Time d2), (d_Mod d2), (d_Wind d2),
    (d_Visibility d2), (d_Temp d2), (d_DewPt d2), (d_Pressure d2); reflexivity.
Qed.

Lemma summarized_lift {A} (r : result A) : summarized (lift r).
Proof. exists delta0, r. intros m. now rewrite apply_delta0. Qed.

Lemma summarized_bind {A B} (c : M A) (f : A -> M B) :
  summarized c -> (forall a, summarized (f a)) -> summarized (bind c f).
Proof.
  intros [d1 [r1 H1]] Hf. destruct r1 as [a | msg |].
  - destruct (Hf a) as [d2 [r2 H2]]. exists (compose d1 d2), r2. intros m.
    unfold bind. rewrite H1, H2. now rewrite apply_compose.
  - exists d1, (Fail msg). intros m. unfold bind. now rewrite H1.
  - exists d1, Panic. intros m. unfold bind. now rewrite H1.
Qed.

(** An assignment or an append is a [delta]. *)
Ltac one_delta d :=
  exists d, (Val tt); intros m; destruct m; unfold modify, apply_delta; simpl;
  now rewrite ?app_nil_r.

Lemma summarized_set_Station v : summarized (set_Station v).
Proof. one_delta (mkDelta (Some v) None None None None [] [] None None None). Qed.
Lemma summarized_set_Time v : summarized (set_Time v).
Proof. one_delta (mkDelta None (Some v) None None None [] [] None None None). Qed.
Lemma summarized_set_Mod v : summarized (set_Mod v).
Proof. one_delta (mkDelta None None (Some v) None None [] [] None None None). Qed.
Lemma summarized_set_Wind v : summarized (set_Wind v).
Proof. one_delta (mkDelta None None None (Some v) None [] [] None None None). Qed.
Lemma summarized_set_Visibility v : summarized (set_Visibility v).
Proof. one_delta (mkDelta None None None None (Some v) [] [] None None None). Qed.
Lemma summarized_set_Temp v : summarized (set_Temp v).
Proof. one_delta (mkDelta None None None None None [] [] (Some v) None None). Qed.
Lemma summarized_set_DewPt v : summarized (set_DewPt v).
Proof. one_delta (mkDelta None None None None None [] [] None (Some v) None). Qed.
Lemma summarized_set_Pressure v : summarized (set_Pressure v).
Proof. one_delta (mkDelta None None None None None [] [] None None (Some v)). Qed.
Lemma summarized_append_Weather w : summarized (append_Weather w).
Proof. one_delta (mkDelta None None None None None [w] [] None None None). Qed.
Lemma summarized_append_Sky s : summarized (append_Sky s).
Proof. one_delta (mkDelta None None None None None [] [s] None None None). Qed.

(** Goes through a step, one operation at a time. *)
Ltac summarize :=
  repeat first
    [ apply summarized_lift
    | apply summarized_set_Station | apply summarized_set_Time
    | apply summarized_set_Mod | apply summarized_set_Wind
    | apply summarized_set_Visibility | apply summarized_set_Temp
    | apply summarized_set_DewPt | apply summarized_set_Pressure
    | apply summarized_append_Weather | apply summarized_append_Sky
    | apply summarized_bind; [|intros ?]
    | match goal with
      | |- summarized (match ?o with Some _ => _ | None => _ end) => destruct o
      | |- summarized (let (_, _) := ?p in _) => destruct p
      end ].

Lemma summarized_rangeWeather x : forall idxs idx,
  summarized (rangeWeather x idxs idx).
Proof.
  induction idxs as [|i idxs IH]; intros idx; simpl; [apply summarized_lift|].
  summarize. apply IH.
Qed.

Lemma summarized_rangeSky x : forall idxs idx, summarized (rangeSky x idxs idx).
Proof.
  induction idxs as [|i idxs IH]; intros idx; simpl; [apply summarized_lift|].
  summarize. apply IH.
Qed.

Lemma summarized_Parse rawMetar rawDate : summarized (Parse rawMetar rawDate).
Proof.
  rewrite Parse_steps.
  unfold parseHead, parseBody, parseTail, parseType, parseStation, parseTime,
    parseModifier, parseWind, parseVisibility, parseWeather, parseSky,
    parseTemp, parsePress, ret, Errorf.
  summarize; first [apply summarized_rangeWeather | apply summarized_rangeSky].
Qed.

(** * The claims *)

(** ** C1: a missing dew point *)

(** When the temperature pattern matches with the dew-point group unset, the
    step does not return a dew-point error: either the temperature itself
    does not convert, or the slice [rawMetar[idx[6]:idx[7]]] is taken with
    both bounds [-1] and panics. *)
Lemma dew_point_absent_panics x idx m :
  regexp.FindStringSubmatchIndex (re "temp") x = Some idx ->
  group x idx 3 = None ->
  parseTemp parsers0 x m
    = (m, Fail "Error converting temperature value in metar") \/
  snd (parseTemp parsers0 x m) = Panic.
Proof.
  intros Hf Hg. rewrite parseTemp_eq, Hf.
  assert (Hd : forall msg, signedOf x idx 6 8 msg = Panic).
  { intros msg. unfold signedOf.
    rewrite (sub_group 4 x idx 3) by
      (try apply (Find_match_of (re "temp")); auto; lia).
    rewrite Hg. reflexivity. }
  rewrite Hd.
  destruct (signedOf x idx 2 4 _) as [t | msg |] eqn:Et.
  - right. reflexivity.
  - left. apply signedOf_fails in Et. destruct Et as [<- | []]. reflexivity.
  - right. reflexivity.
Qed.

(** C1 (the code departs from the claim): on a report whose temperature
    group is [M05/], with the dew point missing, [Parse] does not return a
    decode error; it panics on the slice of the unset dew-point group, after
    it has stored the temperature. *)
Theorem missing_dew_point_panics :
  Parse "YSSY 101234Z VRB05KT 9999 FEW030 M05/ Q1013" "2023/06/10 09:00" Metar0
  = (with_Temp (-5)
       (with_Sky [mkSky "FEW" 30 ""]
          (with_Visibility 9999
             (with_Wind (mkWind true 0 5 0 0 0)
                (with_Time (time.Date 2023 6 10 12 34 0)
                   (with_Station "YSSY" Metar0))))),
     Panic).
Proof. vm_compute. reflexivity. Qed.

(** ** C10: the visibility must be a four-digit distance *)

(** C10: when the leftmost visibility match has no [dist] group (it is
    [CAVOK] or the form with a unit), [Parse] returns the visibility parsing
    error, and the record is as the wind step left it. *)
Theorem visibility_needs_distance rawMetar rawDate m m1 x idx :
  parseHead parsers0 rawMetar rawDate m = (m1, Val x) ->
  regexp.FindStringSubmatchIndex (re "visibility") x = Some idx ->
  group x idx 2 = None ->
  Parse rawMetar rawDate m = (m1, Fail "Error parsing metar visibility").
Proof.
  intros Hh Hf Hg. rewrite Parse_steps. unfold bind at 1. rewrite Hh.
  unfold bind at 1. unfold parseBody. unfold bind at 1.
  rewrite parseVisibility_eq, Hf.
  pose proof (Find_match_of _ _ _ Hf) as Hm.
  destruct (match_of_group _ x idx 2 Hm ltac:(vm_compute; lia))
    as [a [b [Ea [Eb [[-> [-> _]] | [_ [_ Hs]]]]]]]; [|congruence].
  unfold visibilityOf, at_. change 4%nat with (2 * 2)%nat. rewrite Ea.
  reflexivity.
Qed.

Lemma visibility_needs_distance_witness :
  Parse "YSSY 101234Z VRB05KT CAVOK FEW030 20/10 Q1013" "2023/06/10 09:00" Metar0
  = (with_Wind (mkWind true 0 5 0 0 0)
       (with_Time (time.Date 2023 6 10 12 34 0) (with_Station "YSSY" Metar0)),
     Fail "Error parsing metar visibility").
Proof.
  apply (visibility_needs_distance _ _ _ _ "CAVOK FEW030 20/10 Q1013"
           [0; 6; 0; 5; -1; -1; -1; -1; -1; -1; -1; -1; -1; -1; -1; -1; -1; -1]);
    vm_compute; reflexivity.
Defined.

(** The same with a unit-suffixed visibility. *)
Example visibility_with_unit_refused :
  snd (Parse "YSSY 101234Z VRB05KT 10SM FEW030 20/10 Q1013" "2023/06/10 09:00"
         Metar0)
  = Fail "Error parsing metar visibility".
Proof. vm_compute. reflexivity. Qed.

(** ** C5: the pressure *)

(** The value of a pressure match, by the groups of the match. *)
Lemma pressureOf_groups x idx :
  match_of 3 x idx ->
  pressureOf x idx
  = if match group x idx 1 with Some u => String.eqb u "Q" | None => false end
    then match group x idx 2 with
         | Some p => Atoi p "Error converting pressure value in metar"
         | None => Panic
         end
    else Fail "Error interpreting metar pressure value".
Proof.
  intros Hm. unfold pressureOf.
  rewrite (isset_group 3 x idx 1), (sub_group 3 x idx 1), (sub_group 3 x idx 2)
    by (auto; lia).
  destruct (group x idx 1) as [u|]; simpl; [|reflexivity].
  destruct (String.eqb u "Q"); [|reflexivity].
  destruct (group x idx 2); reflexivity.
Qed.

(** C5: once the steps up to the temperature have run, what [Parse] returns
    is decided by the pressure match at the cursor: no match, or a match
    whose unit group is not exactly [Q] (another prefix, or none), is a
    pressure error and leaves the pressure unwritten; with the unit [Q] the
    digits are converted and stored. *)
Theorem pressure_only_Q rawMetar rawDate m m8 x :
  (r <- parseHead parsers0 rawMetar rawDate ;;
   r <- parseBody parsers0 r ;;
   parseTemp parsers0 r)%M m = (m8, Val x) ->
  Parse rawMetar rawDate m
  = match regexp.FindStringSubmatchIndex (re "press") x with
    | None => (m8, Fail "Error parsing metar pressure")
    | Some idx =>
        if match group x idx 1 with Some u => String.eqb u "Q" | None => false end
        then match group x idx 2 with
             | Some p =>
                 match strconv.Atoi p with
                 | Some value => (with_Pressure value m8, Val tt)
                 | None => (m8, Fail "Error converting pressure value in metar")
                 end
             | None => (m8, Panic)
             end
        else (m8, Fail "Error interpreting metar pressure value")
    end.
Proof.
  intros H.
  apply bind_Val in H. destruct H as [r4 [m4 [Hhead H]]].
  apply bind_Val in H. destruct H as [r7 [m7 [Hbody Htemp]]].
  rewrite Parse_steps. unfold bind at 1. rewrite Hhead.
  unfold bind at 1. rewrite Hbody. unfold parseTail, bind. rewrite Htemp.
  rewrite parsePress_eq.
  destruct (regexp.FindStringSubmatchIndex (re "press") x) as [idx|] eqn:Ef;
    [|reflexivity].
  rewrite (pressureOf_groups x idx (Find_match_of _ _ _ Ef)).
  destruct (group x idx 1) as [u|]; [|reflexivity].
  destruct (String.eqb u "Q"); [|reflexivity].
  destruct (group x idx 2) as [p|]; [|reflexivity].
  unfold Atoi. destruct (strconv.Atoi p); reflexivity.
Qed.

Lemma pressure_only_Q_witness :
  Parse "YSSY 101234Z VRB05KT 9999 FEW030 20/10 Q1013" "2023/06/10 09:00" Metar0
  = (with_Pressure 1013
       (with_DewPt 10
          (with_Temp 20
             (with_Sky [mkSky "FEW" 30 ""]
                (with_Visibility 9999
                   (with_Wind (mkWind true 0 5 0 0 0)
                      (with_Time (time.Date 2023 6 10 12 34 0)
                         (with_Station "YSSY" Metar0))))))),
     Val tt).
Proof.
  rewrite (pressure_only_Q _ _ _
             (with_DewPt 10
                (with_Temp 20
                   (with_Sky [mkSky "FEW" 30 ""]
                      (with_Visibility 9999
                         (with_Wind (mkWind true 0 5 0 0 0)
                            (with_Time (time.Date 2023 6 10 12 34 0)
                               (with_Station "YSSY" Metar0)))))))
             "Q1013");
    vm_compute; reflexivity.
Defined.

(** The prefix [A], and no prefix at all, are refused. *)
Example pressure_A_refused :
  snd (Parse "YSSY 101234Z VRB05KT 9999 FEW030 20/10 A2992" "2023/06/10 09:00"
         Metar0)
  = Fail "Error interpreting metar pressure value".
Proof. vm_compute. reflexivity. Qed.

Example pressure_bare_refused :
  snd (Parse "YSSY 101234Z VRB05KT 9999 FEW030 20/10 1013" "2023/06/10 09:00"
         Metar0)
  = Fail "Error interpreting metar pressure value".
Proof. vm_compute. reflexivity. Qed.

(** ** C7: the sign letter of temperature and dew point *)

(** A minus sign in front of digits gives the opposite of their value. *)
Lemma Atoi_minus ds v :
  strconv.Atoi (String "-" ds) = Some v ->
  exists n, strconv.unsigned ds = Some n /\ v = - n.
Proof.
  unfold strconv.Atoi. destruct (strconv.unsigned ds) as [n|]; simpl;
    [|discriminate].
  destruct (_ && _); [|discriminate]. intros H. inversion H. eauto.
Qed.

Lemma substring_all s : substring 0 (String.length s) s = s.
Proof. induction s as [|a s IH]; simpl; [reflexivity | now rewrite IH]. Qed.

(** [str[1:]] drops the first byte, and panics on the empty text. *)
Lemma slice_tail str :
  slice str 1 (len str)
  = match str with String _ ds => Val ds | EmptyString => Panic end.
Proof.
  unfold slice, len. destruct str as [|c ds]; [reflexivity|].
  replace ((0 <=? 1) && (1 <=? Z.of_nat (String.length (String c ds)))
           && (Z.of_nat (String.length (String c ds))
               <=? Z.of_nat (String.length (String c ds)))) with true.
  - replace (Z.to_nat (Z.of_nat (String.length (String c ds)) - 1))
      with (String.length ds) by (simpl String.length; lia).
    change (Z.to_nat 1) with 1%nat. simpl substring.
    now rewrite substring_all.
  - symmetry. rewrite !andb_true_iff. simpl String.length.
    repeat split; apply Z.leb_le; lia.
Qed.

(** The number read from a value of the temperature group, by its text
    [str] and its sign group [sign]: with the sign letter [M], the opposite of
    the number after the first byte; otherwise the number [str] denotes. *)
Lemma signedOf_groups x idx v sg msg n :
  match_of 4 x idx -> (v <= 4)%nat -> (sg <= 4)%nat ->
  signedOf x idx (2 * v) (2 * sg) msg = Val n ->
  exists str, group x idx v = Some str /\
    if match group x idx sg with Some s => String.eqb s "M" | None => false end
    then exists c ds k, str = String c ds /\ strconv.unsigned ds = Some k /\
                        n = - k
    else strconv.Atoi str = Some n.
Proof.
  intros Hm Hv Hsg. unfold signedOf.
  rewrite (sub_group 4 x idx v), (isset_group 4 x idx sg),
    (sub_group 4 x idx sg) by (auto; lia).
  destruct (group x idx v) as [str|]; simpl; [|discriminate].
  intros H. exists str. split; [reflexivity|].
  destruct (group x idx sg) as [s|]; simpl in H.
  - destruct (String.eqb s "M"); simpl in H.
    + rewrite slice_tail in H. destruct str as [|c ds]; [discriminate|].
      simpl in H. unfold Atoi in H.
      destruct (strconv.Atoi (String "-" ds)) as [n'|] eqn:Ea; [|discriminate].
      inversion H; subst. apply Atoi_minus in Ea.
      destruct Ea as [k [Hk ->]]. exists c, ds, k. auto.
    + unfold Atoi in H. destruct (strconv.Atoi str); [|discriminate].
      inversion H. reflexivity.
  - unfold Atoi in H. destruct (strconv.Atoi str); [|discriminate].
    inversion H. reflexivity.
Qed.

(** C7: in a decode that returns nil, temperature and dew point are read
    from groups 1 and 3 of the temperature match; a value whose sign group
    (2 for the temperature, 4 for the dew point) is the letter [M] is the
    opposite of the number that follows its first byte, any other value is
    the number its text denotes. *)
Theorem sign_letter_flips rawMetar rawDate m m' :
  Parse rawMetar rawDate m = (m', Val tt) ->
  exists m7 x idx tempStr dewPtStr,
    (r <- parseHead parsers0 rawMetar rawDate ;; parseBody parsers0 r)%M m
      = (m7, Val x) /\
    regexp.FindStringSubmatchIndex (re "temp") x = Some idx /\
    group x idx 1 = Some tempStr /\ group x idx 3 = Some dewPtStr /\
    (if match group x idx 2 with Some s => String.eqb s "M" | None => false end
     then exists c ds k, tempStr = String c ds /\
                         strconv.unsigned ds = Some k /\ Temp m' = - k
     else strconv.Atoi tempStr = Some (Temp m')) /\
    (if match group x idx 4 with Some s => String.eqb s "M" | None => false end
     then exists c ds k, dewPtStr = String c ds /\
                         strconv.unsigned ds = Some k /\ DewPt m' = - k
     else strconv.Atoi dewPtStr = Some (DewPt m')).
Proof.
  intros H. apply Parse_decoded in H. destruct H.
  exists m_sky, r_temp.
  rewrite parseTemp_eq in ran_temp.
  destruct (regexp.FindStringSubmatchIndex (re "temp") r_temp) as [idx|] eqn:Ef;
    [|discriminate].
  pose proof (Find_match_of _ _ _ Ef) as Hm.
  destruct (signedOf r_temp idx 2 4 _) as [t | |] eqn:Et; try discriminate.
  destruct (signedOf r_temp idx 6 8 _) as [dp | |] eqn:Ed; try discriminate.
  inversion ran_temp; subst.
  apply (signedOf_groups r_temp idx 1 2) in Et; [|assumption | lia | lia].
  apply (signedOf_groups r_temp idx 3 4) in Ed; [|assumption | lia | lia].
  destruct Et as [tempStr [Ht1 Ht2]]. destruct Ed as [dewPtStr [Hd1 Hd2]].
  exists idx, tempStr, dewPtStr.
  assert (HT : Temp m' = t /\ DewPt m' = dp).
  { apply parsePress_writes in ran_press.
    split; [apply (ran_press FTemp) | apply (ran_press FDewPt)];
      simpl; intros [Hx | []]; discriminate. }
  destruct HT as [-> ->].
  split; [|tauto].
  unfold parseHead, parseBody, bind.
  rewrite ran_type, ran_station, ran_time, ran_modifier, ran_wind,
    ran_visibility, ran_weather. exact ran_sky.
Qed.

Lemma sign_letter_flips_witness :
  exists m7 x idx tempStr dewPtStr,
    (r <- parseHead parsers0
            "YSSY 101234Z VRB05KT 9999 FEW030 M05/M10 Q1013" "2023/06/10 09:00" ;;
     parseBody parsers0 r)%M Metar0 = (m7, Val x) /\
    regexp.FindStringSubmatchIndex (re "temp") x = Some idx /\
    group x idx 1 = Some tempStr /\ group x idx 3 = Some dewPtStr /\
    (if match group x idx 2 with Some s => String.eqb s "M" | None => false end
     then exists c ds k, tempStr = String c ds /\
                         strconv.unsigned ds = Some k /\ -5 = - k
     else strconv.Atoi tempStr = Some (-5)) /\
    (if match group x idx 4 with Some s => String.eqb s "M" | None => false end
     then exists c ds k, dewPtStr = String c ds /\
                         strconv.unsigned ds = Some k /\ -10 = - k
     else strconv.Atoi dewPtStr = Some (-10)).
Proof.
  apply (sign_letter_flips
           "YSSY 101234Z VRB05KT 9999 FEW030 M05/M10 Q1013" "2023/06/10 09:00"
           Metar0
           (with_Pressure 1013
              (with_DewPt (-10)
                 (with_Temp (-5)
                    (with_Sky [mkSky "FEW" 30 ""]
                       (with_Visibility 9999
                          (with_Wind (mkWind true 0 5 0 0 0)
                             (with_Time (time.Date 2023 6 10 12 34 0)
                                (with_Station "YSSY" Metar0))))))))).
  vm_compute. reflexivity.
Defined.

(** The group [M05/M10] gives temperature -5 and dew point -10. *)
Example negative_temperatures :
  let m := fst (Parse "YSSY 101234Z VRB05KT 9999 FEW030 M05/M10 Q1013"
                  "2023/06/10 09:00" Metar0) in
  Temp m = -5 /\ DewPt m = -10.
Proof. vm_compute. split; reflexivity. Qed.

(** ** C8: variable wind *)

(** One optional number of the wind: the block
    [if idx[i] != -1 && idx[j] != -1 { if v, err := Atoi(...); ... }],
    by the group of the match. *)
Lemma optional_number x idx g i j msg (set : Z -> Wind) (wind : Wind)
  (k : Wind -> result Wind) :
  match_of 8 x idx -> (g <= 8)%nat -> i = (2 * g)%nat -> j = (2 * g + 1)%nat ->
  (b <- isset idx i j ;;
   wind <- (if b : bool then
              s <- sub x idx i j ;; v <- Atoi s msg ;; Val (set v)
            else Val wind) ;;
   k wind)%R
  = match group x idx g with
    | Some s =>
        match strconv.Atoi s with
        | Some v => k (set v)
        | None => Fail msg
        end
    | None => k wind
    end.
Proof.
  intros Hm Hg -> ->.
  rewrite (isset_group 8 x idx g), (sub_group 8 x idx g) by (auto; lia).
  destruct (group x idx g) as [s|]; simpl; [|reflexivity].
  unfold Atoi. destruct (strconv.Atoi s); reflexivity.
Qed.

(** The wind of a match whose direction group is [VRB] is variable, with
    direction zero and the speed its speed group denotes. *)
Lemma windOf_VRB x idx spd w :
  match_of 8 x idx ->
  group x idx 1 = Some "VRB" -> group x idx 2 = Some spd ->
  windOf x idx = Val w ->
  Vrb w = true /\ Dir w = 0 /\ strconv.Atoi spd = Some (Spd w).
Proof.
  intros Hm Hd Hs. unfold windOf.
  rewrite (isset_group 8 x idx 1), (sub_group 8 x idx 1) by (auto; lia).
  rewrite Hd. simpl bindR at 1. cbv beta iota. simpl bindR at 1.
  change (String.eqb "VRB" "VRB") with true. cbv beta iota. simpl bindR at 1.
  rewrite (optional_number x idx 2) by (auto; lia). rewrite Hs.
  destruct (strconv.Atoi spd) as [v|]; [|discriminate].
  rewrite (optional_number x idx 4) by (auto; lia).
  destruct (group x idx 4) as [s4|];
    [destruct (strconv.Atoi s4); [|discriminate]|];
    (rewrite (optional_number x idx 7) by (auto; lia));
    (destruct (group x idx 7) as [s7|];
       [destruct (strconv.Atoi s7); [|discriminate]|]);
    (rewrite (isset_group 8 x idx 8), (sub_group 8 x idx 8) by (auto; lia));
    (destruct (group x idx 8) as [s8|]; simpl;
       [unfold Atoi; destruct (strconv.Atoi s8); simpl; [|discriminate]|]);
    intros H; inversion H; subst; simpl; auto.
Qed.

(** C8: in a decode that returns nil, the wind is decoded from the wind match
    at the cursor the modifier step left; when the direction group of that
    match is [VRB] and its speed group is [05], the wind stored is variable,
    with speed 5 and the direction left at zero. *)
Theorem variable_wind rawMetar rawDate m m' :
  Parse rawMetar rawDate m = (m', Val tt) ->
  exists m3 x idx,
    (r <- parseType parsers0 rawMetar ;; r <- parseStation parsers0 r ;;
     r <- parseTime parsers0 rawDate r ;; parseModifier parsers0 r)%M m
      = (m3, Val x) /\
    regexp.FindStringSubmatchIndex (re "wind") x = Some idx /\
    (group x idx 1 = Some "VRB" -> group x idx 2 = Some "05" ->
     Vrb (Metar_Wind m') = true /\ Spd (Metar_Wind m') = 5 /\
     Dir (Metar_Wind m') = 0).
Proof.
  intros H. apply Parse_decoded in H. destruct H.
  exists m_modifier, r_wind.
  pose proof ran_wind as Hw. rewrite parseWind_eq in Hw.
  destruct (regexp.FindStringSubmatchIndex (re "wind") r_wind) as [idx|] eqn:Ef;
    [|discriminate].
  pose proof (Find_match_of _ _ _ Ef) as Hm.
  destruct (windOf r_wind idx) as [w | |] eqn:Ew; try discriminate.
  inversion Hw; subst. exists idx.
  split; [|split; [reflexivity|]].
  - unfold bind. rewrite ran_type, ran_station, ran_time. exact ran_modifier.
  - intros Hd Hs.
    assert (HW : Metar_Wind m' = w).
    { apply parseVisibility_writes in ran_visibility.
      apply parseWeather_writes in ran_weather.
      apply parseSky_writes in ran_sky. apply parseTemp_writes in ran_temp.
      apply parsePress_writes in ran_press.
      rewrite (ran_press FWind), (ran_temp FWind), (ran_sky FWind),
        (ran_weather FWind), (ran_visibility FWind);
        [reflexivity | ..]; simpl; intuition discriminate. }
    rewrite HW.
    destruct (windOf_VRB r_wind idx "05" w Hm Hd Hs Ew) as [Hv [Hdir Hspd]].
    vm_compute in Hspd. inversion Hspd. auto.
Qed.

Lemma variable_wind_witness :
  exists m3 x idx,
    (r <- parseType parsers0 "YSSY 101234Z VRB05KT 9999 FEW030 20/10 Q1013" ;;
     r <- parseStation parsers0 r ;;
     r <- parseTime parsers0 "2023/06/10 09:00" r ;;
     parseModifier parsers0 r)%M Metar0 = (m3, Val x) /\
    regexp.FindStringSubmatchIndex (re "wind") x = Some idx /\
    (group x idx 1 = Some "VRB" -> group x idx 2 = Some "05" ->
     Vrb (mkWind true 0 5 0 0 0) = true /\ Spd (mkWind true 0 5 0 0 0) = 5 /\
     Dir (mkWind true 0 5 0 0 0) = 0).
Proof.
  apply (variable_wind
           "YSSY 101234Z VRB05KT 9999 FEW030 20/10 Q1013" "2023/06/10 09:00"
           Metar0
           (with_Pressure 1013
              (with_DewPt 10
                 (with_Temp 20
                    (with_Sky [mkSky "FEW" 30 ""]
                       (with_Visibility 9999
                          (with_Wind (mkWind true 0 5 0 0 0)
                             (with_Time (time.Date 2023 6 10 12 34 0)
                                (with_Station "YSSY" Metar0))))))))).
  vm_compute. reflexivity.
Defined.

(** The wind group [VRB05KT], with the groups of its match. *)
Example wind_VRB05KT :
  let x := "VRB05KT 9999 FEW030 20/10 Q1013" in
  exists idx,
    regexp.FindStringSubmatchIndex (re "wind") x = Some idx /\
    group x idx 1 = Some "VRB" /\ group x idx 2 = Some "05" /\
    Metar_Wind
      (fst (Parse "YSSY 101234Z VRB05KT 9999 FEW030 20/10 Q1013"
              "2023/06/10 09:00" Metar0))
    = mkWind true 0 5 0 0 0.
Proof. eexists. vm_compute. repeat split; reflexivity. Qed.

(** ** C3: the observation time *)

(** The observation time, by the groups of the time match. *)
Lemma timeOf_groups rawDate x idx tm :
  match_of 3 x idx ->
  timeOf rawDate x idx = Val tm ->
  exists t dd hh mm day hour min,
    time.Parse dateFormat rawDate = Some t /\
    group x idx 1 = Some dd /\ group x idx 2 = Some hh /\
    group x idx 3 = Some mm /\
    strconv.Atoi dd = Some day /\ strconv.Atoi hh = Some hour /\
    strconv.Atoi mm = Some min /\
    tm = time.Date (time.Year t) (time.Month t) day hour min 0.
Proof.
  intros Hm. unfold timeOf.
  destruct (time.Parse dateFormat rawDate) as [t|] eqn:Ep; [|discriminate].
  rewrite (sub_group 3 x idx 1), (sub_group 3 x idx 2), (sub_group 3 x idx 3)
    by (auto; lia).
  unfold Atoi.
  destruct (group x idx 1) as [dd|]; simpl; [|discriminate].
  destruct (strconv.Atoi dd) as [day|] eqn:E1; simpl; [|discriminate].
  destruct (group x idx 2) as [hh|]; simpl; [|discriminate].
  destruct (strconv.Atoi hh) as [hour|] eqn:E2; simpl; [|discriminate].
  destruct (group x idx 3) as [mm|]; simpl; [|discriminate].
  destruct (strconv.Atoi mm) as [min|] eqn:E3; simpl; [|discriminate].
  intros H. inversion H. exists t, dd, hh, mm, day, hour, min.
  repeat split; auto.
Qed.

(** Only the year and the month of the reference date are used. *)
Lemma timeOf_year_month d d' t t' x idx :
  time.Parse dateFormat d = Some t -> time.Parse dateFormat d' = Some t' ->
  time.Year t' = time.Year t -> time.Month t' = time.Month t ->
  timeOf d' x idx = timeOf d x idx.
Proof.
  intros H H' Hy Hm. unfold timeOf. rewrite H, H', Hy, Hm. reflexivity.
Qed.

(** C3: in a decode that returns nil, the reference date parses to some [t],
    the time group at the cursor gives day, hour and minute, and the
    observation time is [time.Date] of the year and month of [t] with that
    day, hour and minute, zero seconds, in UTC; any other reference date of
    the same year and month gives the same decode, whatever its day, hour and
    minute. *)
Theorem observation_time rawMetar rawDate m m' :
  Parse rawMetar rawDate m = (m', Val tt) ->
  exists t m1 x idx dd hh mm day hour min,
    time.Parse dateFormat rawDate = Some t /\
    (r <- parseType parsers0 rawMetar ;; parseStation parsers0 r)%M m
      = (m1, Val x) /\
    regexp.FindStringSubmatchIndex (re "time") x = Some idx /\
    group x idx 1 = Some dd /\ group x idx 2 = Some hh /\
    group x idx 3 = Some mm /\
    strconv.Atoi dd = Some day /\ strconv.Atoi hh = Some hour /\
    strconv.Atoi mm = Some min /\
    Time m' = time.Date (time.Year t) (time.Month t) day hour min 0 /\
    forall rawDate' t',
      time.Parse dateFormat rawDate' = Some t' ->
      time.Year t' = time.Year t -> time.Month t' = time.Month t ->
      Parse rawMetar rawDate' m = (m', Val tt).
Proof.
  intros H. apply Parse_decoded in H. destruct H.
  pose proof ran_time as Ht. rewrite parseTime_eq in Ht.
  destruct (regexp.FindStringSubmatchIndex (re "time") r_time) as [idx|] eqn:Ef;
    [|discriminate].
  pose proof (Find_match_of _ _ _ Ef) as Hm.
  destruct (timeOf rawDate r_time idx) as [tm | |] eqn:Et; try discriminate.
  inversion Ht; subst.
  destruct (timeOf_groups _ _ _ _ Hm Et)
    as [t [dd [hh [mm [day [hour [min [Hp [Hg1 [Hg2 [Hg3 [Hd [Hh [Hmi ->]]]]]]]]]]]]]].
  exists t, m_station, r_time, idx, dd, hh, mm, day, hour, min.
  repeat (split; [assumption|]).
  split; [unfold bind; rewrite ran_type; exact ran_station|].
  repeat (split; [assumption|]).
  split.
  - apply parseModifier_writes in ran_modifier.
    apply parseWind_writes in ran_wind.
    apply parseVisibility_writes in ran_visibility.
    apply parseWeather_writes in ran_weather.
    apply parseSky_writes in ran_sky. apply parseTemp_writes in ran_temp.
    apply parsePress_writes in ran_press.
    rewrite (ran_press FTime), (ran_temp FTime), (ran_sky FTime),
      (ran_weather FTime), (ran_visibility FTime), (ran_wind FTime),
      (ran_modifier FTime); [reflexivity | ..]; simpl; intuition discriminate.
  - intros rawDate' t' Hp' Hy Hmo. apply Parse_decoded.
    econstructor; try eassumption.
    rewrite parseTime_eq, Ef.
    rewrite (timeOf_year_month rawDate rawDate' t t' r_time idx Hp Hp' Hy Hmo).
    rewrite Et. exact Ht.
Qed.

Lemma observation_time_witness :
  exists t m1 x idx dd hh mm day hour min,
    time.Parse dateFormat "2023/06/10 09:00" = Some t /\
    (r <- parseType parsers0 "YSSY 101234Z VRB05KT 9999 FEW030 20/10 Q1013" ;;
     parseStation parsers0 r)%M Metar0 = (m1, Val x) /\
    regexp.FindStringSubmatchIndex (re "time") x = Some idx /\
    group x idx 1 = Some dd /\ group x idx 2 = Some hh /\
    group x idx 3 = Some mm /\
    strconv.Atoi dd = Some day /\ strconv.Atoi hh = Some hour /\
    strconv.Atoi mm = Some min /\
    time.Date 2023 6 10 12 34 0
    = time.Date (time.Year t) (time.Month t) day hour min 0 /\
    forall rawDate' t',
      time.Parse dateFormat rawDate' = Some t' ->
      time.Year t' = time.Year t -> time.Month t' = time.Month t ->
      Parse "YSSY 101234Z VRB05KT 9999 FEW030 20/10 Q1013" rawDate' Metar0
      = (with_Pressure 1013
           (with_DewPt 10
              (with_Temp 20
                 (with_Sky [mkSky "FEW" 30 ""]
                    (with_Visibility 9999
                       (with_Wind (mkWind true 0 5 0 0 0)
                          (with_Time (time.Date 2023 6 10 12 34 0)
                             (with_Station "YSSY" Metar0))))))),
         Val tt).
Proof.
  apply (observation_time
           "YSSY 101234Z VRB05KT 9999 FEW030 20/10 Q1013" "2023/06/10 09:00"
           Metar0
           (with_Pressure 1013
              (with_DewPt 10
                 (with_Temp 20
                    (with_Sky [mkSky "FEW" 30 ""]
                       (with_Visibility 9999
                          (with_Wind (mkWind true 0 5 0 0 0)
                             (with_Time (time.Date 2023 6 10 12 34 0)
                                (with_Station "YSSY" Metar0))))))))).
  vm_compute. reflexivity.
Defined.

(** Reference ["2023/06/10 09:00"] and time group [101234] give
    2023-06-10T12:34:00Z, and so does a reference of another day and hour of
    the same month. *)
Example time_2023_06_10_12_34 :
  let t := Time (fst (Parse "YSSY 101234Z VRB05KT 9999 FEW030 20/10 Q1013"
                        "2023/06/10 09:00" Metar0)) in
  t = time.mkTime 1686400440 /\
  (time.Year t, time.Month t, time.Day t) = (2023, 6, 10) /\
  (time.Hour t, time.Minute t, time.Second t) = (12, 34, 0) /\
  Time (fst (Parse "YSSY 101234Z VRB05KT 9999 FEW030 20/10 Q1013"
               "2023/06/27 23:59" Metar0)) = t.
Proof. vm_compute. repeat split; reflexivity. Qed.

(** ** The weather and sky lists of a decode *)

(** In a decode that returns nil, the entries appended to the weather list
    are those of the weather matches in the text after the visibility, and
    the entries appended to the sky list are those of the sky matches in the
    text after the last weather match, of which there is at least one. *)
Lemma Parse_lists rawMetar rawDate m m' :
  Parse rawMetar rawDate m = (m', Val tt) ->
  exists m4 x4 m5 idx5 xw m6 idx6 xs ws ss,
    parseHead parsers0 rawMetar rawDate m = (m4, Val x4) /\
    parseVisibility parsers0 x4 m4 = (m5, Val (idx5, xw)) /\
    parseWeather parsers0 (idx5, xw) m5 = (m6, Val (idx6, xs)) /\
    Forall2 (fun i w => weatherOf xw i = Val w) (matches (re "weather") xw) ws /\
    Forall2 (fun i sky => skyOf xs i = Val sky) (matches (re "sky") xs) ss /\
    matches (re "sky") xs <> [] /\
    Metar_Weather m' = Metar_Weather m ++ ws /\
    Metar_Sky m' = Metar_Sky m ++ ss.
Proof.
  intros H. apply Parse_decoded in H. destruct H.
  destruct c_weather as [idx5 xw]. destruct c_sky as [idx6 xs].
  destruct (parseWeather_eq idx5 xw m_visibility) as [ws [resw [Hw [_ Hwv]]]].
  rewrite ran_weather in Hw. inversion Hw; subst.
  destruct (Hwv _ eq_refl) as [Hws _].
  destruct (parseSky_eq idx6 xs (with_Weather (Metar_Weather m_visibility ++ ws)
                                   m_visibility)) as [ss [ress [Hs Hsv]]].
  rewrite ran_sky in Hs. inversion Hs; subst.
  destruct Hsv as [idxs [Hfa [Hss _]]].
  exists m_wind, r_visibility, m_visibility, idx5, xw,
    (with_Weather (Metar_Weather m_visibility ++ ws) m_visibility), idx6, xs,
    ws, ss.
  assert (Hms : matches (re "sky") xs = idxs) by (unfold matches; now rewrite Hfa).
  split; [unfold parseHead, bind;
          rewrite ran_type, ran_station, ran_time, ran_modifier; exact ran_wind|].
  split; [assumption|]. split; [assumption|]. split; [assumption|].
  split; [rewrite Hms; assumption|].
  split; [rewrite Hms; apply (FindAll_ok _ _ _ Hfa)|].
  apply parseType_writes in ran_type. apply parseStation_writes in ran_station.
  apply parseTime_writes in ran_time. apply parseModifier_writes in ran_modifier.
  apply parseWind_writes in ran_wind.
  apply parseVisibility_writes in ran_visibility.
  apply parseTemp_writes in ran_temp. apply parsePress_writes in ran_press.
  split.
  - rewrite (ran_press FWeather), (ran_temp FWeather);
      [|simpl; intuition discriminate ..].
    simpl.
    rewrite (ran_visibility FWeather), (ran_wind FWeather),
      (ran_modifier FWeather), (ran_time FWeather), (ran_station FWeather),
      (ran_type FWeather); [reflexivity | ..]; simpl; intuition discriminate.
  - rewrite (ran_press FSky), (ran_temp FSky);
      [|simpl; intuition discriminate ..].
    simpl.
    rewrite (ran_visibility FSky), (ran_wind FSky),
      (ran_modifier FSky), (ran_time FSky), (ran_station FSky),
      (ran_type FSky); [reflexivity | ..]; simpl; intuition discriminate.
Qed.

Lemma Forall2_length {A B} (R : A -> B -> Prop) l l' :
  Forall2 R l l' -> List.length l = List.length l'.
Proof. induction 1; simpl; congruence. Qed.

(** ** C9: repeated groups *)

(** C9: in a decode that returns nil, the weather entries appended are built
    one from each weather match of the text after the visibility, and the sky
    entries one from each sky match of the text after the weather, match by
    match in the order of the matches, which is the order of the text; so a
    report with two weather matches and three sky matches, decoded into a
    record whose lists are empty, gives lists of length 2 and 3. *)
Theorem repeated_groups rawMetar rawDate m m' :
  Parse rawMetar rawDate m = (m', Val tt) ->
  exists m4 x4 m5 idx5 xw m6 idx6 xs ws ss,
    parseHead parsers0 rawMetar rawDate m = (m4, Val x4) /\
    parseVisibility parsers0 x4 m4 = (m5, Val (idx5, xw)) /\
    parseWeather parsers0 (idx5, xw) m5 = (m6, Val (idx6, xs)) /\
    Metar_Weather m' = Metar_Weather m ++ ws /\
    Metar_Sky m' = Metar_Sky m ++ ss /\
    Forall2 (fun i w => weatherOf xw i = Val w) (matches (re "weather") xw) ws /\
    Forall2 (fun i sky => skyOf xs i = Val sky) (matches (re "sky") xs) ss /\
    ordered_from 0 (matches (re "weather") xw) /\
    ordered_from 0 (matches (re "sky") xs) /\
    (List.length (matches (re "weather") xw) = 2%nat ->
     List.length (matches (re "sky") xs) = 3%nat ->
     Metar_Weather m = [] -> Metar_Sky m = [] ->
     List.length (Metar_Weather m') = 2%nat /\
     List.length (Metar_Sky m') = 3%nat).
Proof.
  intros H. apply Parse_lists in H.
  destruct H as [m4 [x4 [m5 [idx5 [xw [m6 [idx6 [xs [ws [ss
                   [Hh [Hv [Hw [Hws [Hss [_ [HW HS]]]]]]]]]]]]]]]]].
  exists m4, x4, m5, idx5, xw, m6, idx6, xs, ws, ss.
  repeat (split; [assumption|]).
  split; [apply matches_match_of|]. split; [apply matches_match_of|].
  intros H2 H3 Hw0 Hs0. rewrite HW, HS, Hw0, Hs0. simpl.
  rewrite <- (Forall2_length _ _ _ Hws), <- (Forall2_length _ _ _ Hss).
  auto.
Qed.

Lemma repeated_groups_witness :
  exists m4 x4 m5 idx5 xw m6 idx6 xs ws ss,
    parseHead parsers0
      "YSSY 101234Z VRB05KT 9999 -RA BR FEW030 SCT050 BKN100 20/10 Q1013"
      "2023/06/10 09:00" Metar0 = (m4, Val x4) /\
    parseVisibility parsers0 x4 m4 = (m5, Val (idx5, xw)) /\
    parseWeather parsers0 (idx5, xw) m5 = (m6, Val (idx6, xs)) /\
    [mkWeather "-" "" "RA" ""; mkWeather "" "" "BR" ""] = [] ++ ws /\
    [mkSky "FEW" 30 ""; mkSky "SCT" 50 ""; mkSky "BKN" 100 ""] = [] ++ ss /\
    Forall2 (fun i w => weatherOf xw i = Val w) (matches (re "weather") xw) ws /\
    Forall2 (fun i sky => skyOf xs i = Val sky) (matches (re "sky") xs) ss /\
    ordered_from 0 (matches (re "weather") xw) /\
    ordered_from 0 (matches (re "sky") xs) /\
    (List.length (matches (re "weather") xw) = 2%nat ->
     List.length (matches (re "sky") xs) = 3%nat ->
     @nil Weather = [] -> @nil Sky = [] ->
     List.length [mkWeather "-" "" "RA" ""; mkWeather "" "" "BR" ""] = 2%nat /\
     List.length [mkSky "FEW" 30 ""; mkSky "SCT" 50 ""; mkSky "BKN" 100 ""]
     = 3%nat).
Proof.
  apply (repeated_groups
           "YSSY 101234Z VRB05KT 9999 -RA BR FEW030 SCT050 BKN100 20/10 Q1013"
           "2023/06/10 09:00" Metar0
           (mkMetar "YSSY" (time.Date 2023 6 10 12 34 0) ""
              (mkWind true 0 5 0 0 0) 9999
              [mkWeather "-" "" "RA" ""; mkWeather "" "" "BR" ""]
              [mkSky "FEW" 30 ""; mkSky "SCT" 50 ""; mkSky "BKN" 100 ""]
              20 10 1013)).
  vm_compute. reflexivity.
Defined.

(** Two weather groups and three sky layers: the matches the two loops find
    and the lists of the record. *)
Example two_weather_three_sky :
  let m := fst (Parse
                  "YSSY 101234Z VRB05KT 9999 -RA BR FEW030 SCT050 BKN100 20/10 Q1013"
                  "2023/06/10 09:00" Metar0) in
  List.length (matches (re "weather") "-RA BR FEW030 SCT050 BKN100 20/10 Q1013")
  = 2%nat /\
  List.length (matches (re "sky") "FEW030 SCT050 BKN100 20/10 Q1013") = 3%nat /\
  map Precip (Metar_Weather m) = ["RA"; "BR"] /\
  map Cover (Metar_Sky m) = ["FEW"; "SCT"; "BKN"].
Proof. vm_compute. repeat split; reflexivity. Qed.

(** ** C4: the fields of a weather entry *)

(** The entry built from a weather match: each field is the text of one
    group of the match, empty when the group is unset. *)
Lemma weatherOf_groups x idx :
  match_of 12 x idx ->
  weatherOf x idx
  = Val (mkWeather (text (group x idx 1)) (text (group x idx 3))
           (text (group x idx 5)) (text (group x idx 8))).
Proof.
  intros Hm. unfold weatherOf.
  rewrite (isset_group 12 x idx 1), (sub_group 12 x idx 1),
    (isset_group 12 x idx 3), (sub_group 12 x idx 3),
    (isset_group 12 x idx 5), (sub_group 12 x idx 5),
    (isset_group 12 x idx 8), (sub_group 12 x idx 8) by (auto; lia).
  destruct (group x idx 1), (group x idx 3), (group x idx 5), (group x idx 8);
    reflexivity.
Qed.

(** C4 (as the code has it): in a decode that returns nil, every weather
    entry appended comes from one weather match; its intensity and its
    descriptor are the texts of groups 1 and 3 of the match when those took
    part in it and are empty otherwise, and its two other text fields are
    read from the index pairs 10-11 and 16-17 of the match (groups 5 and 8),
    each filled when its pair is set. *)
Theorem weather_fields rawMetar rawDate m m' :
  Parse rawMetar rawDate m = (m', Val tt) ->
  exists m4 x4 m5 idx5 xw ws,
    parseHead parsers0 rawMetar rawDate m = (m4, Val x4) /\
    parseVisibility parsers0 x4 m4 = (m5, Val (idx5, xw)) /\
    Metar_Weather m' = Metar_Weather m ++ ws /\
    Forall2
      (fun idx w =>
         Intens w = text (group xw idx 1) /\ Descr w = text (group xw idx 3) /\
         Precip w = text (group xw idx 5) /\ Other w = text (group xw idx 8))
      (matches (re "weather") xw) ws.
Proof.
  intros H. apply Parse_lists in H.
  destruct H as [m4 [x4 [m5 [idx5 [xw [m6 [idx6 [xs [ws [ss
                   [Hh [Hv [Hw [Hws [Hss [_ [HW HS]]]]]]]]]]]]]]]]].
  exists m4, x4, m5, idx5, xw, ws.
  repeat (split; [assumption|]).
  pose proof (proj1 (matches_match_of (re "weather") xw)) as Hm.
  clear - Hws Hm. induction Hws as [|idx w idxs ws Hx Hr IH]; [constructor|].
  inversion Hm; subst. constructor; [|apply IH; assumption].
  rewrite weatherOf_groups in Hx by assumption.
  inversion Hx; subst. simpl. auto.
Qed.

Lemma weather_fields_witness :
  exists m4 x4 m5 idx5 xw ws,
    parseHead parsers0
      "YSSY 101234Z VRB05KT 9999 +TSRABR FEW030 20/10 Q1013" "2023/06/10 09:00"
      Metar0 = (m4, Val x4) /\
    parseVisibility parsers0 x4 m4 = (m5, Val (idx5, xw)) /\
    [mkWeather "+" "TS" "RABR" "BR"] = [] ++ ws /\
    Forall2
      (fun idx w =>
         Intens w = text (group xw idx 1) /\ Descr w = text (group xw idx 3) /\
         Precip w = text (group xw idx 5) /\ Other w = text (group xw idx 8))
      (matches (re "weather") xw) ws.
Proof.
  apply (weather_fields
           "YSSY 101234Z VRB05KT 9999 +TSRABR FEW030 20/10 Q1013"
           "2023/06/10 09:00" Metar0
           (mkMetar "YSSY" (time.Date 2023 6 10 12 34 0) ""
              (mkWind true 0 5 0 0 0) 9999 [mkWeather "+" "TS" "RABR" "BR"]
              [mkSky "FEW" 30 ""] 20 10 1013)).
  vm_compute. reflexivity.
Defined.

(** C4, as stated, fails: the occurrence [+TSRABR] is matched through the
    first branch of the alternation, and the entry built from it has both
    remaining text fields populated, not exactly one. *)
Lemma weather_two_fields_populated :
  exists w,
    Parse "YSSY 101234Z VRB05KT 9999 +TSRABR FEW030 20/10 Q1013"
      "2023/06/10 09:00" Metar0
    = (mkMetar "YSSY" (time.Date 2023 6 10 12 34 0) ""
         (mkWind true 0 5 0 0 0) 9999 [w] [mkSky "FEW" 30 ""] 20 10 1013,
       Val tt) /\
    Intens w = "+" /\ Descr w = "TS" /\
    Precip w = "RABR" /\ Other w = "BR" /\
    Precip w <> "" /\ Other w <> "".
Proof.
  exists (mkWeather "+" "TS" "RABR" "BR").
  split; [vm_compute; reflexivity|]. simpl. repeat split; discriminate.
Qed.

(** ** C6: decoding twice *)

(** Applying twice what a decode does: the scalar fields stay, the entries
    are appended once more. *)
Lemma apply_delta_twice d m :
  apply_delta d (apply_delta d m)
  = with_Sky (Metar_Sky (apply_delta d m) ++ d_Sky d)
      (with_Weather (Metar_Weather (apply_delta d m) ++ d_Weather d)
         (apply_delta d m)).
Proof.
  unfold apply_delta, with_Sky, with_Weather, assigned. simpl.
  destruct (d_Station d), (d_Time d), (d_Mod d), (d_Wind d),
    (d_Visibility d), (d_Temp d), (d_DewPt d), (d_Pressure d); reflexivity.
Qed.

(** C6 (as the code has it): a decode that returns nil does the same thing
    to whatever record it is given: there is one [delta], with at least one
    sky layer, that it applies to every record.  Decoding again into the
    record of the first decode keeps the scalar fields and appends the
    weather and sky entries once more. *)
Theorem redecode_appends rawMetar rawDate m m1 :
  Parse rawMetar rawDate m = (m1, Val tt) ->
  exists d,
    (forall n, Parse rawMetar rawDate n = (apply_delta d n, Val tt)) /\
    d_Sky d <> [] /\
    Parse rawMetar rawDate m1
    = (with_Sky (Metar_Sky m1 ++ d_Sky d)
         (with_Weather (Metar_Weather m1 ++ d_Weather d) m1),
       Val tt).
Proof.
  intros H. destruct (summarized_Parse rawMetar rawDate) as [d [res Hd]].
  pose proof (Hd m) as Hm. rewrite H in Hm. inversion Hm; subst.
  exists d. split; [exact Hd|]. split.
  - apply Parse_lists in H.
    destruct H as [m4 [x4 [m5 [idx5 [xw [m6 [idx6 [xs [ws [ss
                     [_ [_ [_ [_ [Hss [Hne [_ HS]]]]]]]]]]]]]]]]].
    simpl in HS. apply app_inv_head in HS. rewrite HS.
    intros ->. inversion Hss as [Hnil|]. apply Hne. symmetry. exact Hnil.
  - rewrite Hd. rewrite apply_delta_twice. reflexivity.
Qed.

Lemma redecode_appends_witness :
  exists d,
    (forall n,
       Parse "YSSY 101234Z VRB05KT 9999 FEW030 20/10 Q1013" "2023/06/10 09:00" n
       = (apply_delta d n, Val tt)) /\
    d_Sky d <> [] /\
    Parse "YSSY 101234Z VRB05KT 9999 FEW030 20/10 Q1013" "2023/06/10 09:00"
      (mkMetar "YSSY" (time.Date 2023 6 10 12 34 0) "" (mkWind true 0 5 0 0 0)
         9999 [] [mkSky "FEW" 30 ""] 20 10 1013)
    = (with_Sky ([mkSky "FEW" 30 ""] ++ d_Sky d)
         (with_Weather ([] ++ d_Weather d)
            (mkMetar "YSSY" (time.Date 2023 6 10 12 34 0) ""
               (mkWind true 0 5 0 0 0) 9999 [] [mkSky "FEW" 30 ""] 20 10 1013)),
       Val tt).
Proof.
  apply (redecode_appends
           "YSSY 101234Z VRB05KT 9999 FEW030 20/10 Q1013" "2023/06/10 09:00"
           Metar0).
  vm_compute. reflexivity.
Defined.

(** C6, as stated, fails when the second decode is given the record of the
    first: both return nil, and the second record has the sky layer twice. *)
Lemma second_decode_differs :
  exists m1 m2,
    Parse "YSSY 101234Z VRB05KT 9999 FEW030 20/10 Q1013" "2023/06/10 09:00"
      Metar0 = (m1, Val tt) /\
    Parse "YSSY 101234Z VRB05KT 9999 FEW030 20/10 Q1013" "2023/06/10 09:00"
      m1 = (m2, Val tt) /\
    Metar_Sky m1 = [mkSky "FEW" 30 ""] /\
    Metar_Sky m2 = [mkSky "FEW" 30 ""; mkSky "FEW" 30 ""] /\
    m2 <> m1.
Proof.
  eexists. eexists. split; [vm_compute; reflexivity|].
  split; [vm_compute; reflexivity|].
  split; [reflexivity|]. split; [reflexivity|]. discriminate.
Qed.

(** ** C2: the record after a failed decode *)

Lemma bind_assoc {A B C} (c : M A) (f : A -> M B) (g : B -> M C) m :
  bind (bind c f) g m = bind c (fun a => bind (f a) g) m.
Proof. unfold bind. destruct (c m) as [m1 [a | msg |]]; reflexivity. Qed.

(** The steps after the station leave the station as it is, whatever they
    return. *)
Lemma after_station_writes rawDate r1 :
  writes_only
    [FTime; FMod; FWind; FVisibility; FWeather; FSky; FTemp; FDewPt; FPressure]
    (bind
       (r2 <- parseTime parsers0 rawDate r1 ;;
        r3 <- parseModifier parsers0 r2 ;; parseWind parsers0 r3)%M
       (fun r4 => r7 <- parseBody parsers0 r4 ;; parseTail parsers0 r7)%M).
Proof.
  apply writes_only_bind; [|intros r4].
  - apply writes_only_bind; [|intros r2].
    + eapply writes_only_weaken; [|apply parseTime_writes]. incl_tac.
    + apply writes_only_bind; [|intros r3].
      * eapply writes_only_weaken; [|apply parseModifier_writes]. incl_tac.
      * eapply writes_only_weaken; [|apply parseWind_writes]. incl_tac.
  - apply writes_only_bind; [|intros r7].
    + eapply writes_only_weaken; [|apply parseBody_writes]. incl_tac.
    + eapply writes_only_weaken; [|apply parseTail_writes]. incl_tac.
Qed.

(** C2, as stated, fails: a report whose wind group does not match makes
    [Parse] return an error, and the record of the caller then holds the
    station and the time the earlier steps wrote. *)
Lemma partial_record_exposed :
  exists m',
    Parse "YSSY 101234Z XXX 9999 FEW030 20/10 Q1013" "2023/06/10 09:00" Metar0
    = (m', Fail "Error parsing metar wind") /\
    Station m' = "YSSY" /\ Time m' = time.Date 2023 6 10 12 34 0 /\
    m' <> Metar0.
Proof.
  eexists. split; [vm_compute; reflexivity|].
  split; [reflexivity|]. split; [reflexivity|]. discriminate.
Qed.

(** * Further properties *)

(** ** What the matcher finds is in the language of the pattern *)

Lemma seg_same whole p : seg whole p p = [].
Proof. unfold seg. now rewrite Nat.sub_diag. Qed.

Lemma firstn_add {A} (l : list A) : forall a b,
  firstn (a + b) l = firstn a l ++ firstn b (skipn a l).
Proof.
  induction l as [|x l IH]; intros a b.
  - now rewrite !firstn_nil, skipn_nil, firstn_nil.
  - destruct a as [|a]; simpl; [reflexivity|]. now rewrite IH.
Qed.

Lemma skipn_add {A} (l : list A) : forall a b,
  skipn a (skipn b l) = skipn (a + b) l.
Proof.
  induction l as [|x l IH]; intros a b.
  - now rewrite !skipn_nil.
  - destruct b as [|b]; simpl.
    + now rewrite Nat.add_0_r.
    + rewrite Nat.add_succ_r. simpl. apply IH.
Qed.

Lemma seg_app whole p q r :
  (p <= q)%nat -> (q <= r)%nat ->
  seg whole p r = seg whole p q ++ seg whole q r.
Proof.
  intros Hpq Hqr. unfold seg.
  replace (r - p)%nat with ((q - p) + (r - q))%nat by lia.
  rewrite firstn_add, skipn_add.
  replace (q - p + p)%nat with q by lia. reflexivity.
Qed.

Lemma at_text_step whole pos x s :
  at_text whole pos (x :: s) ->
  at_text whole (S pos) s /\ seg whole pos (S pos) = [x].
Proof.
  intros [Hs Hle].
  assert (Hlt : (pos < List.length whole)%nat).
  { destruct (Nat.eq_dec pos (List.length whole)) as [->|]; [|lia].
    rewrite skipn_all in Hs. discriminate. }
  split; [split; [|lia]|].
  - change (S pos) with (1 + pos)%nat. rewrite <- skipn_add, Hs. reflexivity.
  - unfold seg. replace (S pos - pos)%nat with 1%nat by lia. now rewrite Hs.
Qed.

Lemma rep_snoc (P : list ascii -> Prop) : forall n t u,
  rep P n t -> P u -> rep P (S n) (t ++ u).
Proof.
  induction n as [|n IH]; intros t u Ht Hu; simpl in *.
  - subst. exists u, []. rewrite app_nil_r. auto.
  - destruct Ht as [a [b [-> [Ha Hb]]]].
    exists a, (b ++ u). rewrite app_assoc. split; [reflexivity|].
    split; [assumption|]. apply IH; assumption.
Qed.

Lemma sets_same c : sets c [] c.
Proof. intros n [H | []]. exact H. Qed.

Lemma sets_trans c G c1 G' c2 :
  sets c G c1 -> sets c1 G' c2 -> sets c (G ++ G') c2.
Proof.
  intros H1 H2 n [Hn | Hn].
  - apply H2. left. apply H1. left. exact Hn.
  - apply in_app_or in Hn. destruct Hn as [Hn | Hn].
    + apply H2. left. apply H1. right. exact Hn.
    + apply H2. right. exact Hn.
Qed.

Lemma sets_weaken c G G' c' : incl G' G -> sets c G c' -> sets c G' c'.
Proof. intros Hi H n [Hn | Hn]; apply H; [left | right]; auto. Qed.

Lemma always_Alt_l a b : incl (always (regexp.Alt a b)) (always a).
Proof. simpl. intros n Hn. apply filter_In in Hn. tauto. Qed.

Lemma always_Alt_r a b : incl (always (regexp.Alt a b)) (always b).
Proof.
  simpl. intros n Hn. apply filter_In in Hn. destruct Hn as [_ Hn].
  apply existsb_exists in Hn. destruct Hn as [k [Hk He]].
  apply Nat.eqb_eq in He. now subst.
Qed.

Section Soundness.

Import regexp.

Variable top : Regexp.
Variable whole : list ascii.

Lemma star_loop_lang a :
  step_lang top whole a (exec a) ->
  incl (caps_of a) (caps_of top) ->
  forall fuel (P : captures -> Prop) pos0 c0 pos s c k res,
    (pos0 <= pos)%nat -> at_text whole pos s ->
    (exists n, rep (lang a) n (seg whole pos0 pos)) ->
    caps_inv top whole c -> sets c0 [] c ->
    kpost_lang top whole (Star a) P pos0 c0 k ->
    star_loop (exec a) k fuel pos s c = Some res -> P res.
Proof.
  intros Ha Hincl. induction fuel as [|fuel IH];
    intros P pos0 c0 pos s c k res Hle Hat Hrep Hinv Hsets Hk H; simpl in H.
  - eapply Hk; eauto.
  - apply orelse_Some in H. destruct H as [H | H]; [|eapply Hk; eauto].
    eapply Ha; [exact Hat | exact Hinv | exact Hincl | | exact H].
    intros pos' s' c' Hle' Hat' Hl Hinv' Hsets' res' H'.
    destruct (pos <? pos')%nat; [|discriminate].
    eapply (IH P pos0 c0 pos' s' c' k); eauto; try lia.
    + destruct Hrep as [n Hn]. exists (S n).
      rewrite (seg_app whole pos0 pos pos') by lia.
      apply rep_snoc; assumption.
    + apply (sets_weaken _ ([] ++ always a) []); [intros x []|].
      eapply sets_trans; eauto.
Qed.

Lemma must_loop_lang a :
  step_lang top whole a (exec a) ->
  incl (caps_of a) (caps_of top) ->
  forall n (P : captures -> Prop) pos0 c0 done pos s c K res,
    (pos0 <= pos)%nat -> at_text whole pos s ->
    rep (lang a) done (seg whole pos0 pos) ->
    caps_inv top whole c ->
    sets c0 (if Nat.eqb done 0 then [] else always a) c ->
    (forall pos' s' c',
       (pos <= pos')%nat -> at_text whole pos' s' ->
       rep (lang a) (done + n) (seg whole pos0 pos') ->
       caps_inv top whole c' ->
       sets c0 (if Nat.eqb (done + n) 0 then [] else always a) c' ->
       forall res, K pos' s' c' = Some res -> P res) ->
    must_loop (exec a) K n pos s c = Some res -> P res.
Proof.
  intros Ha Hincl. induction n as [|n IH];
    intros P pos0 c0 done pos s c K res Hle Hat Hrep Hinv Hsets HK H;
    simpl in H.
  - eapply HK; eauto; rewrite Nat.add_0_r; assumption.
  - eapply Ha; [exact Hat | exact Hinv | exact Hincl | | exact H].
    intros pos' s' c' Hle' Hat' Hl Hinv' Hsets' res' H'.
    eapply (IH P pos0 c0 (S done) pos' s' c' K); eauto; try lia.
    + rewrite (seg_app whole pos0 pos pos') by lia.
      apply rep_snoc; assumption.
    + simpl. intros k [Hk | Hk].
      * apply Hsets'. left. apply Hsets. left. exact Hk.
      * apply Hsets'. right. exact Hk.
    + intros pos2 s2 c2 Hle2 Hat2 Hrep2 Hinv2 Hsets2 res2 H2.
      replace (S done + n)%nat with (done + S n)%nat in Hrep2, Hsets2 by lia.
      eapply (HK pos2 s2 c2);
        [lia | assumption | assumption | assumption | assumption | exact H2].
Qed.

Lemma sets_later c0 G c G' c' : sets c0 G c -> sets c G' c' -> sets c0 G c'.
Proof.
  intros H1 H2 n Hn. apply H2. left. apply H1. exact Hn.
Qed.

Lemma may_loop_lang a :
  step_lang top whole a (exec a) ->
  incl (caps_of a) (caps_of top) ->
  forall m (P : captures -> Prop) pos0 c0 G j pos s c k res,
    (pos0 <= pos)%nat -> at_text whole pos s ->
    rep (lang a) j (seg whole pos0 pos) ->
    caps_inv top whole c -> sets c0 G c ->
    (forall pos' s' c' j',
       (pos <= pos')%nat -> at_text whole pos' s' ->
       (j <= j' <= j + m)%nat -> rep (lang a) j' (seg whole pos0 pos') ->
       caps_inv top whole c' -> sets c0 G c' ->
       forall res, k pos' s' c' = Some res -> P res) ->
    may_loop (exec a) k m pos s c = Some res -> P res.
Proof.
  intros Ha Hincl. induction m as [|m IH];
    intros P pos0 c0 G j pos s c k res Hle Hat Hrep Hinv Hsets HK H;
    simpl in H.
  - eapply (HK pos s c j); eauto; lia.
  - apply orelse_Some in H. destruct H as [H | H];
      [|eapply (HK pos s c j); eauto; lia].
    eapply Ha; [exact Hat | exact Hinv | exact Hincl | | exact H].
    intros pos' s' c' Hle' Hat' Hl Hinv' Hsets' res' H'.
    eapply (IH P pos0 c0 G (S j) pos' s' c' k res'); eauto; try lia.
    + rewrite (seg_app whole pos0 pos pos') by lia.
      apply rep_snoc; assumption.
    + eapply sets_later; eauto.
    + intros pos2 s2 c2 j2 Hle2 Hat2 Hj2 Hrep2 Hinv2 Hsets2 res2 H2.
      eapply (HK pos2 s2 c2 j2); eauto; lia.
Qed.

Lemma incl_app_l {A} (l1 l2 l : list A) : incl (l1 ++ l2) l -> incl l1 l.
Proof. intros H x Hx. apply H, in_or_app. now left. Qed.

Lemma incl_app_r {A} (l1 l2 l : list A) : incl (l1 ++ l2) l -> incl l2 l.
Proof. intros H x Hx. apply H, in_or_app. now right. Qed.

Lemma exec_lang r : step_lang top whole r (exec r).
Proof.
  induction r as [ | a | ranges | | a IHa b IHb | a IHa b IHb | a IHa
                 | a IHa | a IHa | lo hi a IHa | n name a IHa ];
    intros P pos s c k res Hat Hinv Hincl Hk H; simpl in H.
  - eapply (Hk pos s c); [lia | exact Hat | apply seg_same | exact Hinv
                         | apply sets_same | exact H].
  - destruct s as [|x s']; [discriminate|].
    destruct (Ascii.eqb x a) eqn:E; [|discriminate].
    apply Ascii.eqb_eq in E. subst x.
    destruct (at_text_step _ _ _ _ Hat) as [Hat' Hseg].
    eapply (Hk (S pos) s' c); [lia | exact Hat' | exact Hseg | exact Hinv
                              | apply sets_same | exact H].
  - destruct s as [|x s']; [discriminate|].
    destruct (in_class ranges x) eqn:E; [|discriminate].
    destruct (at_text_step _ _ _ _ Hat) as [Hat' Hseg].
    eapply (Hk (S pos) s' c); [lia | exact Hat' | | exact Hinv
                              | apply sets_same | exact H].
    simpl. exists x. auto.
  - destruct (Nat.eqb pos 0); [|discriminate].
    eapply (Hk pos s c); [lia | exact Hat | apply seg_same | exact Hinv
                         | apply sets_same | exact H].
  - simpl in Hincl.
    eapply IHa; [exact Hat | exact Hinv | eapply incl_app_l; exact Hincl | | exact H].
    intros pos1 s1 c1 Hle1 Hat1 Hl1 Hinv1 Hsets1 res1 H1.
    eapply IHb; [exact Hat1 | exact Hinv1 | eapply incl_app_r; exact Hincl | | exact H1].
    intros pos2 s2 c2 Hle2 Hat2 Hl2 Hinv2 Hsets2 res2 H2.
    eapply (Hk pos2 s2 c2); [lia | exact Hat2 | | exact Hinv2 | | exact H2].
    + simpl. exists (seg whole pos pos1), (seg whole pos1 pos2).
      split; [apply seg_app; lia | auto].
    + simpl. eapply sets_trans; eauto.
  - simpl in Hincl. apply orelse_Some in H. destruct H as [H | H].
    + eapply IHa; [exact Hat | exact Hinv | eapply incl_app_l; exact Hincl | | exact H].
      intros pos1 s1 c1 Hle1 Hat1 Hl1 Hinv1 Hsets1 res1 H1.
      eapply (Hk pos1 s1 c1); [lia | exact Hat1 | simpl; auto | exact Hinv1 | | exact H1].
      eapply sets_weaken; [apply always_Alt_l | exact Hsets1].
    + eapply IHb; [exact Hat | exact Hinv | eapply incl_app_r; exact Hincl | | exact H].
      intros pos1 s1 c1 Hle1 Hat1 Hl1 Hinv1 Hsets1 res1 H1.
      eapply (Hk pos1 s1 c1); [lia | exact Hat1 | simpl; auto | exact Hinv1 | | exact H1].
      eapply sets_weaken; [apply always_Alt_r | exact Hsets1].
  - simpl in Hincl. apply orelse_Some in H. destruct H as [H | H].
    + eapply IHa; [exact Hat | exact Hinv | exact Hincl | | exact H].
      intros pos1 s1 c1 Hle1 Hat1 Hl1 Hinv1 Hsets1 res1 H1.
      eapply (Hk pos1 s1 c1); [lia | exact Hat1 | simpl; auto | exact Hinv1 | | exact H1].
      eapply sets_weaken; [|exact Hsets1]. intros x [].
    + eapply (Hk pos s c); [lia | exact Hat | | exact Hinv
                           | apply sets_same | exact H].
      simpl. left. apply seg_same.
  - simpl in Hincl.
    eapply (star_loop_lang a IHa Hincl (List.length s) P pos c pos s c k);
      [lia | exact Hat | | exact Hinv | apply sets_same | exact Hk | exact H].
    exists 0%nat. simpl. apply seg_same.
  - simpl in Hincl.
    eapply IHa; [exact Hat | exact Hinv | exact Hincl | | exact H].
    intros pos1 s1 c1 Hle1 Hat1 Hl1 Hinv1 Hsets1 res1 H1.
    eapply (star_loop_lang a IHa Hincl (List.length s1) P pos1 c1 pos1 s1 c1 k);
      [lia | exact Hat1 | | exact Hinv1 | apply sets_same | | exact H1].
    + exists 0%nat. simpl. apply seg_same.
    + intros pos2 s2 c2 Hle2 Hat2 Hl2 Hinv2 Hsets2 res2 H2.
      eapply (Hk pos2 s2 c2); [lia | exact Hat2 | | exact Hinv2 | | exact H2].
      * simpl. simpl in Hl2. destruct Hl2 as [j Hj]. exists j.
        exists (seg whole pos pos1), (seg whole pos1 pos2).
        split; [apply seg_app; lia | auto].
      * simpl. eapply sets_later; eauto.
  - simpl in Hincl.
    eapply (must_loop_lang a IHa Hincl lo P pos c 0%nat pos s c);
      [lia | exact Hat | simpl; apply seg_same | exact Hinv
      | simpl; apply sets_same | | exact H].
    intros pos1 s1 c1 Hle1 Hat1 Hrep1 Hinv1 Hsets1 res1 H1.
    simpl in Hrep1, Hsets1.
    eapply (may_loop_lang a IHa Hincl (hi - lo) P pos c _ lo pos1 s1 c1 k);
      [lia | exact Hat1 | exact Hrep1 | exact Hinv1 | exact Hsets1 | | exact H1].
    intros pos2 s2 c2 j Hle2 Hat2 Hj Hrep2 Hinv2 Hsets2 res2 H2.
    eapply (Hk pos2 s2 c2); [lia | exact Hat2 | | exact Hinv2 | exact Hsets2 | exact H2].
    simpl. exists j. auto.
  - simpl in Hincl.
    eapply IHa; [exact Hat | exact Hinv | | | exact H].
    { intros x Hx. apply Hincl. now right. }
    intros pos1 s1 c1 Hle1 Hat1 Hl1 Hinv1 Hsets1 res1 H1.
    eapply (Hk pos1 s1 ((n, (pos, pos1)) :: c1));
      [lia | exact Hat1 | exact Hl1 | | | exact H1].
    + intros n' b e [Hin | Hin].
      * inversion Hin; subst. split; [destruct Hat1; lia|].
        exists a. split; [apply Hincl; now left | exact Hl1].
      * apply Hinv1. exact Hin.
    + intros n' Hn'. simpl. destruct (Nat.eqb n n') eqn:E; [discriminate|].
      apply Hsets1. destruct Hn' as [Hn' | [Hn' | Hn']]; [now left | | now right].
      subst. rewrite Nat.eqb_refl in E. discriminate.
Qed.

End Soundness.

(** ** The groups of a match *)

Lemma list_substring : forall x b n,
  list_ascii_of_string (substring b n x)
    = firstn n (skipn b (list_ascii_of_string x)).
Proof.
  induction x as [|c x IH]; intros b n.
  - destruct b, n; reflexivity.
  - destruct b as [|b].
    + destruct n as [|n]; [reflexivity|]. simpl. now rewrite (IH 0%nat n).
    + simpl. apply IH.
Qed.

Lemma lookup_cap_In n c : forall b e,
  regexp.lookup_cap n c = Some (b, e) -> In (n, (b, e)) c.
Proof.
  induction c as [|[k v] c IH]; intros b e H; simpl in H; [discriminate|].
  destruct (Nat.eqb k n) eqn:E.
  - apply Nat.eqb_eq in E. inversion H; subst. now left.
  - right. now apply IH.
Qed.

Lemma match_at_lang re whole pos s c :
  at_text whole pos s -> regexp.match_at re pos s = Some c ->
  exists e c', c = (0%nat, (pos, e)) :: c' /\
               caps_inv (regexp.expr re) whole c' /\
               sets [] (always (regexp.expr re)) c'.
Proof.
  intros Hpos H. unfold regexp.match_at in H.
  eapply (exec_lang (regexp.expr re) whole (regexp.expr re)
            (fun c => exists e c', c = (0%nat, (pos, e)) :: c' /\
               caps_inv (regexp.expr re) whole c' /\
               sets [] (always (regexp.expr re)) c'));
    [exact Hpos | | apply incl_refl | | exact H].
  - intros n b e [].
  - intros pos' s' c' _ _ _ Hinv Hsets res' H'. inversion H'; subst.
    exists pos', c'. auto.
Qed.

Lemma search_lang re whole : forall s pos c,
  at_text whole pos s -> regexp.search re pos s = Some c ->
  exists b e c', c = (0%nat, (b, e)) :: c' /\
                 caps_inv (regexp.expr re) whole c' /\
                 sets [] (always (regexp.expr re)) c'.
Proof.
  induction s as [|x s IH]; intros pos c Hpos H; simpl in H.
  - destruct (regexp.match_at re pos []) eqn:E; [|discriminate].
    inversion H; subst. apply (match_at_lang _ whole) in E; [|assumption].
    destruct E as [e [c' E]]. exists pos, e, c'. exact E.
  - destruct (regexp.match_at re pos (x :: s)) eqn:E.
    + inversion H; subst. apply (match_at_lang _ whole) in E; [|assumption].
      destruct E as [e [c' E]]. exists pos, e, c'. exact E.
    + apply IH in H; [assumption|]. apply at_text_step in Hpos. tauto.
Qed.

Lemma In_bodies top g a : In (g, a) (caps_of top) -> In a (bodies top g).
Proof.
  intros H. unfold bodies. apply in_map_iff. exists (g, a).
  split; [reflexivity|]. apply filter_In. split; [assumption|].
  simpl. apply Nat.eqb_refl.
Qed.

(** The index vector of captures that satisfy the invariant. *)
Lemma indices_sound r x b e c' :
  caps_inv (regexp.expr r) (list_ascii_of_string x) c' ->
  sets [] (always (regexp.expr r)) c' ->
  groups_sound r x (regexp.indices (regexp.numCap r) ((0%nat, (b, e)) :: c')).
Proof.
  intros Hinv Hsets. split.
  - intros g Hg Hle. unfold group.
    destruct (indices_nth (regexp.numCap r) ((0%nat, (b, e)) :: c') g)
      as [H1 H2].
    rewrite H1, H2. apply Nat.leb_le in Hle. rewrite Hle.
    unfold regexp.span.
    assert (Hs : regexp.lookup_cap g ((0%nat, (b, e)) :: c') <> None).
    { destruct g as [|g']; simpl; [discriminate|].
      apply Hsets. now right. }
    destruct (regexp.lookup_cap g ((0%nat, (b, e)) :: c')) as [[b1 e1]|];
      [|congruence].
    simpl fst. simpl snd.
    destruct (Z.eqb_spec (Z.of_nat b1) (-1)); [lia|].
    destruct (Z.eqb_spec (Z.of_nat e1) (-1)); [lia|]. discriminate.
  - intros g t Hg H. unfold group in H.
    destruct (indices_nth (regexp.numCap r) ((0%nat, (b, e)) :: c') g)
      as [H1 H2].
    rewrite H1, H2 in H.
    destruct (g <=? regexp.numCap r)%nat; [|discriminate].
    unfold regexp.span in H. simpl regexp.lookup_cap in H.
    destruct g as [|g]; [lia|]. simpl Nat.eqb in H.
    destruct (regexp.lookup_cap (S g) c') as [[b1 e1]|] eqn:E.
    + simpl fst in H. simpl snd in H.
      destruct (Z.eqb_spec (Z.of_nat b1) (-1)); [lia|].
      destruct (Z.eqb_spec (Z.of_nat e1) (-1)); [lia|].
      simpl orb in H. cbv iota in H. inversion H; subst.
      apply lookup_cap_In in E. apply Hinv in E.
      destruct E as [Hle [a [Ha Hl]]].
      exists a. split; [now apply In_bodies|].
      rewrite list_substring, Nat2Z.id.
      replace (Z.to_nat (Z.of_nat e1 - Z.of_nat b1)) with (e1 - b1)%nat by lia.
      exact Hl.
    + simpl in H. discriminate.
Qed.

Lemma Find_sound r x idx :
  regexp.FindStringSubmatchIndex r x = Some idx -> groups_sound r x idx.
Proof.
  unfold regexp.FindStringSubmatchIndex. intros H.
  destruct (regexp.search r 0 (list_ascii_of_string x)) as [c|] eqn:E;
    [|discriminate].
  inversion H; subst.
  apply (search_lang r (list_ascii_of_string x)) in E;
    [|split; [reflexivity | lia]].
  destruct E as [b [e [c' [-> [Hinv Hsets]]]]].
  now apply indices_sound.
Qed.

Lemma allMatches_sound r x : forall fuel pos prev,
  Forall (groups_sound r x)
    (regexp.allMatches fuel r (list_ascii_of_string x) pos prev).
Proof.
  induction fuel as [|fuel IH]; intros pos prev; simpl; [constructor|].
  destruct (_ <? pos)%nat eqn:Hlt; [constructor|].
  apply Nat.ltb_ge in Hlt.
  destruct (regexp.search r pos _) as [c|] eqn:E; [|constructor].
  apply (search_lang r (list_ascii_of_string x)) in E;
    [|split; [reflexivity | assumption]].
  destruct E as [b [e [c' [-> [Hinv Hsets]]]]].
  pose proof (indices_sound r x b e c' Hinv Hsets) as Hm.
  simpl regexp.lookup_cap. cbv iota beta.
  destruct (Nat.eqb e pos).
  - destruct (match prev with Some p => negb (Nat.eqb b p) | None => true end);
      simpl; [constructor; [assumption|]|]; apply IH.
  - constructor; [assumption | apply IH].
Qed.

Lemma matches_sound r x : Forall (groups_sound r x) (matches r x).
Proof.
  unfold matches, regexp.FindAllStringSubmatchIndex.
  pose proof (allMatches_sound r x
                (S (S (List.length (list_ascii_of_string x)))) 0%nat None)
    as Hm.
  destruct (regexp.allMatches _ r _ 0 None); [constructor | exact Hm].
Qed.

(** ** What a pattern tells about its texts *)

Lemma In_all_ascii c : In c all_ascii.
Proof.
  unfold all_ascii. apply in_map_iff. exists (nat_of_ascii c).
  split; [apply ascii_nat_embedding|]. apply in_seq.
  pose proof (nat_ascii_bounded c). lia.
Qed.

Lemma rep_all (P Q : list ascii -> Prop) :
  Q [] -> (forall u v, P u -> Q v -> Q (u ++ v)) ->
  forall n t, rep P n t -> Q t.
Proof.
  intros Q0 Qapp. induction n as [|n IH]; intros t H; simpl in H.
  - now subst.
  - destruct H as [u [v [-> [Hu Hv]]]]. apply Qapp; auto.
Qed.

Lemma chars_in_lang p : forall r t,
  chars_in p r = true -> lang r t -> forallb p t = true.
Proof.
  induction r as [| a | ranges | | a IHa b IHb | a IHa b IHb | a IHa | a IHa
                  | a IHa | lo hi a IHa | n name a IHa];
    intros t Hc Hl; cbn [chars_in] in Hc; cbn [lang] in Hl.
  - now subst.
  - subst. simpl. now rewrite Hc.
  - destruct Hl as [x [-> Hx]]. simpl. rewrite forallb_forall in Hc.
    specialize (Hc x (In_all_ascii x)). rewrite Hx in Hc. simpl in Hc.
    now rewrite Hc.
  - now subst.
  - apply andb_true_iff in Hc. destruct Hc as [Ha Hb].
    destruct Hl as [u [v [-> [Hu Hv]]]]. rewrite forallb_app.
    rewrite (IHa u Ha Hu), (IHb v Hb Hv). reflexivity.
  - apply andb_true_iff in Hc. destruct Hc as [Ha Hb].
    destruct Hl as [Hl|Hl]; auto.
  - destruct Hl as [->|Hl]; auto.
  - destruct Hl as [n Hl]. revert Hl.
    apply (rep_all (lang a) (fun t => forallb p t = true)); [reflexivity|].
    intros u v Hu Hv. rewrite forallb_app, Hv, (IHa u Hc Hu). reflexivity.
  - destruct Hl as [n Hl]. revert Hl.
    apply (rep_all (lang a) (fun t => forallb p t = true)); [reflexivity|].
    intros u v Hu Hv. rewrite forallb_app, Hv, (IHa u Hc Hu). reflexivity.
  - destruct Hl as [n [_ Hl]]. revert Hl.
    apply (rep_all (lang a) (fun t => forallb p t = true)); [reflexivity|].
    intros u v Hu Hv. rewrite forallb_app, Hv, (IHa u Hc Hu). reflexivity.
  - auto.
Qed.

Lemma rep_min (P : list ascii -> Prop) k :
  (forall u, P u -> (k <= List.length u)%nat) ->
  forall n t, rep P n t -> (n * k <= List.length t)%nat.
Proof.
  intros HP. induction n as [|n IH]; intros t H; simpl in H.
  - subst. simpl. lia.
  - destruct H as [u [v [-> [Hu Hv]]]]. rewrite length_app.
    apply HP in Hu. apply IH in Hv. simpl. lia.
Qed.

Lemma rep_max (P : list ascii -> Prop) k :
  (forall u, P u -> (List.length u <= k)%nat) ->
  forall n t, rep P n t -> (List.length t <= n * k)%nat.
Proof.
  intros HP. induction n as [|n IH]; intros t H; simpl in H.
  - subst. simpl. lia.
  - destruct H as [u [v [-> [Hu Hv]]]]. rewrite length_app.
    apply HP in Hu. apply IH in Hv. simpl. lia.
Qed.

Lemma min_len_lang : forall r t,
  lang r t -> (min_len r <= List.length t)%nat.
Proof.
  induction r as [| a | ranges | | a IHa b IHb | a IHa b IHb | a IHa | a IHa
                  | a IHa | lo hi a IHa | n name a IHa];
    intros t Hl; cbn [lang] in Hl; cbn [min_len].
  - lia.
  - subst. simpl. lia.
  - destruct Hl as [x [-> _]]. simpl. lia.
  - lia.
  - destruct Hl as [u [v [-> [Hu Hv]]]]. rewrite length_app.
    apply IHa in Hu. apply IHb in Hv. lia.
  - destruct Hl as [Hl|Hl]; [apply IHa in Hl | apply IHb in Hl]; lia.
  - lia.
  - lia.
  - destruct Hl as [n Hl]. apply (rep_min _ _ IHa) in Hl. simpl in Hl. lia.
  - destruct Hl as [n [Hn Hl]]. apply (rep_min _ _ IHa) in Hl. nia.
  - auto.
Qed.

Lemma max_len_lang : forall r t k,
  max_len r = Some k -> lang r t -> (List.length t <= k)%nat.
Proof.
  induction r as [| a | ranges | | a IHa b IHb | a IHa b IHb | a IHa | a IHa
                  | a IHa | lo hi a IHa | n name a IHa];
    intros t k Hm Hl; cbn [lang] in Hl; cbn [max_len] in Hm.
  - subst. simpl. lia.
  - subst. inversion Hm. simpl. lia.
  - destruct Hl as [x [-> _]]. inversion Hm. simpl. lia.
  - subst. simpl. lia.
  - destruct (max_len a) as [x|]; [|discriminate].
    destruct (max_len b) as [y|]; [|discriminate]. inversion Hm; subst.
    destruct Hl as [u [v [-> [Hu Hv]]]]. rewrite length_app.
    apply (IHa _ x eq_refl) in Hu. apply (IHb _ y eq_refl) in Hv. lia.
  - destruct (max_len a) as [x|]; [|discriminate].
    destruct (max_len b) as [y|]; [|discriminate]. inversion Hm; subst.
    destruct Hl as [Hl|Hl];
      [apply (IHa _ x eq_refl) in Hl | apply (IHb _ y eq_refl) in Hl]; lia.
  - destruct Hl as [->|Hl]; [simpl; lia | eauto].
  - discriminate.
  - discriminate.
  - destruct (max_len a) as [x|]; [|discriminate]. inversion Hm; subst.
    destruct Hl as [n [Hn Hl]].
    apply (rep_max _ x (fun u Hu => IHa u x eq_refl Hu)) in Hl. nia.
  - eauto.
Qed.

Lemma words_lang : forall r t L,
  words r = Some L -> lang r t -> In t L.
Proof.
  induction r as [| a | ranges | | a IHa b IHb | a IHa b IHb | a IHa | a IHa
                  | a IHa | lo hi a IHa | n name a IHa];
    intros t L Hw Hl; cbn [lang] in Hl; cbn [words] in Hw; try discriminate.
  - inversion Hw; subst. now left.
  - inversion Hw; subst. now left.
  - assert (HL := f_equal (fun o => match o with Some l => l | None => L end)
                    Hw).
    cbv beta iota in HL. rewrite <- HL. destruct Hl as [x [-> Hx]].
    apply in_map_iff. exists x. split; [reflexivity|].
    apply filter_In. split; [apply In_all_ascii | assumption].
  - inversion Hw; subst. now left.
  - destruct (words a) as [la|]; [|discriminate].
    destruct (words b) as [lb|]; [|discriminate]. inversion Hw; subst.
    destruct Hl as [u [v [-> [Hu Hv]]]].
    apply in_flat_map. exists u. split; [eauto|].
    apply in_map_iff. exists v. split; [reflexivity | eauto].
  - destruct (words a) as [la|]; [|discriminate].
    destruct (words b) as [lb|]; [|discriminate]. inversion Hw; subst.
    apply in_or_app. destruct Hl as [Hl|Hl]; eauto.
  - destruct (words a) as [la|]; [|discriminate]. inversion Hw; subst.
    destruct Hl as [->|Hl]; [now left | right; eauto].
  - eauto.
Qed.

(** ** Decimal conversion *)

Lemma length_string s :
  List.length (list_ascii_of_string s) = String.length s.
Proof. induction s; simpl; congruence. Qed.

Lemma digits_value : forall s acc,
  forallb regexp.is_digit (list_ascii_of_string s) = true -> 0 <= acc ->
  exists v, strconv.digits s acc = Some v /\
            acc * 10 ^ Z.of_nat (String.length s) <= v
              < (acc + 1) * 10 ^ Z.of_nat (String.length s).
Proof.
  induction s as [|c s IH]; intros acc Hd Hacc.
  - exists acc. simpl. split; [reflexivity | lia].
  - simpl in Hd. apply andb_true_iff in Hd. destruct Hd as [Hc Hs].
    simpl strconv.digits. rewrite Hc.
    assert (Hv : 0 <= Z.of_nat (nat_of_ascii c) - 48 <= 9).
    { unfold regexp.is_digit in Hc. apply andb_true_iff in Hc.
      destruct Hc as [H1 H2]. apply Nat.leb_le in H1, H2. lia. }
    destruct (IH (10 * acc + (Z.of_nat (nat_of_ascii c) - 48)) Hs)
      as [v [Ev Hb]]; [lia|].
    exists v. split; [exact Ev|].
    change (String.length (String c s)) with (S (String.length s)).
    rewrite Nat2Z.inj_succ, Z.pow_succ_r by lia.
    assert (0 < 10 ^ Z.of_nat (String.length s)) by (apply Z.pow_pos_nonneg; lia).
    nia.
Qed.

Lemma Atoi_digit_first c s :
  regexp.is_digit c = true ->
  strconv.Atoi (String c s)
    = match strconv.unsigned (String c s) with
      | Some n =>
          if (strconv.minInt <=? n) && (n <=? strconv.maxInt) then Some n
          else None
      | None => None
      end.
Proof.
  destruct c as [[] [] [] [] [] [] [] []]; intros H;
    try discriminate H; reflexivity.
Qed.

(** A run of one to eighteen digits converts, to a value below the power of
    ten of its length. *)
Lemma Atoi_digits s :
  forallb regexp.is_digit (list_ascii_of_string s) = true ->
  (1 <= String.length s <= 18)%nat ->
  exists v, strconv.Atoi s = Some v /\
            0 <= v < 10 ^ Z.of_nat (String.length s).
Proof.
  intros Hd Hlen. destruct s as [|c s]; [simpl in Hlen; lia|].
  pose proof Hd as Hd'. simpl in Hd'. apply andb_true_iff in Hd'.
  rewrite Atoi_digit_first by tauto.
  destruct (digits_value (String c s) 0 Hd) as [v [Ev Hb]]; [lia|].
  unfold strconv.unsigned. rewrite Ev. exists v.
  assert (Hp : 10 ^ Z.of_nat (String.length (String c s)) <= 10 ^ 18).
  { apply Z.pow_le_mono_r; lia. }
  assert (Hr : (strconv.minInt <=? v) && (v <=? strconv.maxInt) = true).
  { apply andb_true_iff. split; apply Z.leb_le.
    - assert (strconv.minInt <= 0) by (vm_compute; discriminate). lia.
    - assert (10 ^ 18 <= strconv.maxInt) by (vm_compute; discriminate). lia. }
  rewrite Hr. split; [reflexivity | lia].
Qed.

(** A text that starts with neither a digit nor a sign does not convert. *)
Lemma Atoi_no_number c s :
  regexp.is_digit c = false -> c <> "-"%char -> c <> "+"%char ->
  strconv.Atoi (String c s) = None.
Proof.
  intros Hd Hm Hp.
  destruct c as [[] [] [] [] [] [] [] []];
    try discriminate Hd; try (exfalso; apply Hm; reflexivity);
    try (exfalso; apply Hp; reflexivity); reflexivity.
Qed.

(** ** The groups of the patterns of the table *)

Lemma Find_groups key x idx :
  regexp.FindStringSubmatchIndex (re key) x = Some idx ->
  match_of (regexp.numCap (re key)) x idx /\ groups_sound (re key) x idx.
Proof.
  intros H. split; [now apply Find_match_of | now apply Find_sound].
Qed.

Lemma matches_groups key x idx :
  In idx (matches (re key) x) ->
  match_of (regexp.numCap (re key)) x idx /\ groups_sound (re key) x idx.
Proof.
  intros H. split.
  - destruct (matches_match_of (re key) x) as [Hm _].
    rewrite Forall_forall in Hm. auto.
  - pose proof (matches_sound (re key) x) as Hs.
    rewrite Forall_forall in Hs. auto.
Qed.

Lemma group_lang r x idx g t body :
  groups_sound r x idx -> (1 <= g)%nat ->
  bodies (regexp.expr r) g = [body] ->
  group x idx g = Some t -> lang body (list_ascii_of_string t).
Proof.
  intros [_ H] Hg Hb Ht. destruct (H g t Hg Ht) as [a [Ha Hl]].
  rewrite Hb in Ha. destruct Ha as [<-|[]]. exact Hl.
Qed.

Lemma group_set r x idx g :
  groups_sound r x idx ->
  existsb (Nat.eqb g) (always (regexp.expr r)) = true ->
  (g <=? regexp.numCap r)%nat = true ->
  exists t, group x idx g = Some t.
Proof.
  intros [H _] Hg Hle. apply existsb_exists in Hg.
  destruct Hg as [g' [Hin Heq]]. apply Nat.eqb_eq in Heq. subst g'.
  apply Nat.leb_le in Hle. specialize (H g Hin Hle).
  destruct (group x idx g) as [t|]; [eauto | congruence].
Qed.

(** A group whose body holds digits only, at least one and at most [k],
    converts to a number below [10 ^ k]. *)
Lemma group_number r x idx g t body k :
  groups_sound r x idx -> (1 <= g)%nat ->
  bodies (regexp.expr r) g = [body] ->
  chars_in regexp.is_digit body = true ->
  (1 <=? min_len body)%nat = true ->
  max_len body = Some k -> (k <=? 18)%nat = true ->
  group x idx g = Some t ->
  exists v, strconv.Atoi t = Some v /\ 0 <= v < 10 ^ Z.of_nat k.
Proof.
  intros Hs Hg Hb Hc Hmin Hmax Hk Ht.
  pose proof (group_lang r x idx g t body Hs Hg Hb Ht) as Hl.
  pose proof (chars_in_lang _ _ _ Hc Hl) as Hd.
  pose proof (min_len_lang _ _ Hl) as H1.
  pose proof (max_len_lang _ _ _ Hmax Hl) as H2.
  rewrite length_string in H1, H2.
  apply Nat.leb_le in Hmin, Hk.
  destruct (Atoi_digits t Hd) as [v [Ev Hv]]; [lia|].
  exists v. split; [assumption|].
  assert (10 ^ Z.of_nat (String.length t) <= 10 ^ Z.of_nat k)
    by (apply Z.pow_le_mono_r; lia).
  lia.
Qed.

(** A group whose body is a closed set of words. *)
Lemma group_word r x idx g t body L :
  groups_sound r x idx -> (1 <= g)%nat ->
  bodies (regexp.expr r) g = [body] ->
  words body = Some L ->
  group x idx g = Some t ->
  In t (map string_of_list_ascii L).
Proof.
  intros Hs Hg Hb Hw Ht.
  pose proof (group_lang r x idx g t body Hs Hg Hb Ht) as Hl.
  apply (words_lang _ _ _ Hw) in Hl.
  apply in_map_iff. exists (list_ascii_of_string t).
  split; [apply string_of_list_ascii_of_string | assumption].
Qed.

(** ** The text left after a step is an end of the text before it *)

Lemma substring_split : forall s n, (n <= String.length s)%nat ->
  s = (substring 0 n s ++ substring n (String.length s - n) s)%string.
Proof.
  induction s as [|c s IH]; intros n Hn.
  - destruct n; reflexivity.
  - destruct n as [|n].
    + change (String.length (String c s) - 0)%nat with (S (String.length s)).
      simpl. now rewrite substring_all.
    + simpl in Hn. simpl. rewrite <- IH by lia. reflexivity.
Qed.

Lemma from_suffix s idx rest :
  from s idx 1 = Val rest -> exists pre, s = (pre ++ rest)%string.
Proof.
  unfold from, at_, bindR. destruct (nth_error idx 1) as [lo|]; [|discriminate].
  unfold slice.
  destruct ((0 <=? lo) && (lo <=? len s) && (len s <=? len s)) eqn:E;
    [|discriminate].
  apply andb_true_iff in E. destruct E as [E _].
  apply andb_true_iff in E. destruct E as [E1 E2].
  apply Z.leb_le in E1, E2. unfold len in *.
  intros H. inversion H. exists (substring 0 (Z.to_nat lo) s).
  replace (Z.to_nat (Z.of_nat (String.length s) - lo))
    with (String.length s - Z.to_nat lo)%nat by lia.
  apply substring_split. lia.
Qed.

Lemma append_assoc (a b c : string) :
  ((a ++ b) ++ c = a ++ (b ++ c))%string.
Proof. induction a as [|x a IH]; simpl; [reflexivity | now rewrite IH]. Qed.

(** ** The steps, outcome by outcome *)

Lemma in_class_upper x : regexp.in_class [("A"%char, "Z"%char)] x = is_upper x.
Proof. unfold regexp.in_class, is_upper. simpl. now rewrite orb_false_r. Qed.

Lemma in_class_upper_digit x :
  regexp.in_class [("A"%char, "Z"%char); ("0"%char, "9"%char)] x
  = is_upper_or_digit x.
Proof.
  unfold regexp.in_class, is_upper_or_digit, is_upper, regexp.is_digit.
  simpl. now rewrite orb_false_r.
Qed.

Lemma parseType_runs x m :
  exists rest pre,
    parseType parsers0 x m = (m, Val rest) /\ x = (pre ++ rest)%string.
Proof.
  rewrite parseType_eq.
  destruct (regexp.FindStringSubmatchIndex (re "type") x) as [idx|] eqn:E.
  - apply Find_match_of in E. destruct (from_match _ _ _ E) as [rest Hr].
    rewrite Hr. destruct (from_suffix _ _ _ Hr) as [pre Hp]. eauto.
  - exists x, ""%string. auto.
Qed.

(** The station: a capital letter and three capital letters or digits. *)
Lemma station_text x idx st :
  regexp.FindStringSubmatchIndex (re "station") x = Some idx ->
  group x idx 1 = Some st ->
  exists a b c d,
    st = String a (String b (String c (String d ""))) /\
    is_upper a = true /\ is_upper_or_digit b = true /\
    is_upper_or_digit c = true /\ is_upper_or_digit d = true.
Proof.
  intros Hf Hg. apply Find_groups in Hf. destruct Hf as [_ Hs].
  pose proof (group_lang _ _ _ 1 st _ Hs (le_n 1) eq_refl Hg) as Hl.
  cbn [lang] in Hl.
  destruct Hl as [u [v [E [[a [-> Ha]] [n [Hn Hr]]]]]].
  assert (n = 3%nat) by lia. subst n. cbn [rep lang] in Hr.
  destruct Hr as [u1 [v1 [-> [[b [-> Hb]] Hr]]]].
  destruct Hr as [u2 [v2 [-> [[c [-> Hc]] Hr]]]].
  destruct Hr as [u3 [v3 [-> [[d [-> Hd]] ->]]]].
  rewrite in_class_upper in Ha. rewrite in_class_upper_digit in Hb, Hc, Hd.
  exists a, b, c, d. split; [|auto].
  rewrite <- (string_of_list_ascii_of_string st), E. reflexivity.
Qed.

Lemma parseStation_runs x m :
  (regexp.FindStringSubmatchIndex (re "station") x = None /\
   parseStation parsers0 x m = (m, Fail "Error parsing station identifier")) \/
  exists idx st rest,
    regexp.FindStringSubmatchIndex (re "station") x = Some idx /\
    group x idx 1 = Some st /\ from x idx 1 = Val rest /\
    parseStation parsers0 x m = (with_Station st m, Val rest).
Proof.
  rewrite parseStation_eq.
  destruct (regexp.FindStringSubmatchIndex (re "station") x) as [idx|] eqn:E;
    [right | left; auto].
  destruct (Find_groups _ _ _ E) as [Hm Hs].
  destruct (group_set _ _ _ 1 Hs eq_refl eq_refl) as [st Hst].
  rewrite (sub_group 1 x idx 1) by (auto; lia). rewrite Hst.
  destruct (from_match _ _ _ Hm) as [rest Hr]. rewrite Hr.
  exists idx, st, rest. auto.
Qed.

Lemma lang_number body t k :
  lang body (list_ascii_of_string t) ->
  chars_in regexp.is_digit body = true ->
  (1 <=? min_len body)%nat = true ->
  max_len body = Some k -> (k <=? 18)%nat = true ->
  exists v, strconv.Atoi t = Some v /\ 0 <= v < 10 ^ Z.of_nat k.
Proof.
  intros Hl Hc Hmin Hmax Hk.
  pose proof (chars_in_lang _ _ _ Hc Hl) as Hd.
  pose proof (min_len_lang _ _ Hl) as H1.
  pose proof (max_len_lang _ _ _ Hmax Hl) as H2.
  rewrite length_string in H1, H2.
  apply Nat.leb_le in Hmin, Hk.
  destruct (Atoi_digits t Hd) as [v [Ev Hv]]; [lia|].
  exists v. split; [assumption|].
  assert (10 ^ Z.of_nat (String.length t) <= 10 ^ Z.of_nat k)
    by (apply Z.pow_le_mono_r; lia).
  lia.
Qed.

(** The time group: three numbers of two digits. *)
Lemma timeOf_runs d x idx :
  regexp.FindStringSubmatchIndex (re "time") x = Some idx ->
  exists dd hh mm day hour min,
    group x idx 1 = Some dd /\ group x idx 2 = Some hh /\
    group x idx 3 = Some mm /\
    strconv.Atoi dd = Some day /\ strconv.Atoi hh = Some hour /\
    strconv.Atoi mm = Some min /\
    0 <= day <= 99 /\ 0 <= hour <= 99 /\ 0 <= min <= 99 /\
    timeOf d x idx
    = match time.Parse dateFormat d with
      | Some t => Val (time.Date (time.Year t) (time.Month t) day hour min 0)
      | None => Fail "Error parsing message time"
      end.
Proof.
  intros Hf. destruct (Find_groups _ _ _ Hf) as [Hm Hs].
  change (regexp.numCap (re "time")) with 3%nat in Hm.
  destruct (group_set _ _ _ 1 Hs eq_refl eq_refl) as [dd Hdd].
  destruct (group_set _ _ _ 2 Hs eq_refl eq_refl) as [hh Hhh].
  destruct (group_set _ _ _ 3 Hs eq_refl eq_refl) as [mm Hmm].
  destruct (group_number _ _ _ 1 dd _ 2 Hs (le_n 1) eq_refl eq_refl eq_refl
              eq_refl eq_refl Hdd) as [day [Ed Hd]].
  destruct (group_number _ _ _ 2 hh _ 2 Hs (le_S _ _ (le_n 1)) eq_refl eq_refl
              eq_refl eq_refl eq_refl Hhh) as [hour [Eh Hh]].
  destruct (group_number _ _ _ 3 mm _ 2 Hs (le_S _ _ (le_S _ _ (le_n 1)))
              eq_refl eq_refl eq_refl eq_refl eq_refl Hmm) as [min [Em Hmn]].
  exists dd, hh, mm, day, hour, min.
  change (10 ^ Z.of_nat 2) with 100 in *.
  repeat (split; [first [assumption | lia]|]).
  unfold timeOf. destruct (time.Parse dateFormat d) as [t|]; [|reflexivity].
  rewrite (sub_group 3 x idx 1), (sub_group 3 x idx 2), (sub_group 3 x idx 3)
    by (auto; lia).
  rewrite Hdd, Hhh, Hmm. unfold Atoi, bindR. rewrite Ed, Eh, Em. reflexivity.
Qed.

Lemma parseTime_runs d x m :
  (regexp.FindStringSubmatchIndex (re "time") x = None /\
   parseTime parsers0 d x m = (m, Fail "Error parsing metar time")) \/
  (time.Parse dateFormat d = None /\
   parseTime parsers0 d x m = (m, Fail "Error parsing message time")) \/
  exists idx t day hour min rest,
    regexp.FindStringSubmatchIndex (re "time") x = Some idx /\
    time.Parse dateFormat d = Some t /\
    0 <= day <= 99 /\ 0 <= hour <= 99 /\ 0 <= min <= 99 /\
    from x idx 1 = Val rest /\
    parseTime parsers0 d x m
    = (with_Time (time.Date (time.Year t) (time.Month t) day hour min 0) m,
       Val rest).
Proof.
  rewrite parseTime_eq.
  destruct (regexp.FindStringSubmatchIndex (re "time") x) as [idx|] eqn:E;
    [right | left; auto].
  destruct (timeOf_runs d x idx E)
    as [dd [hh [mm [day [hour [min [_ [_ [_ [_ [_ [_ [Hd [Hh [Hm Ht]]]]]]]]]]]]]]].
  rewrite Ht. destruct (time.Parse dateFormat d) as [t|]; [right | left; auto].
  apply Find_match_of in E. destruct (from_match _ _ _ E) as [rest Hr].
  rewrite Hr. exists idx, t, day, hour, min, rest. auto 10.
Qed.

(** The modifier: one of fourteen tokens. *)
Lemma modifier_text x idx md :
  regexp.FindStringSubmatchIndex (re "modifier") x = Some idx ->
  group x idx 1 = Some md ->
  In md ["AUTO"; "FINO"; "NIL"; "TEST"; "COR"; "CORR"; "RTD"; "CCA"; "CCB";
         "CCC"; "CCD"; "CCE"; "CCF"; "CCG"].
Proof.
  intros Hf Hg. apply Find_groups in Hf. destruct Hf as [_ Hs].
  eapply group_word in Hg; [ | exact Hs | apply le_n | reflexivity | reflexivity].
  vm_compute in Hg. vm_compute. exact Hg.
Qed.

Lemma parseModifier_runs x m :
  (regexp.FindStringSubmatchIndex (re "modifier") x = None /\
   parseModifier parsers0 x m = (m, Val x)) \/
  exists idx md rest,
    regexp.FindStringSubmatchIndex (re "modifier") x = Some idx /\
    group x idx 1 = Some md /\ from x idx 1 = Val rest /\
    parseModifier parsers0 x m = (with_Mod md m, Val rest).
Proof.
  rewrite parseModifier_eq.
  destruct (regexp.FindStringSubmatchIndex (re "modifier") x) as [idx|] eqn:E;
    [right | left; auto].
  destruct (Find_groups _ _ _ E) as [Hm Hs].
  destruct (group_set _ _ _ 1 Hs eq_refl eq_refl) as [md Hmd].
  rewrite (sub_group 1 x idx 1) by (auto; lia). rewrite Hmd.
  destruct (from_match _ _ _ Hm) as [rest Hr]. rewrite Hr.
  exists idx, md, rest. auto.
Qed.

(** ** Conversions that succeed *)

Lemma digits_bound : forall s acc v,
  strconv.digits s acc = Some v -> 0 <= acc ->
  acc * 10 ^ Z.of_nat (String.length s) <= v
    < (acc + 1) * 10 ^ Z.of_nat (String.length s).
Proof.
  induction s as [|c s IH]; intros acc v H Hacc; cbn [strconv.digits] in H.
  - inversion H; subst. simpl. lia.
  - destruct (regexp.is_digit c) eqn:Hc; [|discriminate].
    assert (Hv : 0 <= Z.of_nat (nat_of_ascii c) - 48 <= 9).
    { unfold regexp.is_digit in Hc. apply andb_true_iff in Hc.
      destruct Hc as [H1 H2]. apply Nat.leb_le in H1, H2. lia. }
    apply IH in H; [|lia].
    change (String.length (String c s)) with (S (String.length s)).
    rewrite Nat2Z.inj_succ, Z.pow_succ_r by lia.
    assert (0 < 10 ^ Z.of_nat (String.length s)) by (apply Z.pow_pos_nonneg; lia).
    nia.
Qed.

Lemma Atoi_no_sign c s :
  (Ascii.eqb c "-" || Ascii.eqb c "+")%char = false ->
  strconv.Atoi (String c s)
    = match strconv.unsigned (String c s) with
      | Some n =>
          if (strconv.minInt <=? n) && (n <=? strconv.maxInt) then Some n
          else None
      | None => None
      end.
Proof.
  destruct c as [[] [] [] [] [] [] [] []]; intros H;
    try discriminate H; reflexivity.
Qed.

(** A text without a sign that converts holds a number below the power of
    ten of its length. *)
Lemma Atoi_bound t v :
  strconv.Atoi t = Some v ->
  match t with
  | String c _ => (Ascii.eqb c "-" || Ascii.eqb c "+")%char = false
  | EmptyString => True
  end ->
  0 <= v < 10 ^ Z.of_nat (String.length t).
Proof.
  destruct t as [|c s]; [discriminate|]. intros H Hc.
  rewrite (Atoi_no_sign c s Hc) in H. unfold strconv.unsigned in H.
  destruct (strconv.digits (String c s) 0) as [n|] eqn:E; [|discriminate].
  destruct ((strconv.minInt <=? n) && (n <=? strconv.maxInt)); [|discriminate].
  inversion H; subst. apply digits_bound in E; lia.
Qed.

Lemma lang_bound body t k v :
  lang body (list_ascii_of_string t) ->
  chars_in (fun c => negb (Ascii.eqb c "-" || Ascii.eqb c "+")%char) body = true ->
  max_len body = Some k ->
  strconv.Atoi t = Some v ->
  0 <= v < 10 ^ Z.of_nat k.
Proof.
  intros Hl Hc Hmax Hv.
  pose proof (chars_in_lang _ _ _ Hc Hl) as Hd.
  pose proof (max_len_lang _ _ _ Hmax Hl) as H2.
  rewrite length_string in H2.
  assert (Hb : 0 <= v < 10 ^ Z.of_nat (String.length t)).
  { apply Atoi_bound; [assumption|]. destruct t as [|c s]; [exact I|].
    simpl in Hd. apply andb_true_iff in Hd. destruct Hd as [Hd _].
    now apply negb_true_iff in Hd. }
  assert (10 ^ Z.of_nat (String.length t) <= 10 ^ Z.of_nat k)
    by (apply Z.pow_le_mono_r; lia).
  lia.
Qed.

Lemma string_of_list (t : string) l :
  list_ascii_of_string t = l -> t = string_of_list_ascii l.
Proof. intros <-. symmetry. apply string_of_list_ascii_of_string. Qed.

(** ** The wind *)

(** The speed: a [P] in front does not convert, so a speed that converts
    has two or three digits. *)
Lemma wind_speed x idx spd v :
  regexp.FindStringSubmatchIndex (re "wind") x = Some idx ->
  group x idx 2 = Some spd -> strconv.Atoi spd = Some v -> 0 <= v <= 999.
Proof.
  intros Hf Hg Hv. apply Find_groups in Hf. destruct Hf as [_ Hs].
  pose proof (group_lang _ _ _ 2 spd _ Hs (le_S _ _ (le_n 1)) eq_refl Hg) as Hl.
  change (10 ^ Z.of_nat 3) with 1000 in *.
  cbn [lang] in Hl. destruct Hl as [[u [w [E [[-> | ->] Hl]]]] | Hl].
  - simpl in E. rewrite <- E in Hl.
    assert (0 <= v < 10 ^ Z.of_nat 3)
      by (eapply lang_bound; [exact Hl | reflexivity | reflexivity | exact Hv]).
    change (10 ^ Z.of_nat 3) with 1000 in *. lia.
  - apply string_of_list in E. subst spd. simpl in Hv.
    rewrite Atoi_no_number in Hv; [discriminate | reflexivity | | ];
      discriminate.
  - assert (0 <= v < 10 ^ Z.of_nat 3)
      by (eapply lang_bound; [exact Hl | reflexivity | reflexivity | exact Hv]).
    change (10 ^ Z.of_nat 3) with 1000 in *. lia.
Qed.

Lemma wind_number x idx g t body v :
  regexp.FindStringSubmatchIndex (re "wind") x = Some idx ->
  (1 <= g)%nat -> bodies (regexp.expr (re "wind")) g = [body] ->
  chars_in (fun c => negb (Ascii.eqb c "-" || Ascii.eqb c "+")%char) body = true ->
  max_len body = Some 3%nat ->
  group x idx g = Some t -> strconv.Atoi t = Some v -> 0 <= v <= 999.
Proof.
  intros Hf Hg Hb Hc Hmax Ht Hv. apply Find_groups in Hf.
  destruct Hf as [_ Hs].
  pose proof (group_lang _ _ _ g t _ Hs Hg Hb Ht) as Hl.
  pose proof (lang_bound _ _ _ _ Hl Hc Hmax Hv) as H.
  change (10 ^ Z.of_nat 3) with 1000 in H. lia.
Qed.

(** The local [wind] of a wind match: direction and speed are always there;
    what converts lies between 0 and 999; the numbers of the variation
    always convert. *)
Lemma windOf_runs x idx :
  regexp.FindStringSubmatchIndex (re "wind") x = Some idx ->
  match windOf x idx with
  | Val w =>
      0 <= Dir w <= 999 /\ 0 <= Spd w <= 999 /\ 0 <= Gust w <= 999 /\
      0 <= VarFrom w <= 999 /\ 0 <= VarTo w <= 999 /\
      (group x idx 4 = None -> Gust w = 0) /\
      (group x idx 7 = None -> VarFrom w = 0) /\
      (group x idx 8 = None -> VarTo w = 0)
  | Fail msg =>
      In msg [ "Error converting wind direction in metar";
               "Error converting wind speed in metar";
               "Error converting gust speed in metar" ]
  | Panic => False
  end.
Proof.
  intros Hf. destruct (Find_groups _ _ _ Hf) as [Hm Hs].
  change (regexp.numCap (re "wind")) with 8%nat in Hm.
  destruct (group_set _ _ _ 1 Hs eq_refl eq_refl) as [dir Hdir].
  destruct (group_set _ _ _ 2 Hs eq_refl eq_refl) as [spd Hspd].
  assert (Hd : forall v, strconv.Atoi dir = Some v -> 0 <= v <= 999).
  { intros v Hv.
    eapply (wind_number x idx 1 dir);
      [exact Hf | lia | reflexivity | reflexivity | reflexivity | exact Hdir
      | exact Hv]. }
  assert (Hsp : forall v, strconv.Atoi spd = Some v -> 0 <= v <= 999).
  { intros v. apply (wind_speed x idx spd v Hf Hspd). }
  assert (Hg : forall s v, group x idx 4 = Some s ->
                 strconv.Atoi s = Some v -> 0 <= v <= 999).
  { intros s v H4 Hv.
    eapply (wind_number x idx 4 s);
      [exact Hf | lia | reflexivity | reflexivity | reflexivity | exact H4
      | exact Hv]. }
  assert (H7 : forall s, group x idx 7 = Some s ->
                 exists v, strconv.Atoi s = Some v /\ 0 <= v <= 999).
  { intros s H.
    destruct (group_number _ _ _ 7 s _ 3 Hs ltac:(lia) eq_refl eq_refl eq_refl
                eq_refl eq_refl H) as [v [Ev Hv]].
    change (10 ^ Z.of_nat 3) with 1000 in Hv. exists v. split; [auto | lia]. }
  assert (H8 : forall s, group x idx 8 = Some s ->
                 exists v, strconv.Atoi s = Some v /\ 0 <= v <= 999).
  { intros s H.
    destruct (group_number _ _ _ 8 s _ 3 Hs ltac:(lia) eq_refl eq_refl eq_refl
                eq_refl eq_refl H) as [v [Ev Hv]].
    change (10 ^ Z.of_nat 3) with 1000 in Hv. exists v. split; [auto | lia]. }
  unfold windOf.
  rewrite (isset_group 8 x idx 1), (sub_group 8 x idx 1) by (auto; lia).
  rewrite Hdir. simpl bindR at 1. cbv beta iota. simpl bindR at 1.
  assert (Hk : forall w0 : Wind,
    0 <= Dir w0 <= 999 -> Spd w0 = 0 -> Gust w0 = 0 -> VarFrom w0 = 0 ->
    VarTo w0 = 0 ->
    match
      (b <- isset idx 4 5 ;;
       wind <- (if b : bool then
                  s <- sub x idx 4 5 ;;
                  wspd <- Atoi s "Error converting wind speed in metar" ;;
                  Val (mkWind (Vrb w0) (Dir w0) wspd (Gust w0)
                         (VarFrom w0) (VarTo w0))
                else Val w0) ;;
       b <- isset idx 8 9 ;;
       wind <- (if b : bool then
                  s <- sub x idx 8 9 ;;
                  gust <- Atoi s "Error converting gust speed in metar" ;;
                  Val (mkWind (Vrb wind) (Dir wind) (Spd wind) gust
                         (VarFrom wind) (VarTo wind))
                else Val wind) ;;
       b <- isset idx 14 15 ;;
       wind <- (if b : bool then
                  s <- sub x idx 14 15 ;;
                  vfrom <- Atoi s "Error converting variable from wind direction in metar" ;;
                  Val (mkWind (Vrb wind) (Dir wind) (Spd wind) (Gust wind)
                         vfrom (VarTo wind))
                else Val wind) ;;
       b <- isset idx 16 17 ;;
       wind <- (if b : bool then
                  s <- sub x idx 16 17 ;;
                  vto <- Atoi s "Error converting variable to wind direction in metar" ;;
                  Val (mkWind (Vrb wind) (Dir wind) (Spd wind) (Gust wind)
                         (VarFrom wind) vto)
                else Val wind) ;;
       Val wind)%R
    with
    | Val w =>
        0 <= Dir w <= 999 /\ 0 <= Spd w <= 999 /\ 0 <= Gust w <= 999 /\
        0 <= VarFrom w <= 999 /\ 0 <= VarTo w <= 999 /\
        (group x idx 4 = None -> Gust w = 0) /\
        (group x idx 7 = None -> VarFrom w = 0) /\
        (group x idx 8 = None -> VarTo w = 0)
    | Fail msg =>
        In msg [ "Error converting wind direction in metar";
                 "Error converting wind speed in metar";
                 "Error converting gust speed in metar" ]
    | Panic => False
    end).
  { intros w0 Hd0 Hs0 Hg0 Hf0 Ht0.
    rewrite (optional_number x idx 2) by (auto; lia). rewrite Hspd.
    destruct (strconv.Atoi spd) as [v|] eqn:Es; [|simpl; auto].
    specialize (Hsp v eq_refl).
    rewrite (optional_number x idx 4) by (auto; lia).
    destruct (group x idx 4) as [s4|] eqn:E4.
    - destruct (strconv.Atoi s4) as [v4|] eqn:Ea4; [|simpl; auto].
      specialize (Hg s4 v4 eq_refl Ea4).
      rewrite (optional_number x idx 7) by (auto; lia).
      destruct (group x idx 7) as [s7|] eqn:E7.
      + destruct (H7 s7 eq_refl) as [v7 [Ea7 Hv7]]. rewrite Ea7.
        rewrite (isset_group 8 x idx 8), (sub_group 8 x idx 8) by (auto; lia).
        destruct (group x idx 8) as [s8|] eqn:E8; simpl.
        * destruct (H8 s8 eq_refl) as [v8 [Ea8 Hv8]]. unfold Atoi.
          rewrite Ea8. simpl. repeat split; try lia; discriminate.
        * repeat split; try lia; try discriminate; auto.
      + rewrite (isset_group 8 x idx 8), (sub_group 8 x idx 8) by (auto; lia).
        destruct (group x idx 8) as [s8|] eqn:E8; simpl.
        * destruct (H8 s8 eq_refl) as [v8 [Ea8 Hv8]]. unfold Atoi.
          rewrite Ea8. simpl. repeat split; try lia; try discriminate; auto.
        * repeat split; try lia; try discriminate; auto.
    - rewrite (optional_number x idx 7) by (auto; lia).
      destruct (group x idx 7) as [s7|] eqn:E7.
      + destruct (H7 s7 eq_refl) as [v7 [Ea7 Hv7]]. rewrite Ea7.
        rewrite (isset_group 8 x idx 8), (sub_group 8 x idx 8) by (auto; lia).
        destruct (group x idx 8) as [s8|] eqn:E8; simpl.
        * destruct (H8 s8 eq_refl) as [v8 [Ea8 Hv8]]. unfold Atoi.
          rewrite Ea8. simpl. repeat split; try lia; try discriminate; auto.
        * repeat split; try lia; try discriminate; auto.
      + rewrite (isset_group 8 x idx 8), (sub_group 8 x idx 8) by (auto; lia).
        destruct (group x idx 8) as [s8|] eqn:E8; simpl.
        * destruct (H8 s8 eq_refl) as [v8 [Ea8 Hv8]]. unfold Atoi.
          rewrite Ea8. simpl. repeat split; try lia; try discriminate; auto.
        * repeat split; try lia; try discriminate; auto. }
  destruct (String.eqb dir "VRB").
  - cbv beta iota. simpl bindR at 1.
    apply (Hk (mkWind true 0 0 0 0 0)); simpl; auto; lia.
  - unfold Atoi at 1. destruct (strconv.Atoi dir) as [v|] eqn:Ed.
    + simpl bindR at 1. simpl bindR at 1.
      apply (Hk (mkWind false v 0 0 0 0)); simpl; auto.
    + simpl. auto.
Qed.

Lemma parseWind_runs x m :
  (exists msg,
     In msg [ "Error parsing metar wind";
              "Error converting wind direction in metar";
              "Error converting wind speed in metar";
              "Error converting gust speed in metar" ] /\
     parseWind parsers0 x m = (m, Fail msg)) \/
  exists idx w rest,
    regexp.FindStringSubmatchIndex (re "wind") x = Some idx /\
    windOf x idx = Val w /\ from x idx 1 = Val rest /\
    parseWind parsers0 x m = (with_Wind w m, Val rest).
Proof.
  rewrite parseWind_eq.
  destruct (regexp.FindStringSubmatchIndex (re "wind") x) as [idx|] eqn:E.
  - pose proof (windOf_runs x idx E) as H.
    destruct (windOf x idx) as [w | msg |] eqn:Ew;
      [right | left | contradiction].
    + apply Find_match_of in E. destruct (from_match _ _ _ E) as [rest Hr].
      rewrite Hr. exists idx, w, rest. auto 10.
    + exists msg. split; [|reflexivity]. simpl in H. simpl. tauto.
  - left. exists "Error parsing metar wind"%string. simpl. auto.
Qed.

(** ** The visibility *)

Lemma length_of_list l :
  String.length (string_of_list_ascii l) = List.length l.
Proof. induction l; simpl; congruence. Qed.

(** The distance of a visibility match has four digits, after an [M] or a
    [P] or not; only without the letter does it convert. *)
Lemma visibility_text x idx t :
  regexp.FindStringSubmatchIndex (re "visibility") x = Some idx ->
  group x idx 2 = Some t ->
  (String.length t = 4%nat /\
   exists v, strconv.Atoi t = Some v /\ 0 <= v <= 9999) \/
  (String.length t = 5%nat /\ strconv.Atoi t = None /\
   exists s, t = String "M" s \/ t = String "P" s).
Proof.
  intros Hf Hg. apply Find_groups in Hf. destruct Hf as [_ Hs].
  pose proof (group_lang _ _ _ 2 t _ Hs (le_S _ _ (le_n 1)) eq_refl Hg) as Hl.
  cbn [lang] in Hl. destruct Hl as [u [w [E [Hu Hw]]]].
  assert (Hlen : List.length w = 4%nat).
  { destruct Hw as [u1 [w1 [-> [[a [-> _]] Hw]]]].
    destruct Hw as [u2 [w2 [-> [[b [-> _]] Hw]]]].
    destruct Hw as [u3 [w3 [-> [[c [-> _]] Hw]]]].
    destruct Hw as [d [-> _]]. reflexivity. }
  destruct Hu as [-> | [-> | ->]].
  - left. simpl in E. rewrite <- E in Hw, Hlen. rewrite length_string in Hlen.
    split; [assumption|].
    destruct (lang_number
                (regexp.Cat (regexp.Class regexp.digit_class)
                   (regexp.Cat (regexp.Class regexp.digit_class)
                      (regexp.Cat (regexp.Class regexp.digit_class)
                         (regexp.Class regexp.digit_class))))
                t 4 Hw eq_refl eq_refl eq_refl eq_refl) as [v [Ev Hv]].
    change (10 ^ Z.of_nat 4) with 10000 in Hv. exists v. split; [auto | lia].
  - right. apply string_of_list in E. subst t. simpl.
    rewrite length_of_list, Hlen. split; [reflexivity|]. split.
    + apply Atoi_no_number; [reflexivity | discriminate | discriminate].
    + eauto.
  - right. apply string_of_list in E. subst t. simpl.
    rewrite length_of_list, Hlen. split; [reflexivity|]. split.
    + apply Atoi_no_number; [reflexivity | discriminate | discriminate].
    + eauto.
Qed.

Lemma visibilityOf_groups x idx :
  match_of 8 x idx ->
  visibilityOf x idx
  = match group x idx 2 with
    | None => Fail "Error parsing metar visibility"
    | Some t => Atoi t "Error converting visibility value in metar"
    end.
Proof.
  intros Hm. unfold visibilityOf.
  rewrite (sub_group 8 x idx 2) by (auto; lia).
  destruct (match_of_group 8 x idx 2 Hm) as [a [b [Ea [Eb H]]]]; [lia|].
  change (2 * 2)%nat with 4%nat in Ea. change (2 * 2 + 1)%nat with 5%nat in Eb.
  unfold at_, bindR. rewrite Ea, Eb.
  destruct H as [[-> [-> Hg]] | [Hab [Hb Hg]]]; rewrite Hg.
  - reflexivity.
  - destruct (Z.eqb_spec a (-1)); [lia|]. destruct (Z.eqb_spec b (-1)); [lia|].
    reflexivity.
Qed.

Lemma parseVisibility_runs x m :
  (exists msg,
     In msg [ "Error parsing metar visibility";
              "Error converting visibility value in metar" ] /\
     parseVisibility parsers0 x m = (m, Fail msg)) \/
  exists idx t v rest,
    regexp.FindStringSubmatchIndex (re "visibility") x = Some idx /\
    group x idx 2 = Some t /\ strconv.Atoi t = Some v /\ 0 <= v <= 9999 /\
    from x idx 1 = Val rest /\
    parseVisibility parsers0 x m = (with_Visibility v m, Val (idx, rest)).
Proof.
  rewrite parseVisibility_eq.
  destruct (regexp.FindStringSubmatchIndex (re "visibility") x) as [idx|] eqn:E.
  - pose proof (Find_match_of _ _ _ E) as Hm.
    change (regexp.numCap (re "visibility")) with 8%nat in Hm.
    rewrite (visibilityOf_groups x idx Hm).
    destruct (group x idx 2) as [t|] eqn:Hg.
    + destruct (visibility_text x idx t E Hg)
        as [[_ [v [Ev Hv]]] | [_ [Ev _]]]; unfold Atoi; rewrite Ev.
      * right. destruct (from_match _ _ _ Hm) as [rest Hr]. rewrite Hr.
        exists idx, t, v, rest. simpl. auto 10.
      * left. eexists. split; [|reflexivity]. simpl. auto.
    + left. eexists. split; [|reflexivity]. simpl. auto.
  - left. eexists. split; [|reflexivity]. simpl. auto.
Qed.

(** ** The weather groups *)

Lemma last_In {A} (l : list A) d : l <> [] -> In (last l d) l.
Proof.
  induction l as [|a l IH]; intros H; [congruence|].
  destruct l as [|b l]; [now left|].
  right. change (last (a :: b :: l) d) with (last (b :: l) d).
  apply IH. discriminate.
Qed.

(** The weather step neither fails nor panics. *)
Lemma parseWeather_runs idx x m :
  exists ws cur pre,
    parseWeather parsers0 (idx, x) m
      = (with_Weather (Metar_Weather m ++ ws) m, Val cur) /\
    x = (pre ++ snd cur)%string.
Proof.
  unfold parseWeather. rewrite bind_lift.
  rewrite FindAll_re by key_ok.
  destruct (regexp.FindAllStringSubmatchIndex (re "weather") x) as [idxs|] eqn:E.
  - apply FindAll_match_of in E. destruct E as [Hne [Hall _]].
    change (regexp.numCap (re "weather")) with 12%nat in Hall.
    rewrite Forall_forall in Hall.
    destruct (rangeWeather_eq x idxs idx m) as [ws [res [Heq [_ [_ Hres]]]]].
    exists ws. unfold bind at 1. rewrite Heq.
    destruct res as [idx' | msg |].
    + destruct Hres as [_ ->]. rewrite bind_lift.
      destruct (from_match _ _ _ (Hall _ (last_In idxs idx Hne))) as [rest Hr].
      rewrite Hr. destruct (from_suffix _ _ _ Hr) as [pre Hp].
      exists (last idxs idx, rest), pre. auto 10.
    + destruct Hres as [i [_ Hf]]. exfalso. apply (weatherOf_fails _ _ _ Hf).
    + destruct Hres as [i [Hi Hp]]. rewrite (weatherOf_groups x i) in Hp;
        [discriminate | auto].
  - exists [], (idx, x), ""%string. rewrite with_Weather_nil. auto.
Qed.

(** ** The sky layers *)

(** The local [sky] of a sky match: the cover is one of ten codes, the
    height, when given, has two to four digits and always converts, the
    cloud type holds capital letters. *)
Lemma skyOf_runs x idx :
  match_of 4 x idx -> groups_sound (re "sky") x idx ->
  exists cover h,
    group x idx 1 = Some cover /\
    In cover ["VV"; "CLR"; "SKC"; "SCK"; "NSC"; "NCD"; "BKN"; "SCT"; "FEW";
              "OVC"] /\
    0 <= h <= 9999 /\ (group x idx 2 = None -> h = 0) /\
    forallb is_upper (list_ascii_of_string (text (group x idx 3))) = true /\
    skyOf x idx = Val (mkSky cover h (text (group x idx 3))).
Proof.
  intros Hm Hs.
  destruct (group_set _ _ _ 1 Hs eq_refl eq_refl) as [cover Hc].
  assert (Hcode : In cover ["VV"; "CLR"; "SKC"; "SCK"; "NSC"; "NCD"; "BKN";
                            "SCT"; "FEW"; "OVC"]).
  { pose proof Hc as Hw.
    eapply group_word in Hw;
      [ | exact Hs | apply le_n | reflexivity | reflexivity].
    vm_compute in Hw. vm_compute. exact Hw. }
  assert (Hup : forallb is_upper
                  (list_ascii_of_string (text (group x idx 3))) = true).
  { destruct (group x idx 3) as [t|] eqn:E3; [|reflexivity].
    pose proof (group_lang _ _ _ 3 t _ Hs ltac:(lia) eq_refl E3) as Hl.
    refine (chars_in_lang is_upper _ _ _ Hl). reflexivity. }
  unfold skyOf.
  rewrite (isset_group 4 x idx 1), (sub_group 4 x idx 1),
    (isset_group 4 x idx 2), (sub_group 4 x idx 2),
    (isset_group 4 x idx 3), (sub_group 4 x idx 3) by (auto; lia).
  rewrite Hc.
  destruct (group x idx 2) as [t|] eqn:E2; simpl.
  - destruct (group_number _ _ _ 2 t _ 4 Hs ltac:(lia) eq_refl eq_refl eq_refl
                eq_refl eq_refl E2) as [v [Ev Hv]].
    change (10 ^ Z.of_nat 4) with 10000 in Hv.
    exists cover, v. unfold Atoi. rewrite Ev. simpl.
    repeat (split; [first [assumption | lia | discriminate | reflexivity]|]).
    destruct (group x idx 3); reflexivity.
  - exists cover, 0.
    repeat (split; [first [assumption | lia | reflexivity]|]).
    destruct (group x idx 3); reflexivity.
Qed.

Lemma Forall2_Forall {A B} (R : A -> B -> Prop) (Q : B -> Prop) :
  forall l1 l2, Forall2 R l1 l2 ->
    (forall a b, In a l1 -> R a b -> Q b) -> Forall Q l2.
Proof.
  induction 1 as [|a b l1 l2 Hab _ IH]; intros H; constructor.
  - apply (H a b); [now left | assumption].
  - apply IH. intros a' b' Hin. apply H. now right.
Qed.

Lemma parseSky_runs idx x m :
  parseSky parsers0 (idx, x) m = (m, Fail "Error parsing metar sky") \/
  exists ss rest pre,
    parseSky parsers0 (idx, x) m
      = (with_Sky (Metar_Sky m ++ ss) m, Val rest) /\
    ss <> [] /\
    Forall (fun sky =>
              In (Cover sky) ["VV"; "CLR"; "SKC"; "SCK"; "NSC"; "NCD"; "BKN";
                              "SCT"; "FEW"; "OVC"] /\
              0 <= Height sky <= 9999 /\
              forallb is_upper (list_ascii_of_string (Cloud sky)) = true) ss /\
    x = (pre ++ rest)%string.
Proof.
  unfold parseSky. rewrite bind_lift.
  rewrite FindAll_re by key_ok.
  destruct (regexp.FindAllStringSubmatchIndex (re "sky") x) as [idxs|] eqn:E.
  - right.
    assert (Hin : forall i, In i idxs ->
              match_of 4 x i /\ groups_sound (re "sky") x i).
    { intros i Hi. apply (matches_groups "sky" x i). unfold matches.
      now rewrite E. }
    apply FindAll_match_of in E. destruct E as [Hne _].
    destruct (rangeSky_eq x idxs idx m) as [ss [res [Heq [_ [Hall Hres]]]]].
    unfold bind at 1. rewrite Heq.
    destruct res as [idx' | msg |].
    + destruct Hres as [Hl ->]. unfold lift.
      rewrite Hl, firstn_all in Hall.
      destruct (Hin _ (last_In idxs idx Hne)) as [Hm _].
      destruct (from_match _ _ _ Hm) as [rest Hr]. rewrite Hr.
      destruct (from_suffix _ _ _ Hr) as [pre Hp].
      exists ss, rest, pre. split; [reflexivity|]. split.
      * intros ->. destruct idxs; [congruence | discriminate].
      * split; [|assumption].
        apply (Forall2_Forall _ _ _ _ Hall). intros i sky Hi Hsky.
        destruct (Hin i Hi) as [Hmi Hsi].
        destruct (skyOf_runs x i Hmi Hsi)
          as [cover [h [_ [Hc [Hh [_ [Hu Hv]]]]]]].
        rewrite Hv in Hsky. inversion Hsky; subst. simpl. auto.
    + destruct Hres as [i [Hi Hf]]. destruct (Hin i Hi) as [Hmi Hsi].
      destruct (skyOf_runs x i Hmi Hsi) as [cover [h [_ [_ [_ [_ [_ Hv]]]]]]].
      rewrite Hv in Hf. discriminate.
    + destruct Hres as [i [Hi Hf]]. destruct (Hin i Hi) as [Hmi Hsi].
      destruct (skyOf_runs x i Hmi Hsi) as [cover [h [_ [_ [_ [_ [_ Hv]]]]]]].
      rewrite Hv in Hf. discriminate.
  - left. reflexivity.
Qed.

(** ** Temperature and dew point *)

Lemma temp_text x idx g str :
  regexp.FindStringSubmatchIndex (re "temp") x = Some idx ->
  g = 1%nat \/ g = 3%nat -> group x idx g = Some str ->
  exists c ds, str = String c ds.
Proof.
  intros Hf Hg Hstr. apply Find_groups in Hf. destruct Hf as [_ Hs].
  assert (Hl : (1 <= List.length (list_ascii_of_string str))%nat).
  { destruct Hg as [-> | ->].
    - apply (min_len_lang _ _
               (group_lang _ _ _ 1 str _ Hs ltac:(lia) eq_refl Hstr)).
    - apply (min_len_lang _ _
               (group_lang _ _ _ 3 str _ Hs ltac:(lia) eq_refl Hstr)). }
  destruct str as [|c ds]; [simpl in Hl; lia | eauto].
Qed.

(** The value of a number with its sign group, by groups: it panics when the
    group of the number is unset, and only then if the text of a set group
    is not empty. *)
Lemma signedOf_runs x idx v sg msg :
  match_of 4 x idx -> (v <= 4)%nat -> (sg <= 4)%nat ->
  signedOf x idx (2 * v) (2 * sg) msg
  = match group x idx v with
    | None => Panic
    | Some str =>
        if match group x idx sg with
           | Some s => String.eqb s "M"
           | None => false
           end
        then match str with
             | String _ ds => Atoi (String "-" ds) msg
             | EmptyString => Panic
             end
        else Atoi str msg
    end.
Proof.
  intros Hm Hv Hsg. unfold signedOf.
  rewrite (sub_group 4 x idx v), (isset_group 4 x idx sg),
    (sub_group 4 x idx sg) by (auto; lia).
  destruct (group x idx v) as [str|]; simpl; [|reflexivity].
  destruct (group x idx sg) as [s|]; simpl; [|reflexivity].
  destruct (String.eqb s "M"); simpl; [|reflexivity].
  rewrite slice_tail. destruct str; reflexivity.
Qed.

Lemma signedOf_set x idx v sg msg str :
  regexp.FindStringSubmatchIndex (re "temp") x = Some idx ->
  (v = 1%nat \/ v = 3%nat) -> (sg <= 4)%nat ->
  group x idx v = Some str ->
  signedOf x idx (2 * v) (2 * sg) msg <> Panic.
Proof.
  intros Hf Hv Hsg Hstr.
  destruct (temp_text x idx v str Hf Hv Hstr) as [c [ds ->]].
  apply Find_match_of in Hf.
  change (regexp.numCap (re "temp")) with 4%nat in Hf.
  rewrite (signedOf_runs x idx v sg msg Hf) by (destruct Hv; lia).
  rewrite Hstr. unfold Atoi.
  destruct (match group x idx sg with Some s => String.eqb s "M" | None => false end).
  - destruct (strconv.Atoi (String "-" ds)); discriminate.
  - destruct (strconv.Atoi (String c ds)); discriminate.
Qed.

Lemma parseTemp_runs x m :
  (regexp.FindStringSubmatchIndex (re "temp") x = None /\
   parseTemp parsers0 x m = (m, Fail "Error parsing metar temperature")) \/
  exists idx,
    regexp.FindStringSubmatchIndex (re "temp") x = Some idx /\
    (parseTemp parsers0 x m
       = (m, Fail "Error converting temperature value in metar") \/
     exists t,
       signedOf x idx 2 4 "Error converting temperature value in metar" = Val t /\
       ((group x idx 3 <> None /\
         parseTemp parsers0 x m
         = (with_Temp t m, Fail "Error converting dew point value in metar")) \/
        (group x idx 3 = None /\
         parseTemp parsers0 x m = (with_Temp t m, Panic)) \/
        exists d rest,
          signedOf x idx 6 8 "Error converting dew point value in metar" = Val d /\
          from x idx 1 = Val rest /\
          parseTemp parsers0 x m = (with_DewPt d (with_Temp t m), Val rest))).
Proof.
  rewrite parseTemp_eq.
  destruct (regexp.FindStringSubmatchIndex (re "temp") x) as [idx|] eqn:E;
    [right | left; auto].
  exists idx. split; [reflexivity|].
  destruct (Find_groups _ _ _ E) as [Hm Hs].
  change (regexp.numCap (re "temp")) with 4%nat in Hm.
  destruct (group_set _ _ _ 1 Hs eq_refl eq_refl) as [str Hstr].
  pose proof (signedOf_set x idx 1 2
                "Error converting temperature value in metar" str E
                (or_introl eq_refl) ltac:(lia) Hstr) as Hnp.
  change (2 * 1)%nat with 2%nat in Hnp. change (2 * 2)%nat with 4%nat in Hnp.
  destruct (signedOf x idx 2 4 "Error converting temperature value in metar")
    as [t | msg |] eqn:Et; [right | left | congruence].
  - exists t. split; [reflexivity|].
    destruct (group x idx 3) as [dstr|] eqn:E3.
    + pose proof (signedOf_set x idx 3 4
                    "Error converting dew point value in metar" dstr E
                    (or_intror eq_refl) ltac:(lia) E3) as Hnd.
      change (2 * 3)%nat with 6%nat in Hnd.
      change (2 * 4)%nat with 8%nat in Hnd.
      destruct (signedOf x idx 6 8 "Error converting dew point value in metar")
        as [d | msg |] eqn:Ed; [right; right | left | congruence].
      * destruct (from_match _ _ _ Hm) as [rest Hr]. rewrite Hr.
        exists d, rest. auto.
      * destruct (signedOf_fails _ _ _ _ _ _ Ed) as [<- | []].
        split; [discriminate | reflexivity].
    + right. left. split; [reflexivity|].
      pose proof (signedOf_runs x idx 3 4
                    "Error converting dew point value in metar" Hm
                    ltac:(lia) ltac:(lia)) as Hd.
      change (2 * 3)%nat with 6%nat in Hd. change (2 * 4)%nat with 8%nat in Hd.
      rewrite E3 in Hd. rewrite Hd. reflexivity.
  - destruct (signedOf_fails _ _ _ _ _ _ Et) as [<- | []]. reflexivity.
Qed.

(** ** The pressure *)

Lemma parsePress_runs x m :
  (exists msg,
     In msg [ "Error parsing metar pressure";
              "Error converting pressure value in metar";
              "Error interpreting metar pressure value" ] /\
     parsePress parsers0 x m = (m, Fail msg)) \/
  exists idx p v,
    regexp.FindStringSubmatchIndex (re "press") x = Some idx /\
    group x idx 1 = Some "Q"%string /\ group x idx 2 = Some p /\
    strconv.Atoi p = Some v /\ 0 <= v <= 9999 /\
    parsePress parsers0 x m = (with_Pressure v m, Val tt).
Proof.
  rewrite parsePress_eq.
  destruct (regexp.FindStringSubmatchIndex (re "press") x) as [idx|] eqn:E.
  - destruct (Find_groups _ _ _ E) as [Hm Hs].
    change (regexp.numCap (re "press")) with 3%nat in Hm.
    rewrite (pressureOf_groups x idx Hm).
    destruct (group_set _ _ _ 2 Hs eq_refl eq_refl) as [p Hp]. rewrite Hp.
    destruct (group x idx 1) as [u|] eqn:E1.
    + destruct (String.eqb_spec u "Q") as [-> | Hu].
      * unfold Atoi. destruct (strconv.Atoi p) as [v|] eqn:Ev.
        -- right. exists idx, p, v.
           pose proof (lang_bound _ _ 4 v
                         (group_lang _ _ _ 2 p _ Hs ltac:(lia) eq_refl Hp)
                         eq_refl eq_refl Ev) as Hv.
           change (10 ^ Z.of_nat 4) with 10000 in Hv.
           repeat (split; [first [reflexivity | assumption | lia]|]).
           reflexivity.
        -- left. eexists. split; [|reflexivity]. simpl. auto.
      * left. eexists. split; [|reflexivity]. simpl. auto.
    + left. eexists. split; [|reflexivity]. simpl. auto.
  - left. eexists. split; [|reflexivity]. simpl. auto.
Qed.

(** ** [Parse], outcome by outcome *)

Lemma bind_Panic {A B} (c : M A) (f : A -> M B) m m' :
  bind c f m = (m', Panic) ->
  c m = (m', Panic) \/
  exists a m1, c m = (m1, Val a) /\ f a m1 = (m', Panic).
Proof.
  unfold bind. destruct (c m) as [m1 [a | msg |]]; intros H.
  - right. eauto.
  - discriminate.
  - left. inversion H. reflexivity.
Qed.

Lemma no_panic_bind {A B} (c : M A) (f : A -> M B) :
  no_panic c -> (forall a, no_panic (f a)) -> no_panic (bind c f).
Proof.
  intros Hc Hf m m' H. apply bind_Panic in H.
  destruct H as [H | [a [m1 [_ H]]]]; [exact (Hc _ _ H) | exact (Hf _ _ _ H)].
Qed.

Lemma errors_in_bind {A B} msgs (c : M A) (f : A -> M B) :
  errors_in msgs c -> (forall a, errors_in msgs (f a)) ->
  errors_in msgs (bind c f).
Proof.
  intros Hc Hf m m' msg H. apply bind_Fail in H.
  destruct H as [H | [a [m1 [_ H]]]]; [exact (Hc _ _ _ H) | exact (Hf _ _ _ _ H)].
Qed.

Ltac live := unfold live_errors; simpl; tauto.

Lemma parseType_safe x :
  no_panic (parseType parsers0 x) /\ errors_in live_errors (parseType parsers0 x).
Proof.
  split; intros m m'; [|intros msg]; intros H;
    destruct (parseType_runs x m) as [rest [pre [E _]]]; rewrite E in H;
    discriminate.
Qed.

Lemma parseStation_safe x :
  no_panic (parseStation parsers0 x) /\
  errors_in live_errors (parseStation parsers0 x).
Proof.
  split; intros m m'; [|intros msg]; intros H;
    destruct (parseStation_runs x m) as [[_ E] | [idx [st [rest [_ [_ [_ E]]]]]]];
    rewrite E in H; try discriminate.
  inversion H; subst. live.
Qed.

Lemma parseTime_safe d x :
  no_panic (parseTime parsers0 d x) /\
  errors_in live_errors (parseTime parsers0 d x).
Proof.
  split; intros m m'; [|intros msg]; intros H;
    destruct (parseTime_runs d x m)
      as [[_ E] | [[_ E] | [idx [t [day [hour [min [rest [_ [_ [_ [_ [_ [_ E]]]]]]]]]]]]]];
    rewrite E in H; try discriminate; inversion H; subst; live.
Qed.

Lemma parseModifier_safe x :
  no_panic (parseModifier parsers0 x) /\
  errors_in live_errors (parseModifier parsers0 x).
Proof.
  split; intros m m'; [|intros msg]; intros H;
    destruct (parseModifier_runs x m)
      as [[_ E] | [idx [md [rest [_ [_ [_ E]]]]]]];
    rewrite E in H; discriminate.
Qed.

Lemma parseWind_safe x :
  no_panic (parseWind parsers0 x) /\
  errors_in live_errors (parseWind parsers0 x).
Proof.
  split; intros m m'; [|intros msg]; intros H;
    destruct (parseWind_runs x m)
      as [[msg0 [Hin E]] | [idx [w [rest [_ [_ [_ E]]]]]]];
    rewrite E in H; try discriminate.
  inversion H; subst. revert Hin. live.
Qed.

Lemma parseVisibility_safe x :
  no_panic (parseVisibility parsers0 x) /\
  errors_in live_errors (parseVisibility parsers0 x).
Proof.
  split; intros m m'; [|intros msg]; intros H;
    destruct (parseVisibility_runs x m)
      as [[msg0 [Hin E]] | [idx [t [v [rest [_ [_ [_ [_ [_ E]]]]]]]]]];
    rewrite E in H; try discriminate.
  inversion H; subst. revert Hin. live.
Qed.

Lemma parseWeather_safe cur :
  no_panic (parseWeather parsers0 cur) /\
  errors_in live_errors (parseWeather parsers0 cur).
Proof.
  destruct cur as [idx x].
  split; intros m m'; [|intros msg]; intros H;
    destruct (parseWeather_runs idx x m) as [ws [cur [pre [E _]]]];
    rewrite E in H; discriminate.
Qed.

Lemma parseSky_safe cur :
  no_panic (parseSky parsers0 cur) /\
  errors_in live_errors (parseSky parsers0 cur).
Proof.
  destruct cur as [idx x].
  split; intros m m'; [|intros msg]; intros H;
    destruct (parseSky_runs idx x m) as [E | [ss [rest [pre [E _]]]]];
    rewrite E in H; try discriminate.
  inversion H; subst. live.
Qed.

Lemma parseTemp_errors x : errors_in live_errors (parseTemp parsers0 x).
Proof.
  intros m m' msg H.
  destruct (parseTemp_runs x m)
    as [[_ E] | [idx [_ [E | [t [_ [[_ E] | [[_ E] | [d [rest [_ [_ E]]]]]]]]]]]];
    rewrite E in H; try discriminate; inversion H; subst; live.
Qed.

Lemma parsePress_safe x :
  no_panic (parsePress parsers0 x) /\
  errors_in live_errors (parsePress parsers0 x).
Proof.
  split; intros m m'; [|intros msg]; intros H;
    destruct (parsePress_runs x m)
      as [[msg0 [Hin E]] | [idx [p [v [_ [_ [_ [_ [_ E]]]]]]]]];
    rewrite E in H; try discriminate.
  inversion H; subst. revert Hin. live.
Qed.

Lemma parseHead_safe r d :
  no_panic (parseHead parsers0 r d) /\
  errors_in live_errors (parseHead parsers0 r d).
Proof.
  unfold parseHead. split.
  - apply no_panic_bind; [apply parseType_safe | intros r1].
    apply no_panic_bind; [apply parseStation_safe | intros r2].
    apply no_panic_bind; [apply parseTime_safe | intros r3].
    apply no_panic_bind; [apply parseModifier_safe | intros r4].
    apply parseWind_safe.
  - apply errors_in_bind; [apply parseType_safe | intros r1].
    apply errors_in_bind; [apply parseStation_safe | intros r2].
    apply errors_in_bind; [apply parseTime_safe | intros r3].
    apply errors_in_bind; [apply parseModifier_safe | intros r4].
    apply parseWind_safe.
Qed.

Lemma parseBody_safe r :
  no_panic (parseBody parsers0 r) /\
  errors_in live_errors (parseBody parsers0 r).
Proof.
  unfold parseBody. split.
  - apply no_panic_bind; [apply parseVisibility_safe | intros c1].
    apply no_panic_bind; [apply parseWeather_safe | intros c2].
    apply parseSky_safe.
  - apply errors_in_bind; [apply parseVisibility_safe | intros c1].
    apply errors_in_bind; [apply parseWeather_safe | intros c2].
    apply parseSky_safe.
Qed.

(** ** The one panic *)

(** X1: [Parse] panics in one place only.  When it panics, the steps up to
    the sky layers have run, the temperature group they leave matches
    without its dew point, and the record holds what those steps wrote and
    the temperature. *)
Theorem panic_is_missing_dew_point rawMetar rawDate m m' :
  Parse rawMetar rawDate m = (m', Panic) ->
  exists m7 x idx t,
    (r <- parseHead parsers0 rawMetar rawDate ;; parseBody parsers0 r)%M m
      = (m7, Val x) /\
    regexp.FindStringSubmatchIndex (re "temp") x = Some idx /\
    group x idx 3 = None /\
    signedOf x idx 2 4 "Error converting temperature value in metar" = Val t /\
    m' = with_Temp t m7.
Proof.
  intros H. rewrite Parse_steps in H. apply bind_Panic in H.
  destruct H as [H | [r4 [m4 [Hh H]]]];
    [exfalso; exact (proj1 (parseHead_safe _ _) _ _ H)|].
  apply bind_Panic in H.
  destruct H as [H | [x [m7 [Hb H]]]];
    [exfalso; exact (proj1 (parseBody_safe _) _ _ H)|].
  unfold parseTail in H. apply bind_Panic in H.
  destruct H as [H | [r8 [m8 [_ H]]]];
    [|exfalso; exact (proj1 (parsePress_safe _) _ _ H)].
  destruct (parseTemp_runs x m7)
    as [[_ E] | [idx [Hf [E | [t [Ht [[_ E] | [[Hg E] | [d [rest [_ [_ E]]]]]]]]]]]];
    rewrite E in H; try discriminate.
  inversion H; subst. exists m7, x, idx, t.
  split; [unfold bind; rewrite Hh; exact Hb | auto].
Qed.

Lemma panic_is_missing_dew_point_witness :
  exists m7 x idx t,
    (r <- parseHead parsers0 "YSSY 101234Z 18010KT 9999 FEW030 M05/ Q1013"
            "2023/06/10 09:00" ;;
     parseBody parsers0 r)%M Metar0 = (m7, Val x) /\
    regexp.FindStringSubmatchIndex (re "temp") x = Some idx /\
    group x idx 3 = None /\
    signedOf x idx 2 4 "Error converting temperature value in metar" = Val t /\
    with_Temp (-5)
      (with_Sky [mkSky "FEW" 30 ""]
         (with_Visibility 9999
            (with_Wind (mkWind false 180 10 0 0 0)
               (with_Time (time.Date 2023 6 10 12 34 0)
                  (with_Station "YSSY" Metar0)))))
    = with_Temp t m7.
Proof.
  apply (panic_is_missing_dew_point
           "YSSY 101234Z 18010KT 9999 FEW030 M05/ Q1013" "2023/06/10 09:00"
           Metar0).
  vm_compute. reflexivity.
Defined.

(** ** The errors [Parse] returns *)

(** X2: an error returned by [Parse] is one of sixteen messages.  The
    patterns leave only digits to the conversions of the day, the hour, the
    minute, the two directions of a wind variation and the cloud height, so
    the six errors of these conversions are never returned. *)
Theorem returned_errors rawMetar rawDate m m' msg :
  Parse rawMetar rawDate m = (m', Fail msg) ->
  In msg live_errors /\
  ~ In msg [ "Error converting day in metar";
             "Error converting hour in metar";
             "Error converting minute in metar";
             "Error converting variable from wind direction in metar";
             "Error converting variable to wind direction in metar";
             "Error converting cloud height value in metar" ].
Proof.
  intros H.
  assert (Hin : In msg live_errors).
  { revert m m' msg H. rewrite Parse_steps.
    apply errors_in_bind; [apply parseHead_safe | intros r4].
    apply errors_in_bind; [apply parseBody_safe | intros r7].
    unfold parseTail.
    apply errors_in_bind; [apply parseTemp_errors | intros r8].
    apply parsePress_safe. }
  split; [assumption|].
  unfold live_errors in Hin. simpl in Hin. simpl.
  intuition (subst; discriminate).
Qed.

Lemma returned_errors_witness :
  In "Error interpreting metar pressure value" live_errors /\
  ~ In "Error interpreting metar pressure value"
      [ "Error converting day in metar";
        "Error converting hour in metar";
        "Error converting minute in metar";
        "Error converting variable from wind direction in metar";
        "Error converting variable to wind direction in metar";
        "Error converting cloud height value in metar" ].
Proof.
  apply (returned_errors "YSSY 101234Z 18010KT 9999 FEW030 20/10 A2992"
           "2023/06/10 09:00" Metar0
           (with_DewPt 10
              (with_Temp 20
                 (with_Sky [mkSky "FEW" 30 ""]
                    (with_Visibility 9999
                       (with_Wind (mkWind false 180 10 0 0 0)
                          (with_Time (time.Date 2023 6 10 12 34 0)
                             (with_Station "YSSY" Metar0)))))))).
  vm_compute. reflexivity.
Defined.

(** ** The station *)

(** X3: whatever [Parse] does after the station step, the station it wrote
    stays.  Unless [Parse] returns the station error, [m.Station] holds four
    bytes when it ends, by a nil error, another error or a panic: a capital
    letter and three capital letters or digits. *)
Theorem station_code_shape rawMetar rawDate m m' res :
  Parse rawMetar rawDate m = (m', res) ->
  res <> Fail "Error parsing station identifier" ->
  exists a b c d,
    Station m' = String a (String b (String c (String d ""))) /\
    is_upper a = true /\ is_upper_or_digit b = true /\
    is_upper_or_digit c = true /\ is_upper_or_digit d = true.
Proof.
  intros H Hres. rewrite Parse_steps in H. unfold parseHead in H.
  rewrite bind_assoc in H. unfold bind at 1 in H.
  destruct (parseType_runs rawMetar m) as [r1 [pre [E1 _]]]. rewrite E1 in H.
  rewrite bind_assoc in H. unfold bind at 1 in H.
  destruct (parseStation_runs r1 m)
    as [[_ E] | [idx [st [rest [Hf [Hg [_ E]]]]]]]; rewrite E in H.
  - inversion H; subst. contradiction Hres. reflexivity.
  - apply after_station_writes in H.
    rewrite (H FStation) by (simpl; intuition discriminate).
    simpl. apply (station_text r1 idx st Hf Hg).
Qed.

Lemma station_code_shape_witness :
  exists a b c d,
    Station
      (with_Temp (-5)
         (with_Sky [mkSky "FEW" 30 ""]
            (with_Visibility 9999
               (with_Wind (mkWind false 180 10 0 0 0)
                  (with_Time (time.Date 2023 6 10 12 34 0)
                     (with_Station "YSSY" Metar0))))))
    = String a (String b (String c (String d ""))) /\
    is_upper a = true /\ is_upper_or_digit b = true /\
    is_upper_or_digit c = true /\ is_upper_or_digit d = true.
Proof.
  apply (station_code_shape "YSSY 101234Z 18010KT 9999 FEW030 M05/ Q1013"
           "2023/06/10 09:00" Metar0 _ Panic).
  - vm_compute. reflexivity.
  - discriminate.
Defined.

(** ** A reference date that does not parse *)

(** X4: the reference date is parsed after the station and the time group
    have matched.  With a reference date that is not in the layout of
    [dateFormat], [Parse] returns the station error and leaves the record as
    it was, or it writes the station and returns the error of the time
    group, if that does not match, or the error of the date. *)
Theorem bad_reference_date rawMetar rawDate m :
  time.Parse dateFormat rawDate = None ->
  Parse rawMetar rawDate m = (m, Fail "Error parsing station identifier") \/
  exists station,
    Parse rawMetar rawDate m
      = (with_Station station m, Fail "Error parsing metar time") \/
    Parse rawMetar rawDate m
      = (with_Station station m, Fail "Error parsing message time").
Proof.
  intros Hd. remember (Parse rawMetar rawDate m) as out eqn:Ho.
  symmetry in Ho. rewrite Parse_steps in Ho. unfold parseHead in Ho.
  rewrite bind_assoc in Ho. unfold bind at 1 in Ho.
  destruct (parseType_runs rawMetar m) as [r1 [pre [E1 _]]]. rewrite E1 in Ho.
  rewrite bind_assoc in Ho. unfold bind at 1 in Ho.
  destruct (parseStation_runs r1 m)
    as [[_ E] | [idx [st [rest [Hf [Hg [_ E]]]]]]]; rewrite E in Ho.
  - left. congruence.
  - right. exists st. rewrite bind_assoc in Ho. unfold bind at 1 in Ho.
    destruct (parseTime_runs rawDate rest (with_Station st m))
      as [[_ Et] | [[_ Et] | [i [t [day [hour [min [r3 [_ [Ht _]]]]]]]]]].
    + left. rewrite Et in Ho. congruence.
    + right. rewrite Et in Ho. congruence.
    + congruence.
Qed.

Lemma bad_reference_date_witness :
  Parse "YSSY 101234Z 18010KT 9999 FEW030 20/10 Q1013" "10 June 2023" Metar0
    = (Metar0, Fail "Error parsing station identifier") \/
  exists station,
    Parse "YSSY 101234Z 18010KT 9999 FEW030 20/10 Q1013" "10 June 2023" Metar0
      = (with_Station station Metar0, Fail "Error parsing metar time") \/
    Parse "YSSY 101234Z 18010KT 9999 FEW030 20/10 Q1013" "10 June 2023" Metar0
      = (with_Station station Metar0, Fail "Error parsing message time").
Proof.
  apply (bad_reference_date "YSSY 101234Z 18010KT 9999 FEW030 20/10 Q1013"
           "10 June 2023" Metar0).
  vm_compute. reflexivity.
Defined.

(** ** The record of a decode that returns nil *)

(** What a decode that returns nil writes, field by field, with what the
    patterns and the conversions tell about each value. *)
Lemma Parse_nil_record rawMetar rawDate m m' :
  Parse rawMetar rawDate m = (m', Val tt) ->
  exists st tm (md : option string) w v ws ss t dp p,
    m' = with_Pressure p
           (with_DewPt dp
              (with_Temp t
                 (with_Sky (Metar_Sky m ++ ss)
                    (with_Weather (Metar_Weather m ++ ws)
                       (with_Visibility v
                          (with_Wind w
                             (match md with
                              | Some s =>
                                  with_Mod s (with_Time tm (with_Station st m))
                              | None => with_Time tm (with_Station st m)
                              end))))))) /\
    (exists t0 day hour min,
       time.Parse dateFormat rawDate = Some t0 /\
       0 <= day <= 99 /\ 0 <= hour <= 99 /\ 0 <= min <= 99 /\
       tm = time.Date (time.Year t0) (time.Month t0) day hour min 0) /\
    (forall s, md = Some s ->
       In s ["AUTO"; "FINO"; "NIL"; "TEST"; "COR"; "CORR"; "RTD"; "CCA"; "CCB";
             "CCC"; "CCD"; "CCE"; "CCF"; "CCG"]) /\
    (0 <= Dir w <= 999 /\ 0 <= Spd w <= 999 /\ 0 <= Gust w <= 999 /\
     0 <= VarFrom w <= 999 /\ 0 <= VarTo w <= 999) /\
    0 <= v <= 9999 /\
    (ss <> [] /\
     Forall (fun sky =>
               In (Cover sky) ["VV"; "CLR"; "SKC"; "SCK"; "NSC"; "NCD"; "BKN";
                               "SCT"; "FEW"; "OVC"] /\
               0 <= Height sky <= 9999 /\
               forallb is_upper (list_ascii_of_string (Cloud sky)) = true) ss) /\
    0 <= p <= 9999.
Proof.
  intros H. apply Parse_decoded in H. destruct H.
  destruct (parseType_runs rawMetar m) as [r1 [pre [E1 _]]].
  rewrite E1 in ran_type. inversion ran_type; subst m_type r_station.
  destruct (parseStation_runs r1 m)
    as [[_ E2] | [i2 [st [r2 [_ [_ [_ E2]]]]]]];
    rewrite E2 in ran_station; [discriminate|].
  inversion ran_station; subst m_station r_time.
  destruct (parseTime_runs rawDate r2 (with_Station st m))
    as [[_ E3] | [[_ E3] | [i3 [t0 [day [hour [min [r3 [_ [Hp [Hd [Hh [Hmi [_ E3]]]]]]]]]]]]]];
    rewrite E3 in ran_time; try discriminate.
  inversion ran_time; subst m_time r_modifier.
  set (tm := time.Date (time.Year t0) (time.Month t0) day hour min 0) in *.
  assert (Hmod : exists md : option string,
            m_modifier
            = match md with
              | Some s => with_Mod s (with_Time tm (with_Station st m))
              | None => with_Time tm (with_Station st m)
              end /\
            forall s, md = Some s ->
              In s ["AUTO"; "FINO"; "NIL"; "TEST"; "COR"; "CORR"; "RTD"; "CCA";
                    "CCB"; "CCC"; "CCD"; "CCE"; "CCF"; "CCG"]).
  { destruct (parseModifier_runs r3 (with_Time tm (with_Station st m)))
      as [[_ E4] | [i4 [s4 [r4 [Hf4 [Hg4 [_ E4]]]]]]];
      rewrite E4 in ran_modifier; inversion ran_modifier; subst.
    - exists None. split; [reflexivity | discriminate].
    - exists (Some s4). split; [reflexivity|].
      intros s Hs. inversion Hs; subst.
      apply (modifier_text r3 i4 s Hf4 Hg4). }
  destruct Hmod as [md [-> Hmd]].
  destruct (parseWind_runs r_wind
              match md with
              | Some s => with_Mod s (with_Time tm (with_Station st m))
              | None => with_Time tm (with_Station st m)
              end)
    as [[msg [_ E5]] | [i5 [w [r5 [Hf5 [Hw [_ E5]]]]]]];
    rewrite E5 in ran_wind; [discriminate|].
  inversion ran_wind; subst m_wind r_visibility.
  pose proof (windOf_runs r_wind i5 Hf5) as Hwb. rewrite Hw in Hwb.
  destruct (parseVisibility_runs r5 (with_Wind w
              match md with
              | Some s => with_Mod s (with_Time tm (with_Station st m))
              | None => with_Time tm (with_Station st m)
              end))
    as [[msg [_ E6]] | [i6 [t6 [v [r6 [_ [_ [_ [Hv [_ E6]]]]]]]]]];
    rewrite E6 in ran_visibility; [discriminate|].
  inversion ran_visibility; subst m_visibility c_weather.
  destruct (parseWeather_runs i6 r6 (with_Visibility v (with_Wind w
              match md with
              | Some s => with_Mod s (with_Time tm (with_Station st m))
              | None => with_Time tm (with_Station st m)
              end)))
    as [ws [cur [pre7 [E7 _]]]].
  rewrite E7 in ran_weather. inversion ran_weather; subst m_weather c_sky.
  destruct cur as [i7 r7].
  match type of ran_sky with parseSky _ _ ?m7 = _ =>
    destruct (parseSky_runs i7 r7 m7) as [E8 | [ss [r8 [pre8 [E8 [Hne [Hsky _]]]]]]]
  end; rewrite E8 in ran_sky; [discriminate|].
  inversion ran_sky; subst m_sky r_temp.
  match type of ran_temp with parseTemp _ _ ?m8 = _ =>
    destruct (parseTemp_runs r8 m8)
      as [[_ E9] | [i9 [_ [E9 | [t [_ [[_ E9] | [[_ E9] | [dp [r9 [_ [_ E9]]]]]]]]]]]]
  end; rewrite E9 in ran_temp; try discriminate.
  inversion ran_temp; subst m_temp r_press.
  match type of ran_press with parsePress _ _ ?m9 = _ =>
    destruct (parsePress_runs r9 m9)
      as [[msg [_ E10]] | [i10 [ptxt [p [_ [_ [_ [_ [Hpb E10]]]]]]]]]
  end; rewrite E10 in ran_press; [discriminate|].
  inversion ran_press; subst m'.
  exists st, tm, md, w, v, ws, ss, t, dp, p.
  split; [destruct md; reflexivity|].
  split; [exists t0, day, hour, min; auto 10|].
  split; [assumption|].
  split; [tauto|].
  split; [assumption|].
  split; [split; assumption | assumption].
Qed.

(** ** The time written *)

(** X5: in a decode that returns nil the day, the hour and the minute given
    to [time.Date] are numbers between 0 and 99, as the two digits of each
    give them: no range is checked, and [time.Date] normalises what is out
    of range. *)
Theorem time_components rawMetar rawDate m m' :
  Parse rawMetar rawDate m = (m', Val tt) ->
  exists t day hour min,
    time.Parse dateFormat rawDate = Some t /\
    0 <= day <= 99 /\ 0 <= hour <= 99 /\ 0 <= min <= 99 /\
    Time m' = time.Date (time.Year t) (time.Month t) day hour min 0.
Proof.
  intros H. apply Parse_nil_record in H.
  destruct H as [st [tm [md [w [v [ws [ss [t [dp [p [-> [Ht _]]]]]]]]]]]].
  destruct Ht as [t0 [day [hour [min [Hp [Hd [Hh [Hm ->]]]]]]]].
  exists t0, day, hour, min.
  repeat (split; [assumption|]). destruct md; reflexivity.
Qed.

Lemma time_components_witness :
  exists t day hour min,
    time.Parse dateFormat "2023/06/10 09:00" = Some t /\
    0 <= day <= 99 /\ 0 <= hour <= 99 /\ 0 <= min <= 99 /\
    Time
      (with_Pressure 1013
         (with_DewPt 10
            (with_Temp 20
               (with_Sky [mkSky "FEW" 30 ""]
                  (with_Visibility 9999
                     (with_Wind (mkWind false 180 10 0 0 0)
                        (with_Time (time.Date 2023 6 99 61 99 0)
                           (with_Station "YSSY" Metar0))))))))
    = time.Date (time.Year t) (time.Month t) day hour min 0.
Proof.
  apply (time_components "YSSY 996199Z 18010KT 9999 FEW030 20/10 Q1013"
           "2023/06/10 09:00" Metar0).
  vm_compute. reflexivity.
Defined.

(** ** The modifier written *)

(** X6: a decode that returns nil leaves [m.Mod] as it was or sets it to one
    of the fourteen tokens of the modifier pattern. *)
Theorem modifier_token rawMetar rawDate m m' :
  Parse rawMetar rawDate m = (m', Val tt) ->
  Mod m' = Mod m \/
  In (Mod m') ["AUTO"; "FINO"; "NIL"; "TEST"; "COR"; "CORR"; "RTD"; "CCA";
               "CCB"; "CCC"; "CCD"; "CCE"; "CCF"; "CCG"].
Proof.
  intros H. apply Parse_nil_record in H.
  destruct H as [st [tm [md [w [v [ws [ss [t [dp [p [-> [_ [Hmd _]]]]]]]]]]]]].
  destruct md as [s|]; [right | left; reflexivity].
  apply (Hmd s eq_refl).
Qed.

Lemma modifier_token_witness :
  Mod (with_Pressure 1013
         (with_DewPt 10
            (with_Temp 20
               (with_Sky [mkSky "FEW" 30 ""]
                  (with_Visibility 9999
                     (with_Wind (mkWind false 180 10 0 0 0)
                        (with_Mod "AUTO"
                           (with_Time (time.Date 2023 6 10 12 34 0)
                              (with_Station "YSSY" Metar0)))))))))
    = Mod Metar0 \/
  In (Mod (with_Pressure 1013
             (with_DewPt 10
                (with_Temp 20
                   (with_Sky [mkSky "FEW" 30 ""]
                      (with_Visibility 9999
                         (with_Wind (mkWind false 180 10 0 0 0)
                            (with_Mod "AUTO"
                               (with_Time (time.Date 2023 6 10 12 34 0)
                                  (with_Station "YSSY" Metar0))))))))))
     ["AUTO"; "FINO"; "NIL"; "TEST"; "COR"; "CORR"; "RTD"; "CCA"; "CCB";
      "CCC"; "CCD"; "CCE"; "CCF"; "CCG"].
Proof.
  apply (modifier_token "YSSY 101234Z AUTO 18010KT 9999 FEW030 20/10 Q1013"
           "2023/06/10 09:00" Metar0).
  vm_compute. reflexivity.
Defined.

(** ** The wind written *)

(** X7: in a decode that returns nil the five numbers of the wind lie
    between 0 and 999: the patterns give each at most three digits, and a
    speed with a [P] in front does not convert. *)
Theorem wind_numbers rawMetar rawDate m m' :
  Parse rawMetar rawDate m = (m', Val tt) ->
  0 <= Dir (Metar_Wind m') <= 999 /\ 0 <= Spd (Metar_Wind m') <= 999 /\
  0 <= Gust (Metar_Wind m') <= 999 /\
  0 <= VarFrom (Metar_Wind m') <= 999 /\ 0 <= VarTo (Metar_Wind m') <= 999.
Proof.
  intros H. apply Parse_nil_record in H.
  destruct H as [st [tm [md [w [v [ws [ss [t [dp [p [-> [_ [_ [Hw _]]]]]]]]]]]]]].
  exact Hw.
Qed.

Lemma wind_numbers_witness :
  0 <= Dir (Metar_Wind
  (with_Pressure 1013
       (with_DewPt 10
          (with_Temp 20
             (with_Sky [mkSky "FEW" 30 ""]
                (with_Visibility 9999
                   (with_Wind (mkWind false 180 10 25 150 210)
                      (with_Time (time.Date 2023 6 10 12 34 0)
                         (with_Station "YSSY" Metar0))))))))) <= 999 /\
  0 <= Spd (Metar_Wind
  (with_Pressure 1013
       (with_DewPt 10
          (with_Temp 20
             (with_Sky [mkSky "FEW" 30 ""]
                (with_Visibility 9999
                   (with_Wind (mkWind false 180 10 25 150 210)
                      (with_Time (time.Date 2023 6 10 12 34 0)
                         (with_Station "YSSY" Metar0))))))))) <= 999 /\
  0 <= Gust (Metar_Wind
  (with_Pressure 1013
       (with_DewPt 10
          (with_Temp 20
             (with_Sky [mkSky "FEW" 30 ""]
                (with_Visibility 9999
                   (with_Wind (mkWind false 180 10 25 150 210)
                      (with_Time (time.Date 2023 6 10 12 34 0)
                         (with_Station "YSSY" Metar0))))))))) <= 999 /\
  0 <= VarFrom (Metar_Wind
  (with_Pressure 1013
       (with_DewPt 10
          (with_Temp 20
             (with_Sky [mkSky "FEW" 30 ""]
                (with_Visibility 9999
                   (with_Wind (mkWind false 180 10 25 150 210)
                      (with_Time (time.Date 2023 6 10 12 34 0)
                         (with_Station "YSSY" Metar0))))))))) <= 999 /\
  0 <= VarTo (Metar_Wind
  (with_Pressure 1013
       (with_DewPt 10
          (with_Temp 20
             (with_Sky [mkSky "FEW" 30 ""]
                (with_Visibility 9999
                   (with_Wind (mkWind false 180 10 25 150 210)
                      (with_Time (time.Date 2023 6 10 12 34 0)
                         (with_Station "YSSY" Metar0))))))))) <= 999.
Proof.
  apply (wind_numbers
           "YSSY 101234Z 18010G25KT 150V210 9999 FEW030 20/10 Q1013"
           "2023/06/10 09:00" Metar0).
  vm_compute. reflexivity.
Defined.

(** ** Visibility and pressure written *)

(** X8: in a decode that returns nil the visibility and the pressure lie
    between 0 and 9999: the distance that converts has four digits, the
    pressure three or four. *)
Theorem visibility_pressure_ranges rawMetar rawDate m m' :
  Parse rawMetar rawDate m = (m', Val tt) ->
  0 <= Visibility m' <= 9999 /\ 0 <= Pressure m' <= 9999.
Proof.
  intros H. apply Parse_nil_record in H.
  destruct H
    as [st [tm [md [w [v [ws [ss [t [dp [p [-> [_ [_ [_ [Hv [_ Hp]]]]]]]]]]]]]]]].
  split; assumption.
Qed.

Lemma visibility_pressure_ranges_witness :
  0 <= Visibility
         (with_Pressure 1013
            (with_DewPt 10
               (with_Temp 20
                  (with_Sky [mkSky "FEW" 30 ""]
                     (with_Visibility 9999
                        (with_Wind (mkWind false 180 10 0 0 0)
                           (with_Time (time.Date 2023 6 10 12 34 0)
                              (with_Station "YSSY" Metar0)))))))) <= 9999 /\
  0 <= Pressure
         (with_Pressure 1013
            (with_DewPt 10
               (with_Temp 20
                  (with_Sky [mkSky "FEW" 30 ""]
                     (with_Visibility 9999
                        (with_Wind (mkWind false 180 10 0 0 0)
                           (with_Time (time.Date 2023 6 10 12 34 0)
                              (with_Station "YSSY" Metar0)))))))) <= 9999.
Proof.
  apply (visibility_pressure_ranges
           "YSSY 101234Z 18010KT 9999 FEW030 20/10 Q1013"
           "2023/06/10 09:00" Metar0).
  vm_compute. reflexivity.
Defined.

(** ** The sky layers written *)

(** X9: a decode that returns nil appends at least one sky layer, and each
    layer it appends has one of the ten cover codes, a height between 0 and
    9999 and a cloud type of capital letters, empty when none is given. *)
Theorem sky_layers rawMetar rawDate m m' :
  Parse rawMetar rawDate m = (m', Val tt) ->
  exists ss,
    Metar_Sky m' = Metar_Sky m ++ ss /\ ss <> [] /\
    Forall (fun sky =>
              In (Cover sky) ["VV"; "CLR"; "SKC"; "SCK"; "NSC"; "NCD"; "BKN";
                              "SCT"; "FEW"; "OVC"] /\
              0 <= Height sky <= 9999 /\
              forallb is_upper (list_ascii_of_string (Cloud sky)) = true) ss.
Proof.
  intros H. apply Parse_nil_record in H.
  destruct H
    as [st [tm [md [w [v [ws [ss [t [dp [p [-> [_ [_ [_ [_ [[Hne Hs] _]]]]]]]]]]]]]]]].
  exists ss. split; [reflexivity|]. split; assumption.
Qed.

Lemma sky_layers_witness :
  exists ss,
    Metar_Sky
      (with_Pressure 1013
         (with_DewPt 10
            (with_Temp 20
               (with_Sky [mkSky "FEW" 30 ""; mkSky "BKN" 100 "CB"]
                  (with_Visibility 9999
                     (with_Wind (mkWind false 180 10 0 0 0)
                        (with_Time (time.Date 2023 6 10 12 34 0)
                           (with_Station "YSSY" Metar0))))))))
    = Metar_Sky Metar0 ++ ss /\ ss <> [] /\
    Forall (fun sky =>
              In (Cover sky) ["VV"; "CLR"; "SKC"; "SCK"; "NSC"; "NCD"; "BKN";
                              "SCT"; "FEW"; "OVC"] /\
              0 <= Height sky <= 9999 /\
              forallb is_upper (list_ascii_of_string (Cloud sky)) = true) ss.
Proof.
  apply (sky_layers "YSSY 101234Z 18010KT 9999 FEW030 BKN100CB 20/10 Q1013"
           "2023/06/10 09:00" Metar0).
  vm_compute. reflexivity.
Defined.

(** ** The cursor moves forward *)

Lemma suffix_trans (a b c p q : string) :
  a = (p ++ b)%string -> b = (q ++ c)%string ->
  exists pre, a = (pre ++ c)%string.
Proof. intros -> ->. exists (p ++ q)%string. symmetry. apply append_assoc. Qed.

Lemma parseHead_suffix rawMetar rawDate m m' x :
  parseHead parsers0 rawMetar rawDate m = (m', Val x) ->
  exists pre, rawMetar = (pre ++ x)%string.
Proof.
  unfold parseHead. intros H.
  apply bind_Val in H. destruct H as [r1 [m1 [H1 H]]].
  apply bind_Val in H. destruct H as [r2 [m2 [H2 H]]].
  apply bind_Val in H. destruct H as [r3 [m3 [H3 H]]].
  apply bind_Val in H. destruct H as [r4 [m4 [H4 H5]]].
  destruct (parseType_runs rawMetar m) as [r1' [p1 [E1 S1]]].
  rewrite E1 in H1. inversion H1; subst r1' m1.
  destruct (parseStation_runs r1 m)
    as [[_ E2] | [i2 [st [r2' [_ [_ [F2 E2]]]]]]];
    rewrite E2 in H2; [discriminate|].
  inversion H2; subst r2' m2. destruct (from_suffix _ _ _ F2) as [p2 S2].
  destruct (parseTime_runs rawDate r2 (with_Station st m))
    as [[_ E3] | [[_ E3] | [i3 [t0 [day [hour [min [r3' [_ [_ [_ [_ [_ [F3 E3]]]]]]]]]]]]]];
    rewrite E3 in H3; try discriminate.
  inversion H3; subst r3'. destruct (from_suffix _ _ _ F3) as [p3 S3].
  assert (S4 : exists p4, r3 = (p4 ++ r4)%string).
  { destruct (parseModifier_runs r3 m3)
      as [[_ E4] | [i4 [s4 [r4' [_ [_ [F4 E4]]]]]]];
      rewrite E4 in H4; inversion H4; subst.
    - exists ""%string. reflexivity.
    - apply (from_suffix _ _ _ F4). }
  destruct S4 as [p4 S4].
  destruct (parseWind_runs r4 m4)
    as [[msg [_ E5]] | [i5 [w [r5 [_ [_ [F5 E5]]]]]]];
    rewrite E5 in H5; [discriminate|].
  inversion H5; subst r5. destruct (from_suffix _ _ _ F5) as [p5 S5].
  destruct (suffix_trans _ _ _ _ _ S1 S2) as [q2 T2].
  destruct (suffix_trans _ _ _ _ _ T2 S3) as [q3 T3].
  destruct (suffix_trans _ _ _ _ _ T3 S4) as [q4 T4].
  exact (suffix_trans _ _ _ _ _ T4 S5).
Qed.

Lemma parseBody_suffix r m m' x :
  parseBody parsers0 r m = (m', Val x) -> exists pre, r = (pre ++ x)%string.
Proof.
  unfold parseBody. intros H.
  apply bind_Val in H. destruct H as [c1 [m1 [H1 H]]].
  apply bind_Val in H. destruct H as [c2 [m2 [H2 H3]]].
  destruct (parseVisibility_runs r m)
    as [[msg [_ E1]] | [i1 [t1 [v [r1 [_ [_ [_ [_ [F1 E1]]]]]]]]]];
    rewrite E1 in H1; [discriminate|].
  inversion H1; subst c1 m1. destruct (from_suffix _ _ _ F1) as [p1 S1].
  destruct (parseWeather_runs i1 r1 (with_Visibility v m))
    as [ws [cur [p2 [E2 S2]]]].
  rewrite E2 in H2. inversion H2; subst c2 m2.
  destruct cur as [i2 r2]. simpl in S2.
  match type of H3 with parseSky _ _ ?m2 = _ =>
    destruct (parseSky_runs i2 r2 m2) as [E3 | [ss [r3 [p3 [E3 [_ [_ S3]]]]]]]
  end; rewrite E3 in H3; [discriminate|].
  inversion H3; subst r3.
  destruct (suffix_trans _ _ _ _ _ S1 S2) as [q2 T2].
  exact (suffix_trans _ _ _ _ _ T2 S3).
Qed.

(** X10: every step hands on an end of the text it was given, so the text
    that reaches the pressure step is an end of the report: the decode reads
    from left to right and never goes back. *)
Theorem text_left_is_an_end rawMetar rawDate m m' x :
  (r <- parseHead parsers0 rawMetar rawDate ;;
   r <- parseBody parsers0 r ;;
   parseTemp parsers0 r)%M m = (m', Val x) ->
  exists pre, rawMetar = (pre ++ x)%string.
Proof.
  intros H.
  apply bind_Val in H. destruct H as [r4 [m4 [H1 H]]].
  apply bind_Val in H. destruct H as [r7 [m7 [H2 H3]]].
  destruct (parseHead_suffix _ _ _ _ _ H1) as [p1 S1].
  destruct (parseBody_suffix _ _ _ _ H2) as [p2 S2].
  destruct (parseTemp_runs r7 m7)
    as [[_ E] | [idx [_ [E | [t [_ [[_ E] | [[_ E] | [d [rest [_ [F E]]]]]]]]]]]];
    rewrite E in H3; try discriminate.
  inversion H3; subst rest. destruct (from_suffix _ _ _ F) as [p3 S3].
  destruct (suffix_trans _ _ _ _ _ S1 S2) as [q2 T2].
  exact (suffix_trans _ _ _ _ _ T2 S3).
Qed.

Lemma text_left_is_an_end_witness :
  exists pre,
    "METAR YSSY 101234Z 18010KT 9999 FEW030 20/10 Q1013"%string
    = (pre ++ "Q1013")%string.
Proof.
  apply (text_left_is_an_end
           "METAR YSSY 101234Z 18010KT 9999 FEW030 20/10 Q1013"
           "2023/06/10 09:00" Metar0
           (with_DewPt 10
              (with_Temp 20
                 (with_Sky [mkSky "FEW" 30 ""]
                    (with_Visibility 9999
                       (with_Wind (mkWind false 180 10 0 0 0)
                          (with_Time (time.Date 2023 6 10 12 34 0)
                             (with_Station "YSSY" Metar0)))))))).
  vm_compute. reflexivity.
Defined.

(** ** Values the patterns admit and the conversions refuse *)

(** X11: the temperature pattern admits [//], [XX] and [MM] for a
    temperature that is missing, and the conversion refuses them: [Parse]
    returns the temperature conversion error, with the record as the sky
    step left it. *)
Theorem missing_temperature_refused rawMetar rawDate m m7 x idx t :
  (r <- parseHead parsers0 rawMetar rawDate ;; parseBody parsers0 r)%M m
    = (m7, Val x) ->
  regexp.FindStringSubmatchIndex (re "temp") x = Some idx ->
  group x idx 1 = Some t ->
  In t ["//"; "XX"; "MM"] ->
  Parse rawMetar rawDate m
    = (m7, Fail "Error converting temperature value in metar").
Proof.
  intros H Hf Hg Ht.
  apply bind_Val in H. destruct H as [r4 [m4 [Hh Hb]]].
  rewrite Parse_steps. unfold bind at 1. rewrite Hh.
  unfold bind at 1. rewrite Hb. unfold parseTail. unfold bind at 1.
  rewrite parseTemp_eq, Hf.
  pose proof (Find_match_of _ _ _ Hf) as Hm.
  change (regexp.numCap (re "temp")) with 4%nat in Hm.
  pose proof (signedOf_runs x idx 1 2
                "Error converting temperature value in metar" Hm
                ltac:(lia) ltac:(lia)) as Hs.
  change (2 * 1)%nat with 2%nat in Hs. change (2 * 2)%nat with 4%nat in Hs.
  rewrite Hs, Hg.
  destruct (match group x idx 2 with
            | Some s => String.eqb s "M"
            | None => false
            end);
    simpl in Ht; destruct Ht as [<- | [<- | [<- | []]]]; reflexivity.
Qed.

Lemma missing_temperature_refused_witness :
  Parse "YSSY 101234Z 18010KT 9999 FEW030 ///10 Q1013" "2023/06/10 09:00"
    Metar0
  = (with_Sky [mkSky "FEW" 30 ""]
       (with_Visibility 9999
          (with_Wind (mkWind false 180 10 0 0 0)
             (with_Time (time.Date 2023 6 10 12 34 0)
                (with_Station "YSSY" Metar0)))),
     Fail "Error converting temperature value in metar").
Proof.
  apply (missing_temperature_refused
           "YSSY 101234Z 18010KT 9999 FEW030 ///10 Q1013" "2023/06/10 09:00"
           Metar0 _ "///10 Q1013" [0; 6; 0; 2; -1; -1; 3; 5; -1; -1] "//").
  - vm_compute. reflexivity.
  - vm_compute. reflexivity.
  - vm_compute. reflexivity.
  - simpl. auto.
Defined.

(** X12: the visibility pattern admits an [M] or a [P] before the four
    digits of the distance, and the conversion refuses the letter: [Parse]
    returns the visibility conversion error, with the record as the wind
    step left it.  A distance of a visibility match has four bytes or five,
    and it converts when it has four. *)
Theorem prefixed_visibility_refused rawMetar rawDate m m4 x idx t :
  parseHead parsers0 rawMetar rawDate m = (m4, Val x) ->
  regexp.FindStringSubmatchIndex (re "visibility") x = Some idx ->
  group x idx 2 = Some t ->
  (String.length t = 4%nat /\ exists v, strconv.Atoi t = Some v) \/
  (String.length t = 5%nat /\
   Parse rawMetar rawDate m
     = (m4, Fail "Error converting visibility value in metar")).
Proof.
  intros Hh Hf Hg.
  destruct (visibility_text x idx t Hf Hg)
    as [[Hl [v [Ev _]]] | [Hl [Ev _]]]; [left; eauto | right].
  split; [assumption|].
  rewrite Parse_steps. unfold bind at 1. rewrite Hh.
  unfold bind at 1. unfold parseBody. unfold bind at 1.
  rewrite parseVisibility_eq, Hf.
  pose proof (Find_match_of _ _ _ Hf) as Hm.
  change (regexp.numCap (re "visibility")) with 8%nat in Hm.
  rewrite (visibilityOf_groups x idx Hm), Hg. unfold Atoi. rewrite Ev.
  reflexivity.
Qed.

Lemma prefixed_visibility_refused_witness :
  (String.length "M0500" = 4%nat /\
   exists v, strconv.Atoi "M0500" = Some v) \/
  (String.length "M0500" = 5%nat /\
   Parse "YSSY 101234Z 18010KT M0500 FEW030 20/10 Q1013" "2023/06/10 09:00"
     Metar0
   = (with_Wind (mkWind false 180 10 0 0 0)
        (with_Time (time.Date 2023 6 10 12 34 0)
           (with_Station "YSSY" Metar0)),
      Fail "Error converting visibility value in metar")).
Proof.
  apply (prefixed_visibility_refused
           "YSSY 101234Z 18010KT M0500 FEW030 20/10 Q1013" "2023/06/10 09:00"
           Metar0 _ "M0500 FEW030 20/10 Q1013"
           [0; 6; 0; 5; 0; 5; 0; 1; -1; -1; -1; -1; -1; -1; -1; -1; -1; -1]).
  - vm_compute. reflexivity.
  - vm_compute. reflexivity.
  - vm_compute. reflexivity.
Defined.

(** ** The report type *)

Lemma star_loop_total step k : 
  (forall pos s c, k pos s c <> None) ->
  forall fuel pos s c, regexp.star_loop step k fuel pos s c <> None.
Proof.
  intros Hk. induction fuel as [|fuel IH]; intros pos s c; simpl.
  - apply Hk.
  - unfold regexp.orelse.
    destruct (step pos s c _); [discriminate | apply Hk].
Qed.

Lemma star_loop_stop step k fuel pos s c :
  (forall k', step pos s c k' = None) ->
  regexp.star_loop step k fuel pos s c = k pos s c.
Proof.
  intros H. destruct fuel as [|fuel]; [reflexivity|].
  simpl. rewrite H. reflexivity.
Qed.

(** A text in which the type pattern finds nothing is empty or starts with
    a byte that is not white space. *)
Lemma type_none rest :
  regexp.FindStringSubmatchIndex (re "type") rest = None ->
  match list_ascii_of_string rest with
  | x :: _ => regexp.in_class regexp.space_class x = false
  | [] => True
  end.
Proof.
  intros H. destruct (list_ascii_of_string rest) as [|x l] eqn:El; [exact I|].
  destruct (regexp.in_class regexp.space_class x) eqn:Hx; [exfalso | reflexivity].
  unfold regexp.FindStringSubmatchIndex in H. rewrite El in H.
  assert (Hm : regexp.match_at (re "type") 0 (x :: l) <> None).
  { unfold regexp.match_at.
    let e := eval vm_compute in (regexp.expr (re "type")) in
      change (regexp.expr (re "type")) with e.
    cbn [regexp.exec Nat.eqb]. unfold regexp.orelse at 1.
    match goal with |- match ?a with _ => _ end <> None => destruct a end;
      [discriminate|].
    match goal with
    | |- context [regexp.in_class ?r x] =>
        change (regexp.in_class r x)
          with (regexp.in_class regexp.space_class x)
    end.
    rewrite Hx. apply star_loop_total. discriminate. }
  cbn [regexp.search] in H.
  destruct (regexp.match_at (re "type") 0 (x :: l)); [discriminate | congruence].
Qed.

Lemma type_found tok rest :
  In tok ["METAR"; "SPECI"] ->
  match list_ascii_of_string rest with
  | x :: _ => regexp.in_class regexp.space_class x = false
  | [] => True
  end ->
  regexp.FindStringSubmatchIndex (re "type") (tok ++ " " ++ rest)
  = Some [0; 6; 0; 5].
Proof.
  intros Ht Hr. unfold regexp.FindStringSubmatchIndex.
  assert (Hm : regexp.match_at (re "type") 0
                 (list_ascii_of_string (tok ++ " " ++ rest))
               = Some [(0, (0, 6)); (1, (0, 5))]%nat).
  { unfold regexp.match_at.
    let e := eval vm_compute in (regexp.expr (re "type")) in
      change (regexp.expr (re "type")) with e.
    simpl in Ht. destruct Ht as [<- | [<- | []]];
      cbn [append list_ascii_of_string regexp.exec Nat.eqb Ascii.eqb Bool.eqb
             regexp.orelse];
      match goal with
      | |- context [regexp.in_class ?r " "%char] =>
          change (regexp.in_class r " "%char) with true
      end;
      cbv iota;
      (rewrite star_loop_stop;
         [reflexivity
         | intros k'; destruct (list_ascii_of_string rest); [reflexivity|];
           match goal with
           | |- context [regexp.in_class ?r ?x] =>
               change (regexp.in_class r x)
                 with (regexp.in_class regexp.space_class x)
           end;
           rewrite Hr; reflexivity]). }
  destruct (list_ascii_of_string (tok ++ " " ++ rest)) as [|x l] eqn:El;
    cbn [regexp.search]; rewrite Hm; reflexivity.
Qed.

Lemma from_type tok rest :
  In tok ["METAR"; "SPECI"] ->
  from (tok ++ " " ++ rest) [0; 6; 0; 5] 1 = Val rest.
Proof.
  intros Ht. unfold from, at_, bindR. simpl nth_error. cbv iota.
  unfold slice, len.
  assert (Hl : String.length (tok ++ " " ++ rest)
               = (6 + String.length rest)%nat).
  { simpl in Ht. destruct Ht as [<- | [<- | []]]; reflexivity. }
  rewrite Hl.
  replace ((0 <=? 6) && (6 <=? Z.of_nat (6 + String.length rest))
           && (Z.of_nat (6 + String.length rest)
               <=? Z.of_nat (6 + String.length rest))) with true
    by (symmetry; rewrite !andb_true_iff; repeat split; apply Z.leb_le; lia).
  replace (Z.to_nat (Z.of_nat (6 + String.length rest) - 6))
    with (String.length rest) by lia.
  change (Z.to_nat 6) with 6%nat.
  simpl in Ht. destruct Ht as [<- | [<- | []]]; simpl;
    rewrite substring_all; reflexivity.
Qed.

(** X13: the report type is skipped.  When the type pattern finds nothing
    in a text, which then starts with no white space, decoding the text
    after [METAR] or [SPECI] and a space is decoding the text: the same
    record and the same result. *)
Theorem report_type_skipped tok rest rawDate m :
  In tok ["METAR"; "SPECI"] ->
  regexp.FindStringSubmatchIndex (re "type") rest = None ->
  Parse (tok ++ " " ++ rest) rawDate m = Parse rest rawDate m.
Proof.
  intros Ht Hn. rewrite !Parse_steps. unfold parseHead.
  rewrite !bind_assoc. unfold bind at 1. unfold bind at 6.
  rewrite !parseType_eq, Hn.
  rewrite (type_found tok rest Ht (type_none rest Hn)), (from_type tok rest Ht).
  reflexivity.
Qed.

Lemma report_type_skipped_witness :
  Parse ("SPECI" ++ " " ++ "YSSY 101234Z 18010KT 9999 FEW030 20/10 Q1013")
    "2023/06/10 09:00" Metar0
  = Parse "YSSY 101234Z 18010KT 9999 FEW030 20/10 Q1013" "2023/06/10 09:00"
      Metar0.
Proof.
  apply (report_type_skipped "SPECI"
           "YSSY 101234Z 18010KT 9999 FEW030 20/10 Q1013" "2023/06/10 09:00"
           Metar0).
  - simpl. auto.
  - vm_compute. reflexivity.
Defined.

(** * The record after a failed decode *)

Ltac ran E := unfold bind at 1; rewrite E; cbv beta iota.

(** C2 (as the code has it): when [Parse] returns an error, the record of the
    caller is not restored.  It is the record the steps before the failing
    one have made of the record given: the record given itself after the
    station error, the record after the station step after an error of the
    time, the record after the modifier step after an error of the wind, and
    so on, and after the dew-point error the record after the sky step with
    the temperature written.  So every field of an earlier step holds what
    that step wrote, every field from the failing step on is untouched, the
    pressure in particular, and after any error but the station error the
    station is the code matched in the report.  When [Parse] returns nil,
    every step has run. *)
Theorem failure_keeps_written_fields rawMetar rawDate m m' res :
  Parse rawMetar rawDate m = (m', res) ->
  match res with
  | Val _ => decoded rawMetar rawDate m m'
  | Fail msg =>
      frame (writtenBefore msg) m m' /\
      Pressure m' = Pressure m /\
      (msg <> "Error parsing station identifier" ->
       exists x idx station,
         parseType parsers0 rawMetar m = (m, Val x) /\
         regexp.FindStringSubmatchIndex (re "station") x = Some idx /\
         group x idx 1 = Some station /\
         Station m' = station) /\
      ((msg = "Error parsing station identifier" /\ m' = m) \/
       (In msg ["Error parsing metar time"; "Error parsing message time"] /\
        exists x,
          (r <- parseType parsers0 rawMetar ;; parseStation parsers0 r)%M m
          = (m', Val x)) \/
       (In msg [ "Error parsing metar wind";
                 "Error converting wind direction in metar";
                 "Error converting wind speed in metar";
                 "Error converting gust speed in metar" ] /\
        exists x,
          (r <- parseType parsers0 rawMetar ;;
           r <- parseStation parsers0 r ;;
           r <- parseTime parsers0 rawDate r ;;
           parseModifier parsers0 r)%M m = (m', Val x)) \/
       (In msg [ "Error parsing metar visibility";
                 "Error converting visibility value in metar" ] /\
        exists x, parseHead parsers0 rawMetar rawDate m = (m', Val x)) \/
       (msg = "Error parsing metar sky" /\
        exists cur,
          (r <- parseHead parsers0 rawMetar rawDate ;;
           c <- parseVisibility parsers0 r ;;
           parseWeather parsers0 c)%M m = (m', Val cur)) \/
       (In msg [ "Error parsing metar temperature";
                 "Error converting temperature value in metar" ] /\
        exists x,
          (r <- parseHead parsers0 rawMetar rawDate ;; parseBody parsers0 r)%M m
          = (m', Val x)) \/
       (msg = "Error converting dew point value in metar" /\
        exists m7 x idx t,
          (r <- parseHead parsers0 rawMetar rawDate ;; parseBody parsers0 r)%M m
          = (m7, Val x) /\
          regexp.FindStringSubmatchIndex (re "temp") x = Some idx /\
          signedOf x idx 2 4 "Error converting temperature value in metar"
          = Val t /\
          m' = with_Temp t m7) \/
       (In msg [ "Error parsing metar pressure";
                 "Error converting pressure value in metar";
                 "Error interpreting metar pressure value" ] /\
        exists x,
          (r <- parseHead parsers0 rawMetar rawDate ;;
           r <- parseBody parsers0 r ;;
           parseTemp parsers0 r)%M m = (m', Val x)))
  | Panic => True
  end.
Proof.
  intros H. destruct res as [[] | msg |]; [apply Parse_decoded; exact H | | exact I].
  pose proof (Parse_spec rawMetar rawDate m m' (Fail msg) H) as [Hfr Hle].
  split; [exact Hfr|]. split; [|split].
  - apply (frame_upto _ 9) in Hfr; [|lia].
    apply (Hfr FPressure). vm_compute. intuition discriminate.
  - intros Hmsg. rewrite Parse_steps in H. unfold parseHead in H.
    rewrite bind_assoc in H. apply bind_Fail in H.
    destruct H as [H | [x [m0 [Ht H]]]].
    + rewrite parseType_eq in H.
      destruct (regexp.FindStringSubmatchIndex (re "type") rawMetar) as [i|];
        [|discriminate].
      inversion H as [[Hm0 Hf]]. exfalso. apply (fails_from [] _ _ _ _ Hf).
    + assert (m0 = m).
      { rewrite parseType_eq in Ht.
        destruct (regexp.FindStringSubmatchIndex (re "type") rawMetar);
          inversion Ht; reflexivity. }
      subst m0. exists x.
      rewrite bind_assoc in H. apply bind_Fail in H.
      rewrite parseStation_eq in H.
      destruct (regexp.FindStringSubmatchIndex (re "station") x) as [idx|] eqn:Ef.
      * pose proof (Find_match_of _ _ _ Ef) as Hm.
        rewrite (sub_group 1 x idx 1) in H by (auto; lia).
        destruct (group x idx 1) as [station|] eqn:Eg.
        -- exists idx, station. repeat (split; [reflexivity || assumption|]).
           destruct H as [H | [r1 [m1 [Hs H]]]].
           { inversion H as [[Hm1 Hf]]. exfalso.
             apply (fails_from [] _ _ _ _ Hf). }
           inversion Hs; subst.
           apply after_station_writes in H.
           rewrite (H FStation); [reflexivity|].
           simpl. intuition discriminate.
        -- destruct H as [H | [r1 [m1 [Hs H]]]]; discriminate.
      * destruct H as [H | [r1 [m1 [Hs H]]]]; [|discriminate].
        inversion H; subst. contradiction Hmsg. reflexivity.
  - clear Hfr Hle. rewrite Parse_steps in H. unfold parseHead in H.
    rewrite bind_assoc in H. unfold bind at 1 in H.
    destruct (parseType_runs rawMetar m) as [r1 [pre [E1 _]]].
    rewrite E1 in H. rewrite bind_assoc in H. unfold bind at 1 in H.
    destruct (parseStation_runs r1 m)
      as [[_ E2] | [i2 [st [r2 [_ [_ [_ E2]]]]]]]; rewrite E2 in H.
    { left. inversion H; subst. auto. }
    right. rewrite bind_assoc in H. unfold bind at 1 in H.
    destruct (parseTime_runs rawDate r2 (with_Station st m))
      as [[_ E3] | [[_ E3] | [i3 [t0 [day [hour [min [r3 [_ [_ [_ [_ [_ [_ E3]]]]]]]]]]]]]];
      rewrite E3 in H.
    { left. inversion H; subst. split; [simpl; auto|].
      exists r2. ran E1. exact E2. }
    { left. inversion H; subst. split; [simpl; auto|].
      exists r2. ran E1. exact E2. }
    right. rewrite bind_assoc in H. unfold bind at 1 in H.
    match type of E3 with _ = (?m3', _) => set (m3 := m3') in * end.
    assert (E4 : exists m4 r4, parseModifier parsers0 r3 m3 = (m4, Val r4)).
    { destruct (parseModifier_runs r3 m3)
        as [[_ E] | [i4 [md [r4 [_ [_ [_ E]]]]]]]; eauto. }
    destruct E4 as [m4 [r4 E4]]. rewrite E4 in H.
    destruct (parseWind_runs r4 m4)
      as [[msg5 [Hin5 E5]] | [i5 [w [r5 [_ [_ [_ E5]]]]]]].
    { left. unfold bind at 1 in H. rewrite E5 in H. inversion H; subst.
      split; [exact Hin5|]. exists r4. ran E1. ran E2. ran E3. exact E4. }
    right. unfold bind at 1 in H. rewrite E5 in H.
    assert (Hhead : parseHead parsers0 rawMetar rawDate m
                    = (with_Wind w m4, Val r5)).
    { unfold parseHead. ran E1. ran E2. ran E3. ran E4. exact E5. }
    unfold parseBody in H. rewrite bind_assoc in H. unfold bind at 1 in H.
    destruct (parseVisibility_runs r5 (with_Wind w m4))
      as [[msg6 [Hin6 E6]] | [i6 [t6 [v [r6 [_ [_ [_ [_ [_ E6]]]]]]]]]];
      rewrite E6 in H.
    { left. inversion H; subst. split; [exact Hin6|]. exists r5. exact Hhead. }
    right. rewrite bind_assoc in H. unfold bind at 1 in H.
    destruct (parseWeather_runs i6 r6 (with_Visibility v (with_Wind w m4)))
      as [ws [cur [pre7 [E7 _]]]].
    rewrite E7 in H. destruct cur as [i7 r7].
    match type of E7 with _ = (?m7', _) => set (m7 := m7') in * end.
    unfold bind at 1 in H.
    destruct (parseSky_runs i7 r7 m7) as [E8 | [ss [r8 [pre8 [E8 _]]]]];
      rewrite E8 in H.
    { left. inversion H; subst. split; [reflexivity|].
      exists (i7, r7). ran Hhead. ran E6. exact E7. }
    right.
    match type of E8 with _ = (?m8', _) => set (m8 := m8') in * end.
    assert (Hbody : (r <- parseHead parsers0 rawMetar rawDate ;;
                     parseBody parsers0 r)%M m = (m8, Val r8)).
    { ran Hhead. unfold parseBody. ran E6. ran E7. exact E8. }
    unfold parseTail in H. unfold bind at 1 in H.
    destruct (parseTemp_runs r8 m8)
      as [[_ E9] | [i9 [Hf9 [E9 | [t [Ht9 [[_ E9] | [[_ E9] | [dp [r9 [_ [_ E9]]]]]]]]]]]];
      rewrite E9 in H.
    { left. inversion H; subst. split; [simpl; auto|]. exists r8. exact Hbody. }
    { left. inversion H; subst. split; [simpl; auto|]. exists r8. exact Hbody. }
    { right. left. inversion H; subst. split; [reflexivity|].
      exists m8, r8, i9, t. auto. }
    { discriminate. }
    right. right.
    destruct (parsePress_runs r9 (with_DewPt dp (with_Temp t m8)))
      as [[msg10 [Hin10 E10]] | [i10 [ptxt [p [_ [_ [_ [_ [_ E10]]]]]]]]];
      rewrite E10 in H; [|discriminate].
    inversion H; subst. split; [exact Hin10|]. exists r9.
    unfold bind at 1. unfold bind at 1. unfold bind at 1 in Hbody.
    destruct (parseHead parsers0 rawMetar rawDate m) as [mh [rh | |]];
      try discriminate.
    rewrite Hbody. exact E9.
Qed.

Lemma failure_keeps_written_fields_witness :
  frame (writtenBefore "Error parsing metar wind") Metar0
    (with_Time (time.Date 2023 6 10 12 34 0) (with_Station "YSSY" Metar0)) /\
  Pressure (with_Time (time.Date 2023 6 10 12 34 0) (with_Station "YSSY" Metar0))
  = Pressure Metar0 /\
  ("Error parsing metar wind" <> "Error parsing station identifier" ->
   exists x idx station,
     parseType parsers0 "YSSY 101234Z XXX 9999 FEW030 20/10 Q1013" Metar0
     = (Metar0, Val x) /\
     regexp.FindStringSubmatchIndex (re "station") x = Some idx /\
     group x idx 1 = Some station /\
     Station
       (with_Time (time.Date 2023 6 10 12 34 0) (with_Station "YSSY" Metar0))
     = station) /\
  (("Error parsing metar wind" = "Error parsing station identifier" /\
    with_Time (time.Date 2023 6 10 12 34 0) (with_Station "YSSY" Metar0)
    = Metar0) \/
   (In "Error parsing metar wind"
      ["Error parsing metar time"; "Error parsing message time"] /\
    exists x,
      (r <- parseType parsers0 "YSSY 101234Z XXX 9999 FEW030 20/10 Q1013" ;;
       parseStation parsers0 r)%M Metar0
      = (with_Time (time.Date 2023 6 10 12 34 0) (with_Station "YSSY" Metar0),
         Val x)) \/
   (In "Error parsing metar wind"
      [ "Error parsing metar wind";
        "Error converting wind direction in metar";
        "Error converting wind speed in metar";
        "Error converting gust speed in metar" ] /\
    exists x,
      (r <- parseType parsers0 "YSSY 101234Z XXX 9999 FEW030 20/10 Q1013" ;;
       r <- parseStation parsers0 r ;;
       r <- parseTime parsers0 "2023/06/10 09:00" r ;;
       parseModifier parsers0 r)%M Metar0
      = (with_Time (time.Date 2023 6 10 12 34 0) (with_Station "YSSY" Metar0),
         Val x)) \/
   (In "Error parsing metar wind"
      [ "Error parsing metar visibility";
        "Error converting visibility value in metar" ] /\
    exists x,
      parseHead parsers0 "YSSY 101234Z XXX 9999 FEW030 20/10 Q1013"
        "2023/06/10 09:00" Metar0
      = (with_Time (time.Date 2023 6 10 12 34 0) (with_Station "YSSY" Metar0),
         Val x)) \/
   ("Error parsing metar wind" = "Error parsing metar sky" /\
    exists cur,
      (r <- parseHead parsers0 "YSSY 101234Z XXX 9999 FEW030 20/10 Q1013"
              "2023/06/10 09:00" ;;
       c <- parseVisibility parsers0 r ;;
       parseWeather parsers0 c)%M Metar0
      = (with_Time (time.Date 2023 6 10 12 34 0) (with_Station "YSSY" Metar0),
         Val cur)) \/
   (In "Error parsing metar wind"
      [ "Error parsing metar temperature";
        "Error converting temperature value in metar" ] /\
    exists x,
      (r <- parseHead parsers0 "YSSY 101234Z XXX 9999 FEW030 20/10 Q1013"
              "2023/06/10 09:00" ;;
       parseBody parsers0 r)%M Metar0
      = (with_Time (time.Date 2023 6 10 12 34 0) (with_Station "YSSY" Metar0),
         Val x)) \/
   ("Error parsing metar wind" = "Error converting dew point value in metar" /\
    exists m7 x idx t,
      (r <- parseHead parsers0 "YSSY 101234Z XXX 9999 FEW030 20/10 Q1013"
              "2023/06/10 09:00" ;;
       parseBody parsers0 r)%M Metar0 = (m7, Val x) /\
      regexp.FindStringSubmatchIndex (re "temp") x = Some idx /\
      signedOf x idx 2 4 "Error converting temperature value in metar"
      = Val t /\
      with_Time (time.Date 2023 6 10 12 34 0) (with_Station "YSSY" Metar0)
      = with_Temp t m7) \/
   (In "Error parsing metar wind"
      [ "Error parsing metar pressure";
        "Error converting pressure value in metar";
        "Error interpreting metar pressure value" ] /\
    exists x,
      (r <- parseHead parsers0 "YSSY 101234Z XXX 9999 FEW030 20/10 Q1013"
              "2023/06/10 09:00" ;;
       r <- parseBody parsers0 r ;;
       parseTemp parsers0 r)%M Metar0
      = (with_Time (time.Date 2023 6 10 12 34 0) (with_Station "YSSY" Metar0),
         Val x))).
Proof.
  apply (failure_keeps_written_fields
           "YSSY 101234Z XXX 9999 FEW030 20/10 Q1013" "2023/06/10 09:00" Metar0
           (with_Time (time.Date 2023 6 10 12 34 0) (with_Station "YSSY" Metar0))
           (Fail "Error parsing metar wind")).
  vm_compute. reflexivity.
Defined.
